(** * nostr-kv-connect: the request pipeline, embedded and checked

    A shallow embedding of the gateway's request-processing core
    (namespace guard, validators, sliding-window limits, idempotency
    cache, KV adapter, audit log, protocol router, server event handler)
    followed by the properties the specification states about it. *)

From Stdlib Require Import ZArith NArith List Bool Lia String Ascii DecimalString.
From stdpp Require Import base gmap list.
Import ListNotations.

Local Open Scope Z_scope.

(** ** JavaScript strings

    A JS string is a sequence of UTF-16 code units; [length] counts code
    units, and [includes], [startsWith], [indexOf], [substring] compare
    code units.  Literals of the source are written [lit "..."]. *)

Module Js.

Abbreviation jsstring := (list N) (only parsing).

Definition lit (s : string) : jsstring :=
  List.map N_of_ascii (list_ascii_of_string s).

Definition str_eqb (a b : jsstring) : bool := bool_decide (a = b).

(** [s.startsWith(p)] *)
Fixpoint startsWith (s p : jsstring) : bool :=
  match p, s with
  | [], _ => true
  | _ :: _, [] => false
  | x :: p', y :: s' => N.eqb x y && startsWith s' p'
  end.

(** [s.endsWith(p)] *)
Definition endsWith (s p : jsstring) : bool :=
  startsWith (rev s) (rev p).

(** [s.includes(p)] *)
Fixpoint includes (s p : jsstring) : bool :=
  startsWith s p ||
  match s with
  | [] => false
  | _ :: s' => includes s' p
  end.

(** [s.indexOf(c)] for a one-unit pattern: the first position, or -1. *)
Fixpoint indexOf (s : jsstring) (c : N) : Z :=
  match s with
  | [] => -1
  | x :: s' =>
      if N.eqb x c then 0
      else let i := indexOf s' c in if i <? 0 then -1 else i + 1
  end.

(** [s.substring(0, e)] *)
Definition substring0 (s : jsstring) (e : Z) : jsstring :=
  firstn (Z.to_nat e) s.

(** [s.substring(b)] *)
Definition substringFrom (s : jsstring) (b : Z) : jsstring :=
  skipn (Z.to_nat b) s.

(** [s.length] *)
Definition len (s : jsstring) : Z := Z.of_nat (length s).

(** [!s] on a string: only the empty string is falsy. *)
Definition falsy (s : jsstring) : bool :=
  match s with [] => true | _ => false end.

(** The character class [\s] of a JS regular expression: WhiteSpace and
    LineTerminator code points (all in the basic plane). *)
Definition isWhiteSpace (c : N) : bool :=
  ((9 <=? c) && (c <=? 13) || (c =? 32) || (c =? 160) || (c =? 5760)
   || (8192 <=? c) && (c <=? 8202) || (c =? 8232) || (c =? 8233)
   || (c =? 8239) || (c =? 8287) || (c =? 12288) || (c =? 65279))%N.

End Js.
Export Js.

(** ** src/namespacing/ns.ts: [NamespaceManager] *)

Module NamespaceManager.

(** The object has one field, [namespace]; the constructor appends a
    colon when it is missing. *)
Record t := { namespace : jsstring }.

Definition new (ns : jsstring) : t :=
  {| namespace := if endsWith ns (lit ":") then ns else ns ++ lit ":" |}.

Definition escapePatterns : list jsstring :=
  [ lit ".."; [0%N]; [10%N]; [13%N]; lit "*"; lit "?"; lit "["; lit "]";
    [92%N]; lit "$(("; lit "${"; lit "../"; [46; 46; 92]%N;
    lit "eval("; lit "exec(" ].

(** [/[\x00-\x08\x0B\x0C\x0E-\x1F\x7F]/] *)
Definition isControl (c : N) : bool :=
  ((c <=? 8) || (c =? 11) || (c =? 12) || (14 <=? c) && (c <=? 31)
   || (c =? 127))%N.

Definition suspiciousPatterns : list (jsstring -> bool) :=
  [ existsb isControl;               (* control characters *)
    forallb isWhiteSpace;            (* /^\s*$/ *)
    fun key => includes key (lit "...") ].   (* /\.{3,}/ *)

Definition hasEscapeAttempt (key : jsstring) : bool :=
  existsb (fun pattern => includes key pattern) escapePatterns
  || existsb (fun pattern => pattern key) suspiciousPatterns.

Definition hasWrongNamespace (this : t) (key : jsstring) : bool :=
  let colonIndex := indexOf key 58%N in
  if 0 <? colonIndex then
    let keyNamespace := substring0 key (colonIndex + 1) in
    if negb (str_eqb keyNamespace (namespace this)) then true else false
  else false.

(** Returns the fully-qualified key, or [None] for the source's [null]. *)
Definition ensureNamespace (this : t) (key : jsstring) : option jsstring :=
  if falsy key then None
  else if hasEscapeAttempt key then None
  else if startsWith key (namespace this) then Some key
  else if hasWrongNamespace this key then None
  else Some (namespace this ++ key).

(** Strip the namespace from a key, for display. *)
Definition stripNamespace (this : t) (key : jsstring) : jsstring :=
  if startsWith key (namespace this)
  then substringFrom key (len (namespace this))
  else key.

Definition validateNamespaceFormat (this : t) : bool :=
  if negb (endsWith (namespace this) (lit ":")) then false
  else if len (namespace this) <=? 1 then false
  else if hasEscapeAttempt (namespace this) then false
  else if 128 <? len (namespace this) then false
  else true.

Definition isKeyInNamespace (this : t) (key : jsstring) : bool :=
  startsWith key (namespace this).

(** The loop of [validateKeys]: [valid] and [invalid] grow by [push]. *)
Fixpoint validateKeysFrom (this : t) (keys valid invalid : list jsstring)
  : list jsstring * list jsstring :=
  match keys with
  | [] => (valid, invalid)
  | key :: rest =>
      match ensureNamespace this key with
      | Some (c :: fullKey) =>
          validateKeysFrom this rest (valid ++ [c :: fullKey]) invalid
      | _ => validateKeysFrom this rest valid (invalid ++ [key])
      end
  end.

(** Returns [{ valid, invalid }]. *)
Definition validateKeys (this : t) (keys : list jsstring)
  : list jsstring * list jsstring :=
  validateKeysFrom this keys [] [].

End NamespaceManager.

(** ** Node's [Buffer] codecs

    [Buffer.from(s, 'base64')], [buf.toString('base64')],
    [Buffer.from(s)] (UTF-8) and [buf.toString()] (UTF-8) belong to the
    runtime, not to the repository; they are modelled after the runtime's
    documented behaviour.  Bytes are numbers below 256. *)

Module Buffer.

Definition bytes := list N.

(** The value of a base-64 digit; both the standard and the URL-safe
    alphabet are legal. *)
Definition unbase64 (c : N) : option N :=
  (if (65 <=? c) && (c <=? 90) then Some (c - 65)
   else if (97 <=? c) && (c <=? 122) then Some (c - 71)
   else if (48 <=? c) && (c <=? 57) then Some (c + 4)
   else if (c =? 43) || (c =? 45) then Some 62
   else if (c =? 47) || (c =? 95) then Some 63
   else None)%N.

(** The decoder looks at the low byte of each code unit only
    ([static_cast<uint8_t>] in the runtime): U+0141 reads as [A], U+013D
    as [=]. *)
Definition lowByte (c : N) : N := (c mod 256)%N.

(** The legal digits of a string: other characters are skipped, and the
    first [=] ends the input. *)
Fixpoint sextets (s : jsstring) : list N :=
  match s with
  | [] => []
  | c :: s' =>
      match unbase64 (lowByte c) with
      | Some v => v :: sextets s'
      | None => if (lowByte c =? 61)%N then [] else sextets s'
      end
  end.

Fixpoint unpack (fuel : nat) (q : list N) : bytes :=
  match fuel with
  | O => []
  | S fuel' =>
      match q with
      | a :: b :: c :: d :: q' =>
          let w := (a * 262144 + b * 4096 + c * 64 + d)%N in
          (w / 65536) :: ((w / 256) mod 256) :: (w mod 256) :: unpack fuel' q'
      | [a; b; c] =>
          let w := (a * 262144 + b * 4096 + c * 64)%N in
          [w / 65536; (w / 256) mod 256]
      | [a; b] => [(a * 262144 + b * 4096) / 65536]
      | _ => []
      end%N
  end.

(** [Buffer.from(s, 'base64')]: never throws. *)
Definition from_base64 (s : jsstring) : bytes :=
  let q := sextets s in unpack (length q) q.

Definition digit64 (v : N) : N :=
  (if v <? 26 then v + 65
   else if v <? 52 then v + 71
   else if v <? 62 then v - 4
   else if v =? 62 then 43 else 47)%N.

(** [buf.toString('base64')]: standard alphabet, padded. *)
Fixpoint to_base64 (b : bytes) : jsstring :=
  match b with
  | x :: y :: z :: b' =>
      let w := (x * 65536 + y * 256 + z)%N in
      digit64 (w / 262144) :: digit64 ((w / 4096) mod 64)
      :: digit64 ((w / 64) mod 64) :: digit64 (w mod 64) :: to_base64 b'
  | [x; y] =>
      let w := (x * 65536 + y * 256)%N in
      [digit64 (w / 262144); digit64 ((w / 4096) mod 64);
       digit64 ((w / 64) mod 64); 61]
  | [x] =>
      let w := (x * 65536)%N in
      [digit64 (w / 262144); digit64 ((w / 4096) mod 64); 61; 61]
  | [] => []
  end%N.

Definition isHigh (c : N) : bool := ((55296 <=? c) && (c <=? 56319))%N.
Definition isLow (c : N) : bool := ((56320 <=? c) && (c <=? 57343))%N.

Definition utf8_of_point (p : N) : bytes :=
  (if p <? 128 then [p]
   else if p <? 2048 then [192 + p / 64; 128 + p mod 64]
   else if p <? 65536 then [224 + p / 4096; 128 + (p / 64) mod 64; 128 + p mod 64]
   else [240 + p / 262144; 128 + (p / 4096) mod 64; 128 + (p / 64) mod 64;
         128 + p mod 64])%N.

(** The code points of a string: a surrogate pair is one code point, a
    lone surrogate becomes U+FFFD. *)
Fixpoint points (s : jsstring) : list N :=
  match s with
  | [] => []
  | c :: s' =>
      if isHigh c then
        match s' with
        | d :: s'' =>
            if isLow d
            then (65536 + (c - 55296) * 1024 + (d - 56320))%N :: points s''
            else 65533%N :: points s'
        | [] => [65533%N]
        end
      else if isLow c then 65533%N :: points s'
      else c :: points s'
  end.

(** [Buffer.from(s)]: the UTF-8 encoding of the string. *)
Definition from_utf8 (s : jsstring) : bytes :=
  List.concat (List.map utf8_of_point (points s)).

(** The state of the UTF-8 decoder: code point so far, bytes still
    needed, and the bounds of the next continuation byte. *)
Record dec := { d_cp : N; d_need : nat; d_lo : N; d_hi : N }.

Definition dec0 : dec := {| d_cp := 0; d_need := 0; d_lo := 128; d_hi := 191 |}.

(** A byte met in the initial state. *)
Definition lead (b : N) : list N * dec :=
  (if b <? 128 then ([b], dec0)
   else if (194 <=? b) && (b <=? 223)
     then ([], {| d_cp := b - 192; d_need := 1; d_lo := 128; d_hi := 191 |})
   else if (224 <=? b) && (b <=? 239)
     then ([], {| d_cp := b - 224; d_need := 2;
                  d_lo := if b =? 224 then 160 else 128;
                  d_hi := if b =? 237 then 159 else 191 |})
   else if (240 <=? b) && (b <=? 244)
     then ([], {| d_cp := b - 240; d_need := 3;
                  d_lo := if b =? 240 then 144 else 128;
                  d_hi := if b =? 244 then 143 else 191 |})
   else ([65533], dec0))%N.

Definition feed (st : dec) (b : N) : list N * dec :=
  match d_need st with
  | O => lead b
  | S n =>
      if ((d_lo st <=? b) && (b <=? d_hi st))%N then
        let cp := (d_cp st * 64 + (b - 128))%N in
        match n with
        | O => ([cp], dec0)
        | S _ => ([], {| d_cp := cp; d_need := n; d_lo := 128; d_hi := 191 |})
        end
      else let '(out, st') := lead b in (65533%N :: out, st')
  end.

Fixpoint decode_points (st : dec) (b : bytes) : list N :=
  match b with
  | [] => match d_need st with O => [] | S _ => [65533%N] end
  | x :: b' => let '(out, st') := feed st x in out ++ decode_points st' b'
  end.

Definition units_of_point (p : N) : jsstring :=
  (if p <? 65536 then [p]
   else [55296 + (p - 65536) / 1024; 56320 + (p - 65536) mod 1024])%N.

(** [buf.toString()]: UTF-8 decoding with replacement of ill-formed
    sequences. *)
Definition to_utf8_string (b : bytes) : jsstring :=
  List.concat (List.map units_of_point (decode_points dec0 b)).

(** Ranges of the values above: an octet, a UTF-16 code unit, a 7-bit
    character, a code point that fits in 21 bits; and what the decoder
    keeps true of its state between two bytes. *)
Definition octet (x : N) : Prop := (x < 256)%N.
Definition unit16 (c : N) : Prop := (c < 65536)%N.
Definition ascii7 (c : N) : Prop := (c < 128)%N.
Definition small (p : N) : Prop := (p < 2097152)%N.

Definition decInv (st : dec) : Prop :=
  (d_hi st <= 191)%N
  /\ match d_need st with
     | 0%nat => True
     | 1%nat => (d_cp st < 32768)%N
     | 2%nat => (d_cp st < 512)%N
     | 3%nat => (d_cp st < 8)%N
     | _ => False
     end.

End Buffer.

(** ** JSON values

    What [JSON.parse] yields and [JSON.stringify] prints.  An object lists
    its own properties in order (names are distinct in a parsed value).
    Numbers are modelled as integers and printed in decimal, which is what
    the runtime does for the integers a double holds below 1e21 in
    magnitude; from 1e21 on the runtime prints an exponent, which is not
    modelled. *)

Module JSON.

#[local] Set Warnings "-register-all".
Inductive t :=
| JNull
| JBool (b : bool)
| JNum (n : Z)
| JStr (s : jsstring)
| JArr (l : list t)
| JObj (props : list (jsstring * t)).

(** [o[k]] on a property list; [None] is [undefined]. *)
Fixpoint lookup (props : list (jsstring * t)) (k : jsstring) : option t :=
  match props with
  | [] => None
  | (k', v) :: rest => if str_eqb k' k then Some v else lookup rest k
  end.

(** [j.k] on any value that is not [null]. *)
Definition prop (j : t) (k : jsstring) : option t :=
  match j with
  | JObj props => lookup props k
  | _ => None
  end.

Definition hexdigit (v : N) : N := (if v <? 10 then 48 + v else 87 + v)%N.

Definition unicodeEscape (c : N) : jsstring :=
  [92; 117; hexdigit (c / 4096); hexdigit ((c / 256) mod 16);
   hexdigit ((c / 16) mod 16); hexdigit (c mod 16)]%N.

Definition quoteUnit (c : N) : jsstring :=
  (if c =? 8 then lit "\b" else if c =? 9 then lit "\t"
   else if c =? 10 then lit "\n" else if c =? 12 then lit "\f"
   else if c =? 13 then lit "\r" else if c =? 34 then [92; 34]
   else if c =? 92 then [92; 92]
   else if c <? 32 then unicodeEscape c
   else [c])%N.

(** The body of a quoted string: paired surrogates are kept, lone ones
    are escaped. *)
Fixpoint quoteBody (s : jsstring) : jsstring :=
  match s with
  | [] => []
  | c :: s' =>
      if Buffer.isHigh c then
        match s' with
        | d :: s'' =>
            if Buffer.isLow d then c :: d :: quoteBody s''
            else unicodeEscape c ++ quoteBody s'
        | [] => unicodeEscape c
        end
      else if Buffer.isLow c then unicodeEscape c ++ quoteBody s'
      else quoteUnit c ++ quoteBody s'
  end.

Definition quote (s : jsstring) : jsstring := [34%N] ++ quoteBody s ++ [34%N].

Definition decimal (n : Z) : jsstring :=
  lit (DecimalString.NilZero.string_of_int (Z.to_int n)).

(** [JSON.stringify(j)] *)
Fixpoint stringify (j : t) : jsstring :=
  match j with
  | JNull => lit "null"
  | JBool true => lit "true"
  | JBool false => lit "false"
  | JNum n => decimal n
  | JStr s => quote s
  | JArr l =>
      lit "[" ++
      (fix items (l : list t) : jsstring :=
         match l with
         | [] => []
         | x :: l' =>
             match l' with
             | [] => stringify x
             | _ :: _ => stringify x ++ lit "," ++ items l'
             end
         end) l ++ lit "]"
  | JObj props =>
      lit "{" ++
      (fix members (l : list (jsstring * t)) : jsstring :=
         match l with
         | [] => []
         | (k, v) :: l' =>
             match l' with
             | [] => quote k ++ lit ":" ++ stringify v
             | _ :: _ => quote k ++ lit ":" ++ stringify v ++ lit "," ++ members l'
             end
         end) props ++ lit "}"
  end.

(** JS truthiness of a value. *)
Definition truthy (j : t) : bool :=
  match j with
  | JNull | JBool false | JNum 0 | JStr [] => false
  | _ => true
  end.

End JSON.
Export JSON(JNull, JBool, JNum, JStr, JArr, JObj).

(** ** src/types.ts *)

Module ErrorCodes.
Definition UNAUTHORIZED := lit "UNAUTHORIZED".
Definition RESTRICTED := lit "RESTRICTED".
Definition RATE_LIMITED := lit "RATE_LIMITED".
Definition PAYLOAD_TOO_LARGE := lit "PAYLOAD_TOO_LARGE".
Definition INVALID_KEY := lit "INVALID_KEY".
Definition INVALID_VALUE := lit "INVALID_VALUE".
Definition NOT_IMPLEMENTED := lit "NOT_IMPLEMENTED".
Definition INTERNAL := lit "INTERNAL".
End ErrorCodes.

(** A request that passed [baseRequestSchema]. *)
Record KVRequest := {
  method : jsstring;
  params : list (jsstring * JSON.t);
  id : jsstring }.

Record KVError := { code : jsstring; message : jsstring }.

(** [resp_id] is [None] when the property is [undefined] (the catch path
    of the router echoes [request.id] of the unvalidated request). *)
Record KVResponse := {
  result : JSON.t;
  error : option KVError;
  resp_id : option JSON.t }.

Record Limits := { mps : Z; bps : Z; maxKey : Z; maxVal : Z; mgetMax : Z }.

Record ByteRecord := { timestamp : Z; bytes : Z }.

Record RateLimitState := { requests : list Z; byteRecords : list ByteRecord }.

Record ClientConnection := {
  pubkey : jsstring;
  namespace : jsstring;
  allowedMethods : list jsstring;
  limits : Limits;
  rateLimitState : option RateLimitState }.

Definition set_rateLimitState (c : ClientConnection) (s : RateLimitState)
  : ClientConnection :=
  {| pubkey := pubkey c; namespace := namespace c;
     allowedMethods := allowedMethods c; limits := limits c;
     rateLimitState := Some s |}.

(** The state after [if (!connection.rateLimitState) { ... = { requests:
    [], bytes: [] } }]. *)
Definition initState (c : ClientConnection) : RateLimitState :=
  match rateLimitState c with
  | Some s => s
  | None => {| requests := []; byteRecords := [] |}
  end.

(** [JSON.stringify(response)] goes through the response as an object. *)
Definition response_json (r : KVResponse) : JSON.t :=
  JObj ([ (lit "result", result r);
          (lit "error",
           match error r with
           | None => JNull
           | Some e => JObj [ (lit "code", JStr (code e));
                              (lit "message", JStr (message e)) ]
           end) ]
        ++ match resp_id r with
           | Some i => [ (lit "id", i) ]
           | None => []
           end).

(** ** src/limits/validate.ts: [Validator] *)

Module Validator.

Definition validateKey (key : jsstring) (maxLength : Z) : bool :=
  if falsy key then false
  else if maxLength <? len key then false
  else if includes key [0%N] then false
  else true.

Definition validateValue (value : jsstring) (maxSize : Z) : bool :=
  if falsy value then true
  else
    let decoded := Buffer.from_base64 value in
    if maxSize <? Z.of_nat (length decoded) then false else true.

Definition validateMgetCount (count maxCount : Z) : bool :=
  if count <=? 0 then false
  else if maxCount <? count then false
  else true.

(** [/^[a-zA-Z0-9_-]+:$/] *)
Definition isNameChar (c : N) : bool :=
  ((97 <=? c) && (c <=? 122) || (65 <=? c) && (c <=? 90)
   || (48 <=? c) && (c <=? 57) || (c =? 95) || (c =? 45))%N.

(** One or more name characters, then a colon, then the end: read from
    the end of the string. *)
Definition validPattern (s : jsstring) : bool :=
  match rev s with
  | [] => false
  | last :: body =>
      (last =? 58)%N && negb (falsy body) && forallb isNameChar body
  end.

Definition validateNamespace (namespace : jsstring) : bool :=
  if falsy namespace then false
  else if negb (endsWith namespace (lit ":")) then false
  else if negb (validPattern namespace) then false
  else true.

End Validator.

(** ** src/limits/rate.ts: [RateLimiter] *)

Module RateLimiter.

Definition windowMs : Z := 60000.

(** Returns the verdict and the mutated connection. *)
Definition checkLimit (connection : ClientConnection) (now : Z)
  : bool * ClientConnection :=
  let st := initState connection in
  let kept := List.filter (fun timestamp => now - timestamp <? windowMs) (requests st) in
  if mps (limits connection) <=? Z.of_nat (length kept) then
    (false, set_rateLimitState connection
              {| requests := kept; byteRecords := byteRecords st |})
  else
    (true, set_rateLimitState connection
             {| requests := kept ++ [now]; byteRecords := byteRecords st |}).

(** [Math.min(...l)] of a list whose first element is [x]. *)
Definition minimum (x : Z) (l : list Z) : Z := fold_left Z.min l x.

Definition getRemainingRequests (connection : ClientConnection) (now : Z)
  : Z * ClientConnection :=
  match rateLimitState connection with
  | None => (mps (limits connection), connection)
  | Some st =>
      let kept := List.filter (fun timestamp => now - timestamp <? windowMs)
                    (requests st) in
      (Z.max 0 (mps (limits connection) - Z.of_nat (length kept)),
       set_rateLimitState connection
         {| requests := kept; byteRecords := byteRecords st |})
  end.

Definition reset (connection : ClientConnection) : ClientConnection :=
  match rateLimitState connection with
  | Some st =>
      set_rateLimitState connection
        {| requests := []; byteRecords := byteRecords st |}
  | None => connection
  end.

(** Time until the next request is allowed, in ms. *)
Definition getResetTime (connection : ClientConnection) (now : Z) : Z :=
  match rateLimitState connection with
  | None => 0
  | Some st =>
      match requests st with
      | [] => 0
      | x :: l =>
          let oldestRequest := minimum x l in
          let resetTime := oldestRequest + windowMs - now in
          Z.max 0 resetTime
      end
  end.

End RateLimiter.

(** ** src/limits/budget.ts: [BudgetManager] *)

Module BudgetManager.

Definition windowMs : Z := 60000.

Definition inWindow (now : Z) (record : ByteRecord) : bool :=
  now - timestamp record <? windowMs.

Definition usage (l : list ByteRecord) : Z :=
  fold_left (fun sum record => sum + bytes record) l 0.

Definition checkBudget (connection : ClientConnection) (now requestBytes : Z)
  : bool * ClientConnection :=
  let st := initState connection in
  let kept := List.filter (inWindow now) (byteRecords st) in
  let connection' := set_rateLimitState connection
                       {| requests := requests st; byteRecords := kept |} in
  let currentUsage := usage kept in
  if bps (limits connection) <? currentUsage + requestBytes
  then (false, connection')
  else (true, connection').

Definition getCurrentUsage (connection : ClientConnection) (now : Z)
  : Z * ClientConnection :=
  match rateLimitState connection with
  | None => (0, connection)
  | Some st =>
      let kept := List.filter (inWindow now) (byteRecords st) in
      (usage kept, set_rateLimitState connection
                     {| requests := requests st; byteRecords := kept |})
  end.

(** [now] stamps the pushed record; [now'] is the clock read by the
    [getCurrentUsage] call in the debug line, which purges the window. *)
Definition consumeBudget (connection : ClientConnection) (now now' n : Z)
  : ClientConnection :=
  let st := initState connection in
  let pushed := set_rateLimitState connection
                  {| requests := requests st;
                     byteRecords := byteRecords st
                                    ++ [ {| timestamp := now; bytes := n |} ] |} in
  snd (getCurrentUsage pushed now').

Definition getRemainingBudget (connection : ClientConnection) (now : Z)
  : Z * ClientConnection :=
  let '(currentUsage, connection') := getCurrentUsage connection now in
  (Z.max 0 (bps (limits connection) - currentUsage), connection').

Definition reset (connection : ClientConnection) : ClientConnection :=
  match rateLimitState connection with
  | Some st =>
      set_rateLimitState connection
        {| requests := requests st; byteRecords := [] |}
  | None => connection
  end.

End BudgetManager.

(** ** src/protocol/idempotency.ts: [IdempotencyCache] *)

Module IdempotencyCache.

Record CachedResponse := { response : KVResponse; cachedAt : Z }.

Record t := { cache : gmap jsstring CachedResponse; windowMs : Z }.

Definition new : t := {| cache := ∅; windowMs := 60000 |}.

Definition getCacheKey (clientPubkey requestId : jsstring) : jsstring :=
  clientPubkey ++ lit ":" ++ requestId.

Definition get (this : t) (now : Z) (clientPubkey requestId : jsstring)
  : option KVResponse * t :=
  let key := getCacheKey clientPubkey requestId in
  match cache this !! key with
  | None => (None, this)
  | Some cached =>
      let age := now - cachedAt cached in
      if windowMs this <? age
      then (None, {| cache := delete key (cache this); windowMs := windowMs this |})
      else (Some (response cached), this)
  end.

Definition set (this : t) (now : Z) (clientPubkey requestId : jsstring)
    (r : KVResponse) : t :=
  let key := getCacheKey clientPubkey requestId in
  {| cache := <[ key := {| response := r; cachedAt := now |} ]> (cache this);
     windowMs := windowMs this |}.

(** The sweep run by the interval timer. *)
Definition cleanup (this : t) (now : Z) : t :=
  {| cache := filter (fun kv => ¬ (windowMs this < now - cachedAt (snd kv)))
                     (cache this);
     windowMs := windowMs this |}.

Definition destroy (this : t) : t :=
  {| cache := ∅; windowMs := windowMs this |}.

End IdempotencyCache.

(** ** The backend store

    The Redis server is an external collaborator, reached over two
    connections: the adapter's ([KVAdapter]) and the one the server hands
    to the audit logger.  This is a reference model of the commands the
    code sends, after the server's documented behaviour: one keyspace in
    which a key holds a string or a list, each with an optional expiry
    deadline (in milliseconds of the server clock), and the history of the
    commands sent, in order.  A key reaches the server as the UTF-8
    encoding of the JS string. *)

Module Redis.

Record entry := { value : Buffer.bytes; expireAt : option Z }.

(** What a key holds: a string, or a list (head first). *)
Inductive slot :=
| String (e : entry)
| Lst (elements : list Buffer.bytes) (deadline : option Z).

Inductive command :=
| GET (key : jsstring)
| SET (key : jsstring) (v : Buffer.bytes) (ex : option Z)
| DEL (key : jsstring)
| EXISTS (key : jsstring)
| MGET (keys : list jsstring)
| EXPIRE (key : jsstring) (ttl : Z)
| TTL (key : jsstring)
| LPUSH (key : jsstring) (element : jsstring)
| LTRIM (key : jsstring) (start stop : Z).

Record t := { slots : gmap (list N) slot; history : list command }.

Definition empty : t := {| slots := ∅; history := [] |}.

(** The keys a command addresses. *)
Definition keysOf (c : command) : list jsstring :=
  match c with
  | GET k | SET k _ _ | DEL k | EXISTS k | EXPIRE k _ | TTL k
  | LPUSH k _ | LTRIM k _ _ => [k]
  | MGET ks => ks
  end.

(** The string commands, which are the ones [KVAdapter] sends; the audit
    logger sends LPUSH and LTRIM. *)
Definition isData (c : command) : bool :=
  match c with
  | LPUSH _ _ | LTRIM _ _ _ => false
  | _ => true
  end.

(** The commands of the history sent through [KVAdapter]. *)
Definition issued (this : t) : list command :=
  List.filter isData (history this).

Definition stringOf (s : slot) : option entry :=
  match s with String e => Some e | Lst _ _ => None end.

(** The keys that hold a string, with what they hold. *)
Definition data (this : t) : gmap (list N) entry := omap stringOf (slots this).

Definition keyOf (key : jsstring) : list N := Buffer.from_utf8 key.

Definition deadlineOf (s : slot) : option Z :=
  match s with String e => expireAt e | Lst _ d => d end.

Definition withDeadline (s : slot) (d : option Z) : slot :=
  match s with
  | String e => String {| value := value e; expireAt := d |}
  | Lst l _ => Lst l d
  end.

Definition live (now : Z) (s : slot) : bool :=
  match deadlineOf s with
  | None => true
  | Some deadline => now <? deadline
  end.

Definition read (this : t) (now : Z) (key : jsstring) : option slot :=
  match slots this !! keyOf key with
  | Some s => if live now s then Some s else None
  | None => None
  end.

Definition issue (this : t) (c : command) : t :=
  {| slots := slots this; history := history this ++ [c] |}.

Definition store (this : t) (d : gmap (list N) slot) : t :=
  {| slots := d; history := history this |}.

(** Each command takes the server clock and returns its reply, with the
    new state when it writes.  The reply of GET is the value as the client
    library hands it over, a UTF-8 decoded string; [None] as a reply is
    the error WRONGTYPE, returned by a string command on a list and by a
    list command on a string. *)
Definition get (this : t) (now : Z) (key : jsstring)
  : option (option jsstring) :=
  match read this now key with
  | Some (String e) => Some (Some (Buffer.to_utf8_string (value e)))
  | Some (Lst _ _) => None
  | None => Some None
  end.

(** SET replaces whatever the key holds, of either type, and its expiry. *)
Definition set (this : t) (now : Z) (key : jsstring) (v : Buffer.bytes)
    (ex : option Z) : t :=
  store this (<[ keyOf key :=
                   String {| value := v;
                             expireAt := match ex with
                                         | Some ttl => Some (now + ttl * 1000)
                                         | None => None
                                         end |} ]> (slots this)).

Definition del (this : t) (now : Z) (key : jsstring) : Z * t :=
  match read this now key with
  | Some _ => (1, store this (delete (keyOf key) (slots this)))
  | None => (0, store this (delete (keyOf key) (slots this)))
  end.

Definition exists_ (this : t) (now : Z) (key : jsstring) : Z :=
  match read this now key with Some _ => 1 | None => 0 end.

(** MGET never fails: a key that holds no string reads as nil. *)
Definition mget (this : t) (now : Z) (keys : list jsstring)
  : list (option jsstring) :=
  List.map (fun key => match read this now key with
                       | Some (String e) =>
                           Some (Buffer.to_utf8_string (value e))
                       | _ => None
                       end) keys.

Definition expire (this : t) (now : Z) (key : jsstring) (ttl : Z) : Z * t :=
  match read this now key with
  | Some s =>
      if ttl <=? 0 then (1, store this (delete (keyOf key) (slots this)))
      else (1, store this (<[ keyOf key :=
                                withDeadline s (Some (now + ttl * 1000)) ]>
                              (slots this)))
  | None => (0, this)
  end.

Definition ttl (this : t) (now : Z) (key : jsstring) : Z :=
  match read this now key with
  | Some s =>
      match deadlineOf s with
      | Some deadline => (deadline - now + 500) / 1000
      | None => -1
      end
  | None => -2
  end.

(** LPUSH puts the element at the head, creating the list when the key
    holds nothing; the reply is the new length. *)
Definition lpush (this : t) (now : Z) (key : jsstring) (element : Buffer.bytes)
  : option Z * t :=
  match read this now key with
  | Some (String _) => (None, this)
  | Some (Lst l d) =>
      (Some (Z.of_nat (S (length l))),
       store this (<[ keyOf key := Lst (element :: l) d ]> (slots this)))
  | None =>
      (Some 1, store this (<[ keyOf key := Lst [element] None ]> (slots this)))
  end.

(** The elements of [l] from index [start] to index [stop], both
    included; a negative index counts from the end. *)
Definition range {A} (l : list A) (start stop : Z) : list A :=
  let llen := Z.of_nat (length l) in
  let start := if start <? 0 then llen + start else start in
  let stop := if stop <? 0 then llen + stop else stop in
  let start := if start <? 0 then 0 else start in
  if (stop <? start) || (llen <=? start) then []
  else
    let stop := if llen <=? stop then llen - 1 else stop in
    firstn (Z.to_nat (stop - start + 1)) (skipn (Z.to_nat start) l).

(** LTRIM keeps the range; a list left empty is removed; a key that holds
    nothing is left alone. *)
Definition ltrim (this : t) (now : Z) (key : jsstring) (start stop : Z)
  : option unit * t :=
  match read this now key with
  | Some (String _) => (None, this)
  | Some (Lst l d) =>
      match range l start stop with
      | [] => (Some tt, store this (delete (keyOf key) (slots this)))
      | kept => (Some tt, store this (<[ keyOf key := Lst kept d ]> (slots this)))
      end
  | None => (Some tt, this)
  end.

(** The list under [key] as read at [now]: empty when the key holds
    nothing or a string. *)
Definition listAt (this : t) (now : Z) (key : jsstring) : list Buffer.bytes :=
  match read this now key with
  | Some (Lst l _) => l
  | _ => []
  end.

End Redis.

(** ** src/redis/kv.ts: [KVAdapter]

    Every method takes [up], whether the adapter's connection answers this
    call, and the backend clock; [None] as a result is a thrown error (the
    connection fails, or the server replies with an error). *)

Module KVAdapter.

Definition isBase64 (str : jsstring) : bool :=
  str_eqb (Buffer.to_base64 (Buffer.from_base64 str)) str.

(** The conversion applied to a value read from the store. *)
Definition encodeReply (value : jsstring) : jsstring :=
  if isBase64 value then value
  else Buffer.to_base64 (Buffer.from_utf8 value).

Definition get (redis : Redis.t) (up : bool) (now : Z) (key : jsstring)
  : option (option jsstring) * Redis.t :=
  let redis := Redis.issue redis (Redis.GET key) in
  if up then
    match Redis.get redis now key with
    | Some None => (Some None, redis)
    | Some (Some value) => (Some (Some (encodeReply value)), redis)
    | None => (None, redis)
    end
  else (None, redis).

Definition set (redis : Redis.t) (up : bool) (now : Z) (key value : jsstring)
    (ttl : option Z) : option unit * Redis.t :=
  let decodedValue := Buffer.from_base64 value in
  let ex := match ttl with
            | Some n => if negb (n =? 0) && (0 <? n) then Some n else None
            | None => None
            end in
  let redis := Redis.issue redis (Redis.SET key decodedValue ex) in
  if up then (Some tt, Redis.set redis now key decodedValue ex)
  else (None, redis).

Definition del (redis : Redis.t) (up : bool) (now : Z) (key : jsstring)
  : option Z * Redis.t :=
  let redis := Redis.issue redis (Redis.DEL key) in
  if up then let '(n, redis') := Redis.del redis now key in (Some n, redis')
  else (None, redis).

Definition exists_ (redis : Redis.t) (up : bool) (now : Z) (key : jsstring)
  : option bool * Redis.t :=
  let redis := Redis.issue redis (Redis.EXISTS key) in
  if up then (Some (Redis.exists_ redis now key =? 1), redis)
  else (None, redis).

Definition mget (redis : Redis.t) (up : bool) (now : Z) (keys : list jsstring)
  : option (list (option jsstring)) * Redis.t :=
  let redis := Redis.issue redis (Redis.MGET keys) in
  if up then
    (Some (List.map (fun value => match value with
                                  | None => None
                                  | Some v => Some (encodeReply v)
                                  end)
                    (Redis.mget redis now keys)), redis)
  else (None, redis).

Definition expire (redis : Redis.t) (up : bool) (now : Z) (key : jsstring)
    (ttl : Z) : option bool * Redis.t :=
  let redis := Redis.issue redis (Redis.EXPIRE key ttl) in
  if up then
    let '(n, redis') := Redis.expire redis now key ttl in (Some (n =? 1), redis')
  else (None, redis).

Definition ttl (redis : Redis.t) (up : bool) (now : Z) (key : jsstring)
  : option Z * Redis.t :=
  let redis := Redis.issue redis (Redis.TTL key) in
  if up then (Some (Redis.ttl redis now key), redis)
  else (None, redis).

End KVAdapter.

(** ** What one request observes of its surroundings

    The clock readings of the [Date.now()] calls met while a request is
    handled, in program order, the backend's own clock when each command
    reaches it, and whether the connection answers each command. *)

Record Env := {
  t_start : Z;      (* handleRequest: startTime *)
  t_idem : Z;       (* IdempotencyCache.get *)
  t_rate : Z;       (* RateLimiter.checkLimit *)
  t_budget : Z;     (* BudgetManager.checkBudget *)
  t_redis : Z;      (* the backend clock when the adapter's command runs *)
  redis_up : bool;  (* the adapter's connection answers *)
  t_cache : Z;      (* IdempotencyCache.set *)
  t_consume : Z;    (* BudgetManager.consumeBudget: the pushed record *)
  t_usage : Z;      (* BudgetManager.getCurrentUsage in consumeBudget *)
  t_end : Z;        (* handleRequest: latency *)
  t_audit : Z;      (* AuditLogger.log: Date.now() *)
  t_lpush : Z;      (* the backend clock when LPUSH runs *)
  lpush_up : bool;  (* the audit connection answers the LPUSH *)
  t_ltrim : Z;      (* the backend clock when LTRIM runs *)
  ltrim_up : bool;  (* the audit connection answers the LTRIM *)
  (* [Buffer.from(x)] for a truthy [params.key] that is an array or an
     object: the bytes built, or [None] for a TypeError *)
  bufferFromObject : JSON.t -> option Buffer.bytes }.

(** ** src/audit/audit.ts: [AuditLogger]

    The audit list is the Redis list under [<namespace>__audit], newest
    first, where [namespace] is the server's configured namespace: the key
    lies in the keyspace of the clients of that namespace. *)

Module AuditLogger.

Record AuditEntry := {
  a_method : jsstring;
  keyHash : jsstring;
  valueSize : JSON.t;
  status : jsstring;
  errorCode : option jsstring;
  latency : Z;
  clientPubkey : jsstring;
  a_timestamp : option Z }.

Record t := { auditKey : jsstring; maxEntries : Z }.

Definition new (namespace : jsstring) : t :=
  {| auditKey := namespace ++ lit "__audit"; maxEntries := 10000 |}.

Definition redactPubkey (pubkey : jsstring) : jsstring :=
  if len pubkey <=? 8 then lit "****"
  else substring0 pubkey 4 ++ lit "..." ++ substringFrom pubkey (len pubkey - 4).

(** [{ ...entry, timestamp: entry.timestamp || Date.now(), clientPubkey:
    this.redactPubkey(entry.clientPubkey) }] *)
Definition auditRecord (entry : AuditEntry) (now : Z) : JSON.t :=
  JObj ([ (lit "method", JStr (a_method entry));
          (lit "keyHash", JStr (keyHash entry));
          (lit "valueSize", valueSize entry);
          (lit "status", JStr (status entry)) ]
        ++ match errorCode entry with
           | Some c => [ (lit "errorCode", JStr c) ]
           | None => []
           end
        ++ [ (lit "latency", JNum (latency entry));
             (lit "clientPubkey", JStr (redactPubkey (clientPubkey entry)));
             (lit "timestamp",
              JNum match a_timestamp entry with
                   | Some ts => if ts =? 0 then now else ts
                   | None => now
                   end) ]).

(** [await lpush; await ltrim] inside one [try]: an LPUSH that fails (the
    connection, or WRONGTYPE) skips the LTRIM; every failure is swallowed. *)
Definition log (this : t) (redis : Redis.t) (env : Env) (entry : AuditEntry)
  : Redis.t :=
  let serialized := JSON.stringify (auditRecord entry (t_audit env)) in
  let redis := Redis.issue redis (Redis.LPUSH (auditKey this) serialized) in
  if lpush_up env then
    match Redis.lpush redis (t_lpush env) (auditKey this)
            (Buffer.from_utf8 serialized) with
    | (Some _, redis) =>
        let redis := Redis.issue redis
                       (Redis.LTRIM (auditKey this) 0 (maxEntries this - 1)) in
        if ltrim_up env then
          snd (Redis.ltrim redis (t_ltrim env) (auditKey this) 0
                 (maxEntries this - 1))
        else redis
    | (None, redis) => redis
    end
  else redis.

End AuditLogger.

(** ** src/protocol/schema.ts

    [schema.parse(x)] either returns the parsed value or throws; [None]
    is the throw. *)

Module Schema.

Definition baseRequestSchema (request : JSON.t) : option KVRequest :=
  match request with
  | JObj props =>
      match JSON.lookup props (lit "method"), JSON.lookup props (lit "params"),
            JSON.lookup props (lit "id") with
      | Some (JStr m), Some (JObj ps), Some (JStr i) =>
          Some {| method := m; params := ps; id := i |}
      | _, _, _ => None
      end
  | _ => None
  end.

Definition stringProp (ps : list (jsstring * JSON.t)) (k : string)
  : option jsstring :=
  match JSON.lookup ps (lit k) with
  | Some (JStr v) => Some v
  | _ => None
  end.

(** [z.object({ key: z.string() })]: get, del, exists, ttl *)
Definition keyParams (ps : list (jsstring * JSON.t)) : option jsstring :=
  stringProp ps "key".

(** [z.number().positive().optional()] *)
Definition optionalPositive (v : option JSON.t) : option (option Z) :=
  match v with
  | None => Some None
  | Some (JNum n) => if 0 <? n then Some (Some n) else None
  | Some _ => None
  end.

Definition setParams (ps : list (jsstring * JSON.t))
  : option (jsstring * jsstring * option Z) :=
  match stringProp ps "key", stringProp ps "value",
        optionalPositive (JSON.lookup ps (lit "ttl")) with
  | Some k, Some v, Some ttl => Some (k, v, ttl)
  | _, _, _ => None
  end.

Fixpoint strings (l : list JSON.t) : option (list jsstring) :=
  match l with
  | [] => Some []
  | JStr x :: l' =>
      match strings l' with Some r => Some (x :: r) | None => None end
  | _ :: _ => None
  end.

(** [z.object({ keys: z.array(z.string()).min(1) })] *)
Definition mgetParams (ps : list (jsstring * JSON.t)) : option (list jsstring) :=
  match JSON.lookup ps (lit "keys") with
  | Some (JArr l) =>
      match strings l with
      | Some (k :: ks) => Some (k :: ks)
      | _ => None
      end
  | _ => None
  end.

Definition expireParams (ps : list (jsstring * JSON.t)) : option (jsstring * Z) :=
  match stringProp ps "key", JSON.lookup ps (lit "ttl") with
  | Some k, Some (JNum n) => if 0 <? n then Some (k, n) else None
  | _, _ => None
  end.

End Schema.

(** ** src/protocol/router.ts: [ProtocolRouter] *)

Module ProtocolRouter.

(** [kvAdapter] stands for the backend as the adapter reaches it; the
    audit logger writes to the same backend over its own connection. *)
Record t := {
  idempotencyCache : IdempotencyCache.t;
  kvAdapter : Redis.t;
  auditLogger : AuditLogger.t;
  nip44Available : bool;                 (* DMCrypto.getCapabilities() *)
  namespaceManagers : gmap jsstring NamespaceManager.t }.

Definition new (auditLogger : AuditLogger.t) : t :=
  {| idempotencyCache := IdempotencyCache.new;
     kvAdapter := Redis.empty;
     auditLogger := auditLogger;
     nip44Available := true;
     namespaceManagers := ∅ |}.

Definition with_cache (this : t) (c : IdempotencyCache.t) : t :=
  {| idempotencyCache := c; kvAdapter := kvAdapter this;
     auditLogger := auditLogger this; nip44Available := nip44Available this;
     namespaceManagers := namespaceManagers this |}.

Definition with_kv (this : t) (r : Redis.t) : t :=
  {| idempotencyCache := idempotencyCache this; kvAdapter := r;
     auditLogger := auditLogger this; nip44Available := nip44Available this;
     namespaceManagers := namespaceManagers this |}.

Definition with_managers (this : t) (m : gmap jsstring NamespaceManager.t) : t :=
  {| idempotencyCache := idempotencyCache this; kvAdapter := kvAdapter this;
     auditLogger := auditLogger this; nip44Available := nip44Available this;
     namespaceManagers := m |}.

Definition getNamespaceManager (this : t) (connection : ClientConnection)
  : NamespaceManager.t * t :=
  let namespace := namespace connection in
  match namespaceManagers this !! namespace with
  | Some m => (m, this)
  | None =>
      let m := NamespaceManager.new namespace in
      (m, with_managers this (<[ namespace := m ]> (namespaceManagers this)))
  end.

Definition errorResponse (id : option JSON.t) (code message : jsstring)
  : KVResponse :=
  {| result := JNull;
     error := Some {| code := code; message := message |};
     resp_id := id |}.

Definition okResponse (id : option JSON.t) (r : JSON.t) : KVResponse :=
  {| result := r; error := None; resp_id := id |}.

(** [request.id] of a validated request. *)
Definition rid (request : KVRequest) : option JSON.t := Some (JStr (id request)).

(** [const fullKey = namespaceManager.ensureNamespace(key); if (!fullKey)
    ...]: [None] when the branch is taken. *)
Definition fullKeyOf (namespaceManager : NamespaceManager.t) (key : jsstring)
  : option jsstring :=
  match NamespaceManager.ensureNamespace namespaceManager key with
  | Some fullKey => if falsy fullKey then None else Some fullKey
  | None => None
  end.

Definition jsonOfValue (v : option jsstring) : JSON.t :=
  match v with Some s => JStr s | None => JNull end.

Section Handlers.

Variable env : Env.
Variable redis : Redis.t.
Variable request : KVRequest.
Variable connection : ClientConnection.
Variable namespaceManager : NamespaceManager.t.

Definition handleGetInfo (caps44 : bool) : KVResponse :=
  okResponse (rid request)
    (JObj [ (lit "methods", JArr (List.map JStr (allowedMethods connection)));
            (lit "ns", JStr (namespace connection));
            (lit "limits",
             JObj [ (lit "mps", JNum (mps (limits connection)));
                    (lit "bps", JNum (bps (limits connection)));
                    (lit "maxkey", JNum (maxKey (limits connection)));
                    (lit "maxval", JNum (maxVal (limits connection)));
                    (lit "mget_max", JNum (mgetMax (limits connection))) ]);
            (lit "encryption",
             JObj [ (lit "nip44", JBool caps44); (lit "nip04", JBool true) ]) ]).

(** The part shared by the single-key handlers: parameter parse, key
    validation, namespace resolution; then [call] on the full key.  [fail]
    is the message of the handler's catch branch. *)
Definition withKey (key : option jsstring) (fail : string)
    (call : jsstring -> option JSON.t * Redis.t) : KVResponse * Redis.t :=
  match key with
  | None => (errorResponse (rid request) ErrorCodes.INTERNAL (lit fail), redis)
  | Some key =>
      if negb (Validator.validateKey key (maxKey (limits connection))) then
        (errorResponse (rid request) ErrorCodes.INVALID_KEY
           (lit "Key too long or invalid"), redis)
      else
        match fullKeyOf namespaceManager key with
        | None =>
            (errorResponse (rid request) ErrorCodes.RESTRICTED
               (lit "Key outside namespace"), redis)
        | Some fullKey =>
            match call fullKey with
            | (Some r, redis') => (okResponse (rid request) r, redis')
            | (None, redis') =>
                (errorResponse (rid request) ErrorCodes.INTERNAL (lit fail), redis')
            end
        end
  end.

Definition reply {A} (f : A -> JSON.t) (r : option A * Redis.t)
  : option JSON.t * Redis.t :=
  (match fst r with Some a => Some (f a) | None => None end, snd r).

Definition handleGet : KVResponse * Redis.t :=
  withKey (Schema.keyParams (params request)) "Failed to get value"
    (fun fullKey =>
       reply (fun value => JObj [ (lit "value", jsonOfValue value) ])
             (KVAdapter.get redis (redis_up env) (t_redis env) fullKey)).

Definition handleSet : KVResponse * Redis.t :=
  match Schema.setParams (params request) with
  | None =>
      (errorResponse (rid request) ErrorCodes.INTERNAL (lit "Failed to set value"),
       redis)
  | Some (key, value, ttl) =>
      if negb (Validator.validateKey key (maxKey (limits connection))) then
        (errorResponse (rid request) ErrorCodes.INVALID_KEY
           (lit "Key too long or invalid"), redis)
      else if negb (Validator.validateValue value (maxVal (limits connection))) then
        (errorResponse (rid request) ErrorCodes.INVALID_VALUE
           (lit "Value too large"), redis)
      else
        match fullKeyOf namespaceManager key with
        | None =>
            (errorResponse (rid request) ErrorCodes.RESTRICTED
               (lit "Key outside namespace"), redis)
        | Some fullKey =>
            match KVAdapter.set redis (redis_up env) (t_redis env) fullKey value ttl with
            | (Some _, redis') =>
                (okResponse (rid request) (JObj [ (lit "ok", JBool true) ]), redis')
            | (None, redis') =>
                (errorResponse (rid request) ErrorCodes.INTERNAL
                   (lit "Failed to set value"), redis')
            end
        end
  end.

Definition handleDel : KVResponse * Redis.t :=
  withKey (Schema.keyParams (params request)) "Failed to delete key"
    (fun fullKey =>
       reply (fun deleted => JObj [ (lit "deleted", JNum deleted) ])
             (KVAdapter.del redis (redis_up env) (t_redis env) fullKey)).

Definition handleExists : KVResponse * Redis.t :=
  withKey (Schema.keyParams (params request)) "Failed to check existence"
    (fun fullKey =>
       reply (fun exists_ => JObj [ (lit "exists", JBool exists_) ])
             (KVAdapter.exists_ redis (redis_up env) (t_redis env) fullKey)).

(** The loop over [params.keys]: the first bad key ends it with an error. *)
Fixpoint mgetKeys (keys : list jsstring) : KVResponse + list jsstring :=
  match keys with
  | [] => inr []
  | key :: rest =>
      if negb (Validator.validateKey key (maxKey (limits connection))) then
        inl (errorResponse (rid request) ErrorCodes.INVALID_KEY
               (lit "Key too long: " ++ key))
      else
        match fullKeyOf namespaceManager key with
        | None =>
            inl (errorResponse (rid request) ErrorCodes.RESTRICTED
                   (lit "Key outside namespace: " ++ key))
        | Some fullKey =>
            match mgetKeys rest with
            | inl e => inl e
            | inr fullKeys => inr (fullKey :: fullKeys)
            end
        end
  end.

Definition handleMget : KVResponse * Redis.t :=
  match Schema.mgetParams (params request) with
  | None =>
      (errorResponse (rid request) ErrorCodes.INTERNAL
         (lit "Failed to get multiple values"), redis)
  | Some keys =>
      if negb (Validator.validateMgetCount (Z.of_nat (length keys))
                 (mgetMax (limits connection))) then
        (errorResponse (rid request) ErrorCodes.PAYLOAD_TOO_LARGE
           (lit "Too many keys in mget"), redis)
      else
        match mgetKeys keys with
        | inl e => (e, redis)
        | inr fullKeys =>
            match KVAdapter.mget redis (redis_up env) (t_redis env) fullKeys with
            | (Some values, redis') =>
                (okResponse (rid request)
                   (JObj [ (lit "values", JArr (List.map jsonOfValue values)) ]),
                 redis')
            | (None, redis') =>
                (errorResponse (rid request) ErrorCodes.INTERNAL
                   (lit "Failed to get multiple values"), redis')
            end
        end
  end.

Definition handleExpire : KVResponse * Redis.t :=
  match Schema.expireParams (params request) with
  | None =>
      (errorResponse (rid request) ErrorCodes.INTERNAL
         (lit "Failed to set expiration"), redis)
  | Some (key, ttl) =>
      withKey (Some key) "Failed to set expiration"
        (fun fullKey =>
           reply (fun ok => JObj [ (lit "ok", JBool ok) ])
                 (KVAdapter.expire redis (redis_up env) (t_redis env) fullKey ttl))
  end.

Definition handleTtl : KVResponse * Redis.t :=
  withKey (Schema.keyParams (params request)) "Failed to get TTL"
    (fun fullKey =>
       reply (fun ttl => JObj [ (lit "ttl", JNum ttl) ])
             (KVAdapter.ttl redis (redis_up env) (t_redis env) fullKey)).

End Handlers.

(** [this.hashKey(validatedRequest.params.key || '')]; [None] when
    [Buffer.from] throws (a number, [true], or what the runtime refuses). *)
Definition hashKey (env : Env) (ps : list (jsstring * JSON.t)) : option jsstring :=
  let key := match JSON.lookup ps (lit "key") with
             | Some k => if JSON.truthy k then k else JStr []
             | None => JStr []
             end in
  if negb (JSON.truthy key) then Some []
  else
    match key with
    | JStr k => Some (substring0 (Buffer.to_base64 (Buffer.from_utf8 k)) 8)
    | JArr _ | JObj _ =>
        match bufferFromObject env key with
        | Some b => Some (substring0 (Buffer.to_base64 b) 8)
        | None => None
        end
    | _ => None
    end.

(** [validatedRequest.params.value?.length || 0] *)
Definition valueLength (ps : list (jsstring * JSON.t)) : JSON.t :=
  let l := match JSON.lookup ps (lit "value") with
           | Some (JStr v) => Some (JNum (len v))
           | Some (JArr a) => Some (JNum (Z.of_nat (length a)))
           | Some (JObj o) => JSON.lookup o (lit "length")
           | _ => None
           end in
  match l with
  | Some v => if JSON.truthy v then v else JNum 0
  | None => JNum 0
  end.

(** The [switch] of [handleRequest]. *)
Definition dispatch (this : t) (env : Env) (validatedRequest : KVRequest)
    (connection : ClientConnection) (namespaceManager : NamespaceManager.t)
  : KVResponse * Redis.t :=
  let redis := kvAdapter this in
  let m := method validatedRequest in
  if str_eqb m (lit "get_info") then
    (handleGetInfo validatedRequest connection (nip44Available this), redis)
  else if str_eqb m (lit "get") then
    handleGet env redis validatedRequest connection namespaceManager
  else if str_eqb m (lit "set") then
    handleSet env redis validatedRequest connection namespaceManager
  else if str_eqb m (lit "del") then
    handleDel env redis validatedRequest connection namespaceManager
  else if str_eqb m (lit "exists") then
    handleExists env redis validatedRequest connection namespaceManager
  else if str_eqb m (lit "mget") then
    handleMget env redis validatedRequest connection namespaceManager
  else if str_eqb m (lit "expire") then
    handleExpire env redis validatedRequest connection namespaceManager
  else if str_eqb m (lit "ttl") then
    handleTtl env redis validatedRequest connection namespaceManager
  else
    (errorResponse (rid validatedRequest) ErrorCodes.NOT_IMPLEMENTED
       (lit "Method " ++ m ++ lit " not implemented"), redis).

(** The [catch] branch of [handleRequest]: [request.id] of the raw
    request; reading it from [null] throws again, and nothing is returned. *)
Definition caught (request : JSON.t) : option KVResponse :=
  match request with
  | JNull => None
  | _ => Some (errorResponse (JSON.prop request (lit "id")) ErrorCodes.INTERNAL
                 (lit "Internal server error"))
  end.

(** Lines 138-157: cache the response, account its bytes, audit, return. *)
Definition finish (this : t) (env : Env) (request : JSON.t)
    (validatedRequest : KVRequest) (connection : ClientConnection)
    (response : KVResponse) : option KVResponse * t * ClientConnection :=
  let this := with_cache this
                (IdempotencyCache.set (idempotencyCache this) (t_cache env)
                   (pubkey connection) (id validatedRequest) response) in
  let responseSize := len (JSON.stringify (response_json response)) in
  let connection := BudgetManager.consumeBudget connection (t_consume env)
                      (t_usage env) responseSize in
  let latency := t_end env - t_start env in
  match hashKey env (params validatedRequest) with
  | None => (caught request, this, connection)
  | Some h =>
      let entry :=
        {| AuditLogger.a_method := method validatedRequest;
           AuditLogger.keyHash := h;
           AuditLogger.valueSize := valueLength (params validatedRequest);
           AuditLogger.status :=
             match error response with
             | Some _ => lit "error"
             | None => lit "success"
             end;
           AuditLogger.errorCode :=
             match error response with
             | Some e => Some (code e)
             | None => None
             end;
           AuditLogger.latency := latency;
           AuditLogger.clientPubkey := pubkey connection;
           AuditLogger.a_timestamp := None |} in
      (Some response,
       with_kv this (AuditLogger.log (auditLogger this) (kvAdapter this) env
                       entry),
       connection)
  end.

Definition handleRequest (this : t) (env : Env) (request : JSON.t)
    (connection : ClientConnection)
  : option KVResponse * t * ClientConnection :=
  let '(namespaceManager, this) := getNamespaceManager this connection in
  match Schema.baseRequestSchema request with
  | None => (caught request, this, connection)
  | Some validatedRequest =>
      let '(cached, cache') :=
        IdempotencyCache.get (idempotencyCache this) (t_idem env)
          (pubkey connection) (id validatedRequest) in
      let this := with_cache this cache' in
      match cached with
      | Some r => (Some r, this, connection)
      | None =>
          if negb (existsb (str_eqb (method validatedRequest))
                     (allowedMethods connection)) then
            (Some (errorResponse (rid validatedRequest) ErrorCodes.RESTRICTED
                     (lit "Method " ++ method validatedRequest
                      ++ lit " not allowed")),
             this, connection)
          else
            let '(rateOk, connection) :=
              RateLimiter.checkLimit connection (t_rate env) in
            if negb rateOk then
              (Some (errorResponse (rid validatedRequest) ErrorCodes.RATE_LIMITED
                       (lit "Rate limit exceeded")),
               this, connection)
            else
              let requestSize := len (JSON.stringify request) in
              let '(budgetOk, connection) :=
                BudgetManager.checkBudget connection (t_budget env) requestSize in
              if negb budgetOk then
                (Some (errorResponse (rid validatedRequest) ErrorCodes.RATE_LIMITED
                         (lit "Byte budget exceeded")),
                 this, connection)
              else
                let '(response, redis') :=
                  dispatch this env validatedRequest connection namespaceManager in
                finish (with_kv this redis') env request validatedRequest
                  connection response
      end
  end.

End ProtocolRouter.

(** ** src/server.ts: [NostrKVServer] *)

Module NostrKVServer.

(** The ciphertext of an event is represented by what [DMCrypto.decrypt]
    and [JSON.parse] make of it. *)
Inductive Content :=
| Undecryptable
| NotJson
| Plain (request : JSON.t).

Record Event := {
  ev_pubkey : jsstring;
  created_at : Z;               (* seconds *)
  kind : Z;
  content : Content;
  sig : option jsstring }.

(** An entry of the connection registry file. *)
Record RegistryEntry := {
  reg_namespace : jsstring;
  reg_allowedMethods : list jsstring;
  reg_limits : Limits }.

Record t := {
  config_namespace : jsstring;       (* config.redis.namespace *)
  config_limits : Limits;            (* config.limits *)
  registryFile : gmap jsstring RegistryEntry;
  connections : gmap jsstring ClientConnection;
  router : ProtocolRouter.t }.

Definition loadConnectionFromRegistry (this : t) (pubkey : jsstring)
  : option ClientConnection :=
  match registryFile this !! pubkey with
  | None => None
  | Some registryEntry =>
      Some {| pubkey := pubkey;
              namespace := reg_namespace registryEntry;
              allowedMethods := reg_allowedMethods registryEntry;
              limits := reg_limits registryEntry;
              rateLimitState := None |}
  end.

Definition createDefaultConnection (this : t) (pubkey : jsstring)
  : ClientConnection :=
  {| pubkey := pubkey;
     namespace := config_namespace this;
     allowedMethods := List.map lit
       ["get_info"; "get"; "set"; "del"; "exists"; "mget"; "expire"; "ttl"]%string;
     limits := config_limits this;
     rateLimitState := None |}.

(** Get or create the client connection. *)
Definition connectionOf (this : t) (pubkey : jsstring) : ClientConnection :=
  match connections this !! pubkey with
  | Some connection => connection
  | None =>
      match loadConnectionFromRegistry this pubkey with
      | Some connection => connection
      | None => createDefaultConnection this pubkey
      end
  end.

Definition update (this : t) (pubkey : jsstring) (connection : ClientConnection)
    (router' : ProtocolRouter.t) : t :=
  {| config_namespace := config_namespace this;
     config_limits := config_limits this;
     registryFile := registryFile this;
     connections := <[ pubkey := connection ]> (connections this);
     router := router' |}.

Definition REQUEST_KIND : Z := 23194.

(** [start] (lines 79-84): the subscription asks the relays for request
    events created at or after the second the server started (the [since]
    of the filter, fixed once); the ['#p'] tag is not modelled. *)
Definition since (startedAt : Z) : Z := startedAt / 1000.

Definition matchFilter (startedAt : Z) (event : Event) : bool :=
  (kind event =? REQUEST_KIND) && (since startedAt <=? created_at event).

(** [new Date(created_at * 1000)] holds a time value when the product is
    within 8.64e15 ms of the epoch; on any other date [toISOString]
    throws a RangeError. *)
Definition validDate (created_at : Z) : bool :=
  (-8640000000000000 <=? created_at * 1000)
  && (created_at * 1000 <=? 8640000000000000).

(** Returns the response handed to [sendResponse], if any, and the new
    server state.  The connection object is shared with the router, which
    mutates its rate-limit state in place.  The log line that opens the
    function formats [created_at] as a date before the [try]: when that
    throws, the event is dropped. *)
Definition handleIncomingEvent (this : t) (env : Env) (event : Event)
  : option KVResponse * t :=
  if negb (validDate (created_at event)) then (None, this)
  else
    match sig event with
    | None | Some [] => (None, this)
    | Some _ =>
        match content event with
        | Undecryptable => (None, this)
        | NotJson => (None, this)
        | Plain JNull => (None, this)   (* [request.method] throws in the parse block *)
        | Plain request =>
            let connection := connectionOf this (ev_pubkey event) in
            let '(response, router', connection') :=
              ProtocolRouter.handleRequest (router this) env request connection in
            (response, update this (ev_pubkey event) connection' router')
        end
    end.

(** A run of the server over a sequence of events, each with what it
    observes; the responses sent, in order. *)
Fixpoint run (this : t) (events : list (Env * Event))
  : list (option KVResponse) * t :=
  match events with
  | [] => ([], this)
  | (env, event) :: rest =>
      let '(response, this') := handleIncomingEvent this env event in
      let '(responses, final) := run this' rest in
      (response :: responses, final)
  end.

(** Add or update a client connection with specific permissions. *)
Definition addConnection (this : t) (clientPubkey ns : jsstring)
    (methods : list jsstring) (lim : Limits) : t :=
  {| config_namespace := config_namespace this;
     config_limits := config_limits this;
     registryFile := registryFile this;
     connections :=
       <[ clientPubkey := {| pubkey := clientPubkey; namespace := ns;
                             allowedMethods := methods; limits := lim;
                             rateLimitState := None |} ]> (connections this);
     router := router this |}.

Definition removeConnection (this : t) (clientPubkey : jsstring) : t :=
  {| config_namespace := config_namespace this;
     config_limits := config_limits this;
     registryFile := registryFile this;
     connections := delete clientPubkey (connections this);
     router := router this |}.

End NostrKVServer.

(** ** The specification's vocabulary

    Definitions that follow the words of the specification (sections 4.5
    to 4.8), to be compared with the code above. *)

Module Spec.

Import ProtocolRouter NostrKVServer.

(** *** Section 4.5, step 2: the forbidden patterns, as listed *)

Definition forbiddenSubstrings : list jsstring :=
  [ lit ".."; [0%N]; [13%N]; [10%N]; lit "*"; lit "?"; lit "["; lit "]";
    [92%N]; lit "${"; lit "$(("; lit "eval("; lit "exec(" ].

Definition controlCharacter (c : N) : bool :=
  ((0 <=? c) && (c <=? 8) || (c =? 11) || (c =? 12)
   || (14 <=? c) && (c <=? 31) || (c =? 127))%N.

Definition forbidden (k : jsstring) : bool :=
  existsb (includes k) forbiddenSubstrings
  || existsb controlCharacter k
  || includes k (lit "...")
  || forallb isWhiteSpace k.

(** *** Step 4, as the specification words it: some colon at a position
    greater than 0 whose prefix, colon included, differs from [N] *)

Definition foreignColon (N k : jsstring) : bool :=
  existsb (fun i => bool_decide (k !! i = Some 58%N)
                    && negb (str_eqb (firstn (S i) k) N))
          (seq 1 (length k - 1)).

(** *** Step 4, as the code has it: the first colon of [k] is at a
    position greater than 0 *)

Definition firstColonLate (k : jsstring) : bool :=
  match k with
  | [] => false
  | c :: rest => negb (c =? 58)%N && existsb (N.eqb 58) rest
  end.

(** The five steps, over a test for step 4. *)
Definition guard (step4 : jsstring -> jsstring -> bool) (N k : jsstring)
  : option jsstring :=
  match k with
  | [] => None
  | _ =>
      if forbidden k then None
      else if startsWith k N then Some k
      else if step4 N k then None
      else Some (N ++ k)
  end.

Definition guardAsStated : jsstring -> jsstring -> option jsstring :=
  guard foreignColon.

Definition guardFirstColon : jsstring -> jsstring -> option jsstring :=
  guard (fun _ k => firstColonLate k).

(** *** Sections 4.7 and 4.8: windows *)

(** The timestamps still inside the 60-second window at [now]. *)
Definition recent (now : Z) (l : list Z) : list Z :=
  List.filter (fun ts => bool_decide (now - ts < 60000)) l.

(** The bytes recorded inside the window at [now]. *)
Definition windowBytes (now : Z) (l : list ByteRecord) : Z :=
  fold_right Z.add 0
    (List.map bytes
       (List.filter (fun r => bool_decide (now - timestamp r < 60000)) l)).

(** The response cached for [(clientPubkey, requestId)] and still inside
    the idempotency window at [now]. *)
Definition cachedFor (this : ProtocolRouter.t) (now : Z)
    (clientPubkey requestId : jsstring) : option KVResponse :=
  match IdempotencyCache.cache (idempotencyCache this)
        !! (clientPubkey ++ lit ":" ++ requestId) with
  | Some c =>
      if bool_decide (now - IdempotencyCache.cachedAt c
                      <= IdempotencyCache.windowMs (idempotencyCache this))
      then Some (IdempotencyCache.response c)
      else None
  | None => None
  end.

(** *** Section 4.6: where the pipeline leaves a request *)

Inductive Stage :=
| Malformed        (* step 1: the base schema refuses it *)
| Cached           (* step 2 *)
| NotAllowed       (* step 3 *)
| RateLimited      (* step 4 *)
| OverBudget       (* step 5 *)
| Dispatched.      (* steps 6 to 9: handed to the method handler *)

Definition stageOf (this : ProtocolRouter.t) (env : Env) (request : JSON.t)
    (connection : ClientConnection) : Stage :=
  match Schema.baseRequestSchema request with
  | None => Malformed
  | Some r =>
      match cachedFor this (t_idem env) (pubkey connection) (id r) with
      | Some _ => Cached
      | None =>
          if negb (bool_decide (method r ∈ allowedMethods connection))
          then NotAllowed
          else if bool_decide
                    (mps (limits connection)
                     <= Z.of_nat (length (recent (t_rate env)
                                            (requests (initState connection)))))
          then RateLimited
          else if bool_decide
                    (windowBytes (t_budget env) (byteRecords (initState connection))
                     + len (JSON.stringify request)
                     <= bps (limits connection))
          then Dispatched
          else OverBudget
      end
  end.

(** What a signed event decrypts and parses to, when that is a JSON
    value other than [null]. *)
Definition payloadOf (event : Event) : option JSON.t :=
  match sig event with
  | None | Some [] => None
  | Some _ =>
      match content event with
      | Plain JNull => None
      | Plain request => Some request
      | _ => None
      end
  end.

(** The request an event carries once its envelope has passed: its
    [created_at] can be printed as a date, and it has a payload. *)
Definition requestOf (event : Event) : option JSON.t :=
  if validDate (created_at event) then payloadOf event else None.

(** The stage of each event of a run, [None] for a dropped envelope. *)
Fixpoint stagesOf (this : NostrKVServer.t) (events : list (Env * Event))
  : list (option Stage) :=
  match events with
  | [] => []
  | (env, event) :: rest =>
      match requestOf event with
      | Some request =>
          Some (stageOf (router this) env request
                  (connectionOf this (ev_pubkey event)))
      | None => None
      end :: stagesOf (snd (handleIncomingEvent this env event)) rest
  end.

Definition errorCodeOf (r : option KVResponse) : option jsstring :=
  match r with
  | Some r => match error r with Some e => Some (code e) | None => None end
  | None => None
  end.

(** *** Section 3: keys of a connection's namespace *)

(** The fully-qualified form of key [k] under namespace [N]. *)
Definition qualified (N k : jsstring) : jsstring :=
  if startsWith k N then k else N ++ k.

(** A backend command addresses only keys that begin with [N] and are the
    qualified form of one of [keys]. *)
Definition confined (N : jsstring) (keys : list jsstring) (c : Redis.command)
  : Prop :=
  forall k', In k' (Redis.keysOf c) ->
    startsWith k' N = true /\ exists k, In k keys /\ k' = qualified N k.

(** Every guard the router holds was built from the namespace it is
    filed under (true of a new router, and kept by every request). *)
Definition managersOk (this : ProtocolRouter.t) : Prop :=
  forall ns m, namespaceManagers this !! ns = Some m -> m = NamespaceManager.new ns.

(** What a handler leaves in the command history: nothing, or one
    command confined to the namespace. *)
Definition extends (N : jsstring) (keys : list jsstring) (redis redis' : Redis.t)
  : Prop :=
  exists cmds, Redis.issued redis' = Redis.issued redis ++ cmds
               /\ Forall (confined N keys) cmds.

Definition paramKeys (ps : list (jsstring * JSON.t)) : list jsstring :=
  match Schema.keyParams ps with Some k => [k] | None => [] end
  ++ match Schema.mgetParams ps with Some ks => ks | None => [] end.

(** The key parameters of a request: [params.key] and the members of
    [params.keys]. *)
Definition requestKeys (request : JSON.t) : list jsstring :=
  match Schema.baseRequestSchema request with
  | None => []
  | Some r => paramKeys (params r)
  end.

(** The same event with another creation time. *)
Definition createdAt (t : Z) (event : Event) : Event :=
  {| ev_pubkey := ev_pubkey event; created_at := t; kind := kind event;
     content := content event; sig := sig event |}.

(** Whether the audit stage can hash [params.key]: the key is absent,
    falsy or a string, or an array or object the runtime makes a buffer
    of; a non-zero number or [true] makes [Buffer.from] throw. *)
Definition keyHashable (env : Env) (request : JSON.t) : bool :=
  match Schema.baseRequestSchema request with
  | None => false
  | Some r =>
      match JSON.lookup (params r) (lit "key") with
      | None | Some JNull | Some (JStr _) => true
      | Some (JBool b) => negb b
      | Some (JNum n) => n =? 0
      | Some k => match bufferFromObject env k with Some _ => true | None => false end
      end
  end.


(** A server as its constructor and its own steps leave it: connections
    are filed under their own public key, the router's guards are
    consistent, the idempotency window is 60 s. *)
Definition serverOk (this : NostrKVServer.t) : Prop :=
  managersOk (router this)
  /\ IdempotencyCache.windowMs (idempotencyCache (router this)) = 60000
  /\ forall p c, connections this !! p = Some c -> pubkey c = p.

(** The characters of a namespace that [Validator.validateNamespace]
    accepts: name characters and the colon. *)
Definition cleanChar (c : N) : bool := Validator.isNameChar c || (c =? 58)%N.

(** What the limits of a connection allow in a backend command: a SET
    carries at most [maxVal] bytes, an MGET between one and [mgetMax]
    keys. *)
Definition sized (lim : Limits) (c : Redis.command) : Prop :=
  match c with
  | Redis.SET _ v _ => Z.of_nat (length v) <= maxVal lim
  | Redis.MGET keys => 0 < Z.of_nat (length keys) <= mgetMax lim
  | _ => True
  end.

(** What a method handler adds to the command history: nothing, or one
    string command within the limits. *)
Definition atMostOne (lim : Limits) (redis redis' : Redis.t) : Prop :=
  exists cmds, Redis.history redis' = Redis.history redis ++ cmds
               /\ (length cmds <= 1)%nat
               /\ Forall (fun c => Redis.isData c = true
                                   /\ (0 <= maxVal lim -> sized lim c)) cmds.

(** The backend after the method handler of a dispatched request has
    run, before the audit logger is called. *)
Definition afterHandler (this : ProtocolRouter.t) (env : Env) (request : JSON.t)
    (r : KVRequest) (c : ClientConnection) : Redis.t :=
  snd (dispatch
         (with_cache (snd (getNamespaceManager this c))
            (snd (IdempotencyCache.get (idempotencyCache this) (t_idem env)
                    (pubkey c) (id r))))
         env r
         (snd (BudgetManager.checkBudget
                 (snd (RateLimiter.checkLimit c (t_rate env)))
                 (t_budget env) (len (JSON.stringify request))))
         (fst (getNamespaceManager this c))).

(** What the audit logger adds to the command history for one record:
    the LPUSH of the record, then the LTRIM unless the LPUSH failed. *)
Definition auditOf (a : AuditLogger.t) (record : jsstring)
    (cmds : list Redis.command) : Prop :=
  cmds = [ Redis.LPUSH (AuditLogger.auditKey a) record ]
  \/ cmds = [ Redis.LPUSH (AuditLogger.auditKey a) record;
              Redis.LTRIM (AuditLogger.auditKey a) 0
                (AuditLogger.maxEntries a - 1) ].

(** A response carries a result or an error, not both. *)
Definition oneOf (r : KVResponse) : Prop :=
  match error r with
  | Some _ => result r = JNull
  | None => result r <> JNull
  end.

(** An answer to request [r]: it carries the id of [r], and a result or
    an error. *)
Definition shaped (r : KVRequest) (resp : KVResponse) : Prop :=
  resp_id resp = ProtocolRouter.rid r /\ oneOf resp.

(** What the server holds about a client: its namespace, methods and
    limits. *)
Definition policy (c : ClientConnection) : jsstring * list jsstring * Limits :=
  (namespace c, allowedMethods c, limits c).

(** No connection of the server holds more timestamps in its request
    window than its [mps] allows. *)
Definition windowsBounded (this : NostrKVServer.t) : Prop :=
  forall p c, connections this !! p = Some c ->
    Z.of_nat (length (requests (initState c))) <= Z.max 0 (mps (limits c)).

End Spec.

(** ** Concrete inputs used by the examples below *)

Module Examples.

Import NostrKVServer.

Definition limits0 : Limits :=
  {| mps := 2; bps := 1048576; maxKey := 256; maxVal := 65536; mgetMax := 16 |}.

Definition allMethods : list jsstring :=
  List.map lit
    ["get_info"; "get"; "set"; "del"; "exists"; "mget"; "expire"; "ttl"]%string.

Definition alicePubkey : jsstring :=
  lit "a1b2c3d4e5f60718293a4b5c6d7e8f90a1b2c3d4e5f60718293a4b5c6d7e8f90".

(** A connection with namespace ["appA:"], every method, two requests per
    minute. *)
Definition alice : ClientConnection :=
  {| pubkey := alicePubkey; namespace := lit "appA:";
     allowedMethods := allMethods; limits := limits0;
     rateLimitState := None |}.

(** The router of a server configured with namespace ["appA:"]. *)
Definition router0 : ProtocolRouter.t :=
  ProtocolRouter.new (AuditLogger.new (lit "appA:")).

(** Every clock of a request reads [t]; both connections answer. *)
Definition at_ (t : Z) : Env :=
  {| t_start := t; t_idem := t; t_rate := t; t_budget := t; t_redis := t;
     redis_up := true; t_cache := t; t_consume := t; t_usage := t;
     t_end := t; t_audit := t; t_lpush := t; lpush_up := true;
     t_ltrim := t; ltrim_up := true;
     bufferFromObject := fun _ => None |}.

Definition request (m i : string) (ps : list (jsstring * JSON.t)) : JSON.t :=
  JObj [ (lit "method", JStr (lit m)); (lit "params", JObj ps);
         (lit "id", JStr (lit i)) ].

(** [set {key: "a", value: "dGVzdA=="}], the base-64 of ["test"] *)
Definition setRequest : JSON.t :=
  request "set" "r-1"
    [ (lit "key", JStr (lit "a")); (lit "value", JStr (lit "dGVzdA==")) ].

Definition getRequest (i : string) : JSON.t :=
  request "get" i [ (lit "key", JStr (lit "a")) ].

(** A client the registry allows [get] only. *)
Definition carolPubkey : jsstring :=
  lit "c0ffee00c0ffee00c0ffee00c0ffee00c0ffee00c0ffee00c0ffee00c0ffee00".

Definition server0 : NostrKVServer.t :=
  {| config_namespace := lit "appA:";
     config_limits := limits0;
     registryFile :=
       {[ carolPubkey := {| reg_namespace := lit "carol:";
                            reg_allowedMethods := [lit "get"];
                            reg_limits := limits0 |} ]};
     connections := ∅;
     router := router0 |}.

Definition event (p : jsstring) (created : Z) (request : JSON.t) : Event :=
  {| ev_pubkey := p; created_at := created; kind := 23194;
     content := Plain request; sig := Some (lit "5ig") |}.

(** A connection with small limits: keys of at most 4 units, values of
    at most 2 bytes. *)
Definition dave : ClientConnection :=
  {| pubkey := lit "dave"; namespace := lit "d:";
     allowedMethods := allMethods;
     limits := {| mps := 60; bps := 1048576; maxKey := 4; maxVal := 2;
                  mgetMax := 16 |};
     rateLimitState := None |}.

(** [set] of a 4-byte value under an 8-unit key. *)
Definition longKeySet : KVRequest :=
  {| method := lit "set";
     params := [ (lit "key", JStr (lit "too-long"));
                 (lit "value", JStr (lit "dGVzdA==")) ];
     id := lit "r-2" |}.

(** [set] of a malformed but short value: the decoder keeps ["Zg"]. *)
Definition malformedSet : KVRequest :=
  {| method := lit "set";
     params := [ (lit "key", JStr (lit "k"));
                 (lit "value", JStr (lit "!!Z~g??")) ];
     id := lit "r-3" |}.

(** A connection with a byte budget of 100 per minute. *)
Definition erin : ClientConnection :=
  {| pubkey := lit "erin"; namespace := lit "e:";
     allowedMethods := allMethods;
     limits := {| mps := 60; bps := 100; maxKey := 256; maxVal := 65536;
                  mgetMax := 16 |};
     rateLimitState := None |}.

Definition infoRequest : JSON.t := request "get_info" "1" [].

(** The events of [alice]: a [set], a [get], and twice the same [get]
    with id ["r-3"], 59 seconds apart. *)
Definition aliceSet : Env * Event :=
  (at_ 1000, event alicePubkey 1 setRequest).

Definition aliceGet (t : Z) (i : string) : Env * Event :=
  (at_ t, event alicePubkey (t / 1000) (getRequest i)).

Definition burst : list (Env * Event) :=
  [ aliceSet; aliceGet 2000 "r-2"; aliceGet 3000 "r-3"; aliceGet 62000 "r-3" ].

(** [alice] with a full request window: two requests, at 2 s and 59 s. *)
Definition busy : ClientConnection :=
  set_rateLimitState alice {| requests := [59000; 2000]; byteRecords := [] |}.

End Examples.

(** Closes a goal [errorCodeOf r <> Some RATE_LIMITED] on an explicit
    response. *)
Ltac not_rate_limited :=
  cbn [Spec.errorCodeOf ProtocolRouter.errorResponse ProtocolRouter.okResponse
       ProtocolRouter.handleGetInfo error code fst];
  first [ discriminate
        | let H := fresh in intros [= H]; vm_compute in H; discriminate H ].

(** Linear arithmetic with division and remainder by constants. *)
Ltac div_mod_lia := zify; Z.to_euclidean_division_equations; lia.

(** * Properties *)

(** ** The codecs on known values *)

Example base64_decode_hello :
  Buffer.from_base64 (lit "SGVsbG8=") = lit "Hello".
Proof. reflexivity. Qed.

Example base64_encode_hello :
  Buffer.to_base64 (lit "Hello") = lit "SGVsbG8=".
Proof. reflexivity. Qed.

Example base64_text_reencodes_to_itself :
  Buffer.to_base64 (Buffer.from_base64 (lit "test")) = lit "test".
Proof. reflexivity. Qed.

Example utf8_encode_sample :
  Buffer.from_utf8 [233; 8364; 55357; 56832]%N
  = [195; 169; 226; 130; 172; 240; 159; 152; 128]%N.
Proof. reflexivity. Qed.

Example utf8_decode_sample :
  Buffer.to_utf8_string
    [195; 169; 226; 130; 172; 240; 159; 152; 128; 255; 226; 130; 65]%N
  = [233; 8364; 55357; 56832; 65533; 65533; 65]%N.
Proof. reflexivity. Qed.

Example stringify_sample :
  JSON.stringify
    (JObj [ (lit "method", JStr (lit "get_info")); (lit "params", JObj []);
            (lit "id", JStr (lit "1"));
            (lit "n", JArr [JNum (-42); JNull; JBool true]) ])
  = List.map (fun c => if N.eqb c 39 then 34%N else c)
      (lit "{'method':'get_info','params':{},'id':'1','n':[-42,null,true]}").
Proof. reflexivity. Qed.

(** ** Strings *)

Section StringFacts.

Implicit Types s p k : jsstring.

Lemma startsWith_iff s p : startsWith s p = true <-> exists r, s = p ++ r.
Proof.
  revert s; induction p as [|x p IH]; intros s.
  - split; [intros _; exists s; reflexivity | intros _; destruct s; reflexivity].
  - destruct s as [|y s]; simpl.
    + split; [discriminate | intros [r Hr]; discriminate].
    + rewrite andb_true_iff, N.eqb_eq, IH. split.
      * intros [-> [r ->]]. exists r. reflexivity.
      * intros [r Hr]. injection Hr as -> ->. split; [reflexivity | eauto].
Qed.

Lemma startsWith_nil s : startsWith s [] = true.
Proof. destruct s; reflexivity. Qed.

Lemma startsWith_app p r : startsWith (p ++ r) p = true.
Proof. apply startsWith_iff. eauto. Qed.

Lemma startsWith_firstn s n : startsWith s (firstn n s) = true.
Proof.
  apply startsWith_iff. exists (skipn n s). symmetry. apply firstn_skipn.
Qed.

Lemma includes_nil p : includes [] p = startsWith [] p.
Proof. unfold includes. apply orb_false_r. Qed.

Lemma includes_cons c s p :
  includes (c :: s) p = startsWith (c :: s) p || includes s p.
Proof. reflexivity. Qed.

Lemma includes_iff s p :
  includes s p = true <-> exists a b, s = a ++ p ++ b.
Proof.
  induction s as [|c s IH].
  - rewrite includes_nil, startsWith_iff. split.
    + intros [r Hr]. exists [], r. exact Hr.
    + intros [a [b H]]. destruct a; [|discriminate]. exists b. exact H.
  - rewrite includes_cons, orb_true_iff, startsWith_iff, IH. split.
    + intros [[r Hr] | [a [b H]]].
      * exists [], r. exact Hr.
      * exists (c :: a), b. simpl. congruence.
    + intros [a [b H]]. destruct a as [|c' a]; simpl in H.
      * left. eauto.
      * right. injection H as -> ->. eauto.
Qed.

Lemma includes_prefix s p q : includes s (p ++ q) = true -> includes s p = true.
Proof.
  rewrite !includes_iff. intros [a [b ->]].
  exists a, (q ++ b). rewrite <- app_assoc. reflexivity.
Qed.

Lemma includes_unit s c : includes s [c] = existsb (N.eqb c) s.
Proof.
  induction s as [|x s IH]; [reflexivity|].
  rewrite includes_cons, IH. simpl. rewrite startsWith_nil, andb_true_r.
  reflexivity.
Qed.

Lemma indexOf_range s c : -1 <= indexOf s c.
Proof.
  induction s as [|x s IH]; simpl; [lia|].
  destruct (N.eqb x c); [lia|].
  destruct (Z.ltb_spec (indexOf s c) 0); lia.
Qed.

Lemma indexOf_neg s c : indexOf s c < 0 <-> existsb (N.eqb c) s = false.
Proof.
  induction s as [|x s IH]; simpl; [split; [reflexivity | lia]|].
  rewrite (N.eqb_sym c x). destruct (N.eqb x c); simpl.
  - split; [lia | discriminate].
  - pose proof (indexOf_range s c).
    destruct (Z.ltb_spec (indexOf s c) 0); rewrite <- IH; lia.
Qed.

Lemma str_eqb_eq s p : str_eqb s p = true <-> s = p.
Proof. unfold str_eqb. apply bool_decide_eq_true. Qed.

End StringFacts.

(** ** The namespace guard *)

Section NamespaceGuard.

Import NamespaceManager.

Lemma isControl_controlCharacter k :
  existsb isControl k = existsb Spec.controlCharacter k.
Proof.
  induction k as [|c k IH]; [reflexivity|]. simpl. rewrite IH. f_equal.
  unfold isControl, Spec.controlCharacter. destruct c; reflexivity.
Qed.

(** The code's two pattern lists reject exactly the strings that the
    list of section 4.5 rejects: its extra entries all contain [".."]. *)
Lemma hasEscapeAttempt_forbidden k : hasEscapeAttempt k = Spec.forbidden k.
Proof.
  unfold hasEscapeAttempt, Spec.forbidden, escapePatterns, suspiciousPatterns,
    Spec.forbiddenSubstrings.
  cbn [existsb]. rewrite isControl_controlCharacter.
  pose proof (includes_prefix k (lit "..") (lit "/")) as H1.
  pose proof (includes_prefix k (lit "..") [92%N]) as H2.
  change (lit ".." ++ lit "/") with (lit "../") in H1.
  change (lit ".." ++ [92%N]) with [46; 46; 92]%N in H2.
  destruct (includes k (lit "..")); [reflexivity|].
  destruct (includes k (lit "../")); [discriminate (H1 eq_refl)|].
  destruct (includes k [46; 46; 92]%N); [discriminate (H2 eq_refl)|].
  destruct (includes k [10%N]), (includes k [13%N]),
    (includes k (lit "${")), (includes k (lit "$((")),
    (forallb isWhiteSpace k), (includes k (lit "..."));
    rewrite ?orb_true_r, ?orb_false_r, ?orb_true_l, ?orb_false_l; reflexivity.
Qed.

Lemma indexOf_late k :
  (0 <? indexOf k 58%N) = Spec.firstColonLate k.
Proof.
  destruct k as [|c k]; [reflexivity|]. simpl.
  destruct (N.eqb_spec c 58%N) as [->|Hc]; [reflexivity|]. simpl.
  pose proof (indexOf_range k 58%N).
  destruct (Z.ltb_spec (indexOf k 58%N) 0) as [Hlt|Hge].
  - apply indexOf_neg in Hlt. rewrite Hlt. reflexivity.
  - destruct (existsb (N.eqb 58) k) eqn:E.
    + apply Z.ltb_lt. lia.
    + apply indexOf_neg in E. lia.
Qed.

(** Once [k] does not start with [N], no prefix of [k] equals [N]: the
    comparison in [hasWrongNamespace] can only come out different. *)
Lemma hasWrongNamespace_late N k :
  startsWith k N = false ->
  hasWrongNamespace {| namespace := N |} k = Spec.firstColonLate k.
Proof.
  intros Hs. unfold hasWrongNamespace. cbn [namespace]. rewrite indexOf_late.
  destruct (Spec.firstColonLate k); [|reflexivity].
  destruct (str_eqb _ N) eqn:E; [|reflexivity].
  apply str_eqb_eq in E. unfold substring0 in E.
  rewrite <- E, startsWith_firstn in Hs. discriminate.
Qed.

End NamespaceGuard.

(** C2 (amended): the guard is the five-step algorithm of section 4.5
    with step 4 read as "the first colon of [k] is at a position greater
    than 0": empty and forbidden keys are rejected, a key that starts with
    [N] is returned unchanged, a key whose first colon is late is
    rejected, and any other key is returned prefixed with [N]. *)
Theorem ensureNamespace_five_steps (N k : jsstring) :
  NamespaceManager.ensureNamespace {| NamespaceManager.namespace := N |} k
  = Spec.guardFirstColon N k.
Proof.
  unfold NamespaceManager.ensureNamespace, Spec.guardFirstColon, Spec.guard.
  cbn [NamespaceManager.namespace].
  destruct k as [|c k]; [reflexivity|]. cbn [falsy].
  rewrite hasEscapeAttempt_forbidden.
  destruct (Spec.forbidden (c :: k)); [reflexivity|].
  destruct (startsWith (c :: k) N) eqn:Hs; [reflexivity|].
  rewrite (hasWrongNamespace_late N (c :: k) Hs). reflexivity.
Qed.

(** C2, as stated, fails: the key [":x:y"] has a colon at position 2
    whose prefix [":x:"] differs from ["appA:"], so the stated step 4
    rejects it, while the code looks at the first colon only (position 0)
    and returns the key prefixed. *)
Lemma ensureNamespace_not_as_stated :
  Spec.foreignColon (lit "appA:") (lit ":x:y") = true
  /\ Spec.guardAsStated (lit "appA:") (lit ":x:y") = None
  /\ NamespaceManager.ensureNamespace (NamespaceManager.new (lit "appA:")) (lit ":x:y")
     = Some (lit "appA::x:y")
  /\ NamespaceManager.ensureNamespace (NamespaceManager.new (lit "appA:")) (lit ":x:y")
     <> Spec.guardAsStated (lit "appA:") (lit ":x:y").
Proof. repeat split; vm_compute; (reflexivity || discriminate). Qed.

(** ** Keys that reach the backend *)

Section BackendKeys.

Import ProtocolRouter.

Lemma fullKeyOf_qualified m key fullKey :
  fullKeyOf m key = Some fullKey ->
  startsWith fullKey (NamespaceManager.namespace m) = true
  /\ fullKey = Spec.qualified (NamespaceManager.namespace m) key.
Proof.
  unfold fullKeyOf, NamespaceManager.ensureNamespace, Spec.qualified.
  intros H. repeat case_match; simplify_eq; split; auto using startsWith_app.
Qed.

Lemma new_namespace ns :
  endsWith ns (lit ":") = true ->
  NamespaceManager.namespace (NamespaceManager.new ns) = ns.
Proof. intros H. unfold NamespaceManager.new. simpl. rewrite H. reflexivity. Qed.

Lemma getNamespaceManager_ok this connection :
  Spec.managersOk this ->
  fst (getNamespaceManager this connection)
  = NamespaceManager.new (namespace connection)
  /\ Spec.managersOk (snd (getNamespaceManager this connection))
  /\ kvAdapter (snd (getNamespaceManager this connection)) = kvAdapter this.
Proof.
  intros Hok. unfold getNamespaceManager.
  destruct (namespaceManagers this !! namespace connection) as [m|] eqn:E; simpl.
  - auto.
  - repeat split; auto. intros ns m. unfold with_managers; simpl.
    destruct (decide (namespace connection = ns)) as [->|Hne].
    + rewrite lookup_insert_eq. congruence.
    + rewrite lookup_insert_ne by assumption. apply Hok.
Qed.

Lemma extends_refl N keys redis : Spec.extends N keys redis redis.
Proof. exists []. rewrite app_nil_r. auto. Qed.

Lemma extends_one N keys redis redis' c :
  Redis.issued redis' = Redis.issued redis ++ [c] ->
  Spec.confined N keys c -> Spec.extends N keys redis redis'.
Proof. intros H Hc. exists [c]. auto. Qed.

Lemma issued_app redis redis' cmds :
  Redis.history redis' = Redis.history redis ++ cmds ->
  Redis.issued redis' = Redis.issued redis ++ List.filter Redis.isData cmds.
Proof. unfold Redis.issued. intros ->. apply List.filter_app. Qed.

Lemma history_get redis up now key :
  Redis.history (snd (KVAdapter.get redis up now key))
  = Redis.history redis ++ [Redis.GET key].
Proof. unfold KVAdapter.get. repeat case_match; reflexivity. Qed.

Lemma history_set redis up now key value ttl :
  exists ex, Redis.history (snd (KVAdapter.set redis up now key value ttl))
             = Redis.history redis
               ++ [Redis.SET key (Buffer.from_base64 value) ex].
Proof. unfold KVAdapter.set. eexists. case_match; reflexivity. Qed.

Lemma history_del redis up now key :
  Redis.history (snd (KVAdapter.del redis up now key))
  = Redis.history redis ++ [Redis.DEL key].
Proof.
  unfold KVAdapter.del, Redis.del. repeat case_match; simplify_eq; reflexivity.
Qed.

Lemma history_exists redis up now key :
  Redis.history (snd (KVAdapter.exists_ redis up now key))
  = Redis.history redis ++ [Redis.EXISTS key].
Proof. unfold KVAdapter.exists_. case_match; reflexivity. Qed.

Lemma history_mget redis up now keys :
  Redis.history (snd (KVAdapter.mget redis up now keys))
  = Redis.history redis ++ [Redis.MGET keys].
Proof. unfold KVAdapter.mget. case_match; reflexivity. Qed.

Lemma history_expire redis up now key ttl :
  Redis.history (snd (KVAdapter.expire redis up now key ttl))
  = Redis.history redis ++ [Redis.EXPIRE key ttl].
Proof.
  unfold KVAdapter.expire, Redis.expire.
  repeat case_match; simplify_eq; reflexivity.
Qed.

Lemma history_ttl redis up now key :
  Redis.history (snd (KVAdapter.ttl redis up now key))
  = Redis.history redis ++ [Redis.TTL key].
Proof. unfold KVAdapter.ttl. case_match; reflexivity. Qed.

Lemma issued_get redis up now key :
  Redis.issued (snd (KVAdapter.get redis up now key))
  = Redis.issued redis ++ [Redis.GET key].
Proof. rewrite (issued_app _ _ _ (history_get _ _ _ _)). reflexivity. Qed.

Lemma issued_set redis up now key value ttl :
  exists v ex, Redis.issued (snd (KVAdapter.set redis up now key value ttl))
               = Redis.issued redis ++ [Redis.SET key v ex].
Proof.
  destruct (history_set redis up now key value ttl) as [ex H].
  do 2 eexists. rewrite (issued_app _ _ _ H). reflexivity.
Qed.

Lemma issued_del redis up now key :
  Redis.issued (snd (KVAdapter.del redis up now key))
  = Redis.issued redis ++ [Redis.DEL key].
Proof. rewrite (issued_app _ _ _ (history_del _ _ _ _)). reflexivity. Qed.

Lemma issued_exists redis up now key :
  Redis.issued (snd (KVAdapter.exists_ redis up now key))
  = Redis.issued redis ++ [Redis.EXISTS key].
Proof. rewrite (issued_app _ _ _ (history_exists _ _ _ _)). reflexivity. Qed.

Lemma issued_mget redis up now keys :
  Redis.issued (snd (KVAdapter.mget redis up now keys))
  = Redis.issued redis ++ [Redis.MGET keys].
Proof. rewrite (issued_app _ _ _ (history_mget _ _ _ _)). reflexivity. Qed.

Lemma issued_expire redis up now key ttl :
  Redis.issued (snd (KVAdapter.expire redis up now key ttl))
  = Redis.issued redis ++ [Redis.EXPIRE key ttl].
Proof. rewrite (issued_app _ _ _ (history_expire _ _ _ _ _)). reflexivity. Qed.

Lemma issued_ttl redis up now key :
  Redis.issued (snd (KVAdapter.ttl redis up now key))
  = Redis.issued redis ++ [Redis.TTL key].
Proof. rewrite (issued_app _ _ _ (history_ttl _ _ _ _)). reflexivity. Qed.

(** What [AuditLogger.log] adds to the history: the LPUSH of the record,
    then the LTRIM unless the LPUSH failed; no string command. *)
Lemma history_log a redis env entry :
  exists cmds,
    Redis.history (AuditLogger.log a redis env entry)
    = Redis.history redis ++ cmds
    /\ Spec.auditOf a
         (JSON.stringify (AuditLogger.auditRecord entry (t_audit env))) cmds.
Proof.
  unfold AuditLogger.log, Spec.auditOf, Redis.lpush, Redis.ltrim.
  cbn zeta.
  repeat case_match; simplify_eq;
    cbn [snd Redis.history Redis.issue Redis.store];
    rewrite <- ?app_assoc; cbn [app]; eexists; split;
      first [reflexivity | left; reflexivity | right; reflexivity].
Qed.

Lemma issued_log a redis env entry :
  Redis.issued (AuditLogger.log a redis env entry) = Redis.issued redis.
Proof.
  destruct (history_log a redis env entry) as [cmds [H Ha]].
  rewrite (issued_app _ _ _ H).
  destruct Ha as [->| ->]; cbn; apply app_nil_r.
Qed.

Lemma confined_single N keys c key fullKey :
  Redis.keysOf c = [fullKey] -> In key keys ->
  startsWith fullKey N = true -> fullKey = Spec.qualified N key ->
  Spec.confined N keys c.
Proof.
  intros Hc Hin Hs Hq k' Hk'. rewrite Hc in Hk'.
  destruct Hk' as [<-|[]]. eauto.
Qed.

Lemma withKey_extends redis request connection m key fail call keys :
  (forall k, key = Some k -> In k keys) ->
  (forall fullKey, exists c,
      Redis.issued (snd (call fullKey)) = Redis.issued redis ++ [c]
      /\ Redis.keysOf c = [fullKey]) ->
  Spec.extends (NamespaceManager.namespace m) keys redis
    (snd (withKey redis request connection m key fail call)).
Proof.
  intros Hkey Hcall. unfold withKey.
  destruct key as [k|]; [|apply extends_refl].
  destruct (negb _); [apply extends_refl|].
  destruct (fullKeyOf m k) as [fullKey|] eqn:Hf; [|apply extends_refl].
  destruct (Hcall fullKey) as [c [Hi Hk]].
  apply fullKeyOf_qualified in Hf as [Hs Hq].
  assert (Spec.extends (NamespaceManager.namespace m) keys redis (snd (call fullKey))).
  { eapply extends_one; [exact Hi|].
    eapply confined_single; eauto. }
  destruct (call fullKey) as [[r|] redis']; exact H.
Qed.

Lemma mgetKeys_qualified request connection m keys fullKeys :
  mgetKeys request connection m keys = inr fullKeys ->
  Forall2 (fun k fullKey => fullKeyOf m k = Some fullKey) keys fullKeys.
Proof.
  revert fullKeys. induction keys as [|k keys IH]; intros fullKeys; simpl.
  - intros [= <-]. constructor.
  - intros H. repeat case_match; simplify_eq. constructor; auto.
Qed.

Lemma Forall2_in_r {A B} (P : A -> B -> Prop) l l' y :
  Forall2 P l l' -> In y l' -> exists x, In x l /\ P x y.
Proof.
  induction 1 as [|x y' l l' Hp Hf IH]; [intros []|].
  intros [<-|Hin].
  - exists x. split; [left; reflexivity | exact Hp].
  - destruct (IH Hin) as [x' [Hx Hpx]]. exists x'. split; [right|]; assumption.
Qed.

Lemma keyParams_in ps k : Schema.keyParams ps = Some k -> In k (Spec.paramKeys ps).
Proof. intros H. unfold Spec.paramKeys. rewrite H. left. reflexivity. Qed.

Lemma mgetParams_in ps ks k :
  Schema.mgetParams ps = Some ks -> In k ks -> In k (Spec.paramKeys ps).
Proof.
  intros H Hin. unfold Spec.paramKeys. rewrite H. apply in_or_app. auto.
Qed.

(** Each method handler issues at most one command, on qualified keys of
    the request only. *)
Lemma dispatch_extends this env r connection m :
  Spec.extends (NamespaceManager.namespace m) (Spec.paramKeys (params r))
    (kvAdapter this) (snd (dispatch this env r connection m)).
Proof.
  unfold dispatch.
  repeat (case_match; [try apply extends_refl|]); try apply extends_refl.
  - unfold handleGet. apply withKey_extends; [apply keyParams_in|].
    intros fk. eexists. unfold reply. cbn [snd]. rewrite issued_get. eauto.
  - unfold handleSet.
    destruct (Schema.setParams (params r)) as [[[key value] ttl]|] eqn:Hp;
      [|apply extends_refl].
    destruct (negb _); [apply extends_refl|].
    destruct (negb _); [apply extends_refl|].
    destruct (fullKeyOf m key) as [fullKey|] eqn:Hf; [|apply extends_refl].
    destruct (issued_set (kvAdapter this) (redis_up env) (t_redis env) fullKey
                value ttl) as [v [ex Hi]].
    apply fullKeyOf_qualified in Hf as [Hs Hq].
    assert (Spec.extends (NamespaceManager.namespace m)
              (Spec.paramKeys (params r)) (kvAdapter this)
              (snd (KVAdapter.set (kvAdapter this) (redis_up env) (t_redis env)
                      fullKey value ttl))) as Hext.
    { eapply extends_one; [exact Hi|].
      apply (confined_single _ _ _ key fullKey); [reflexivity | | exact Hs | exact Hq].
      apply keyParams_in. unfold Schema.setParams in Hp.
      unfold Schema.keyParams. repeat case_match; simplify_eq. reflexivity. }
    destruct (KVAdapter.set _ _ _ _ _ _) as [[u|] redis']; exact Hext.
  - unfold handleDel. apply withKey_extends; [apply keyParams_in|].
    intros fk. eexists. unfold reply. cbn [snd]. rewrite issued_del. eauto.
  - unfold handleExists. apply withKey_extends; [apply keyParams_in|].
    intros fk. eexists. unfold reply. cbn [snd]. rewrite issued_exists. eauto.
  - unfold handleMget.
    destruct (Schema.mgetParams (params r)) as [keys|] eqn:Hp;
      [|apply extends_refl].
    destruct (negb _); [apply extends_refl|].
    destruct (mgetKeys r connection m keys) as [e|fullKeys] eqn:Hm;
      [apply extends_refl|].
    apply mgetKeys_qualified in Hm.
    assert (Spec.extends (NamespaceManager.namespace m)
              (Spec.paramKeys (params r)) (kvAdapter this)
              (snd (KVAdapter.mget (kvAdapter this) (redis_up env) (t_redis env)
                      fullKeys))) as Hext.
    { eapply extends_one; [apply issued_mget|].
      intros k' Hk'. cbn [Redis.keysOf] in Hk'.
      destruct (Forall2_in_r _ _ _ _ Hm Hk') as [k [Hin Hf]].
      apply fullKeyOf_qualified in Hf as [Hs Hq]. split; [exact Hs|].
      exists k. split; [|exact Hq]. eapply mgetParams_in; eauto. }
    destruct (KVAdapter.mget _ _ _ _) as [[u|] redis']; exact Hext.
  - unfold handleExpire.
    destruct (Schema.expireParams (params r)) as [[key ttl]|] eqn:Hp;
      [|apply extends_refl].
    apply withKey_extends.
    + intros k [= <-]. apply keyParams_in. unfold Schema.expireParams in Hp.
      unfold Schema.keyParams. repeat case_match; simplify_eq. reflexivity.
    + intros fk. eexists. unfold reply. cbn [snd]. rewrite issued_expire. eauto.
  - unfold handleTtl. apply withKey_extends; [apply keyParams_in|].
    intros fk. eexists. unfold reply. cbn [snd]. rewrite issued_ttl. eauto.
Qed.

(** After the handler only the audit logger writes to the backend. *)
Lemma finish_kv this env request r connection response :
  kvAdapter (finish this env request r connection response).1.2 = kvAdapter this
  \/ exists entry,
       kvAdapter (finish this env request r connection response).1.2
       = AuditLogger.log (auditLogger this) (kvAdapter this) env entry.
Proof. unfold finish. case_match; [right; eexists|left]; reflexivity. Qed.

Lemma finish_issued this env request r connection response :
  Redis.issued (kvAdapter (finish this env request r connection response).1.2)
  = Redis.issued (kvAdapter this).
Proof.
  destruct (finish_kv this env request r connection response) as [->|[entry ->]];
    [reflexivity | apply issued_log].
Qed.

Lemma finish_managers this env request r connection response :
  namespaceManagers (finish this env request r connection response).1.2
  = namespaceManagers this.
Proof. unfold finish. case_match; reflexivity. Qed.

Lemma handleRequest_managers this env request connection :
  namespaceManagers (handleRequest this env request connection).1.2
  = namespaceManagers (snd (getNamespaceManager this connection)).
Proof.
  unfold handleRequest.
  destruct (getNamespaceManager this connection) as [m this1]. cbn [snd].
  repeat case_match; simplify_eq; try reflexivity.
  rewrite finish_managers. reflexivity.
Qed.

(** The invariant on the router's guards holds initially and is kept. *)
Lemma managersOk_new a : Spec.managersOk (ProtocolRouter.new a).
Proof. intros ns m H. discriminate. Qed.

Lemma managersOk_handleRequest this env request connection :
  Spec.managersOk this ->
  Spec.managersOk (handleRequest this env request connection).1.2.
Proof.
  intros Hok ns m. rewrite handleRequest_managers.
  apply (getNamespaceManager_ok this connection Hok).
Qed.

End BackendKeys.

(** C1: whatever a request makes the router send to the backend store
    through the adapter (GET, SET, DEL, EXISTS, MGET, EXPIRE, TTL: the
    commands [Redis.issued] keeps of the history) is one command whose
    keys all begin with the connection's namespace; each is a key
    parameter of the request, unchanged when it already carries the
    prefix and prefixed with the namespace otherwise. *)
Theorem backend_keys_in_namespace
    (this : ProtocolRouter.t) (env : Env) (request : JSON.t)
    (connection : ClientConnection) :
  Spec.managersOk this ->
  endsWith (namespace connection) (lit ":") = true ->
  exists cmds,
    Redis.issued (ProtocolRouter.kvAdapter
                    (ProtocolRouter.handleRequest this env request connection).1.2)
    = Redis.issued (ProtocolRouter.kvAdapter this) ++ cmds
    /\ Forall (fun c => forall k', In k' (Redis.keysOf c) ->
                 startsWith k' (namespace connection) = true
                 /\ exists k, In k (Spec.requestKeys request)
                              /\ k' = if startsWith k (namespace connection)
                                      then k else namespace connection ++ k)
              cmds.
Proof.
  intros Hok Hns.
  destruct (getNamespaceManager_ok this connection Hok) as [Hm [_ Hkv]].
  change (Spec.extends (namespace connection) (Spec.requestKeys request)
            (ProtocolRouter.kvAdapter this)
            (ProtocolRouter.kvAdapter
               (ProtocolRouter.handleRequest this env request connection).1.2)).
  unfold ProtocolRouter.handleRequest, Spec.requestKeys.
  destruct (ProtocolRouter.getNamespaceManager this connection) as [m this1].
  cbn [fst snd] in Hm, Hkv. subst m. rewrite <- Hkv.
  destruct (Schema.baseRequestSchema request) as [r|]; [|apply extends_refl].
  destruct (IdempotencyCache.get _ _ _ _) as [[cached|] cache'];
    [apply extends_refl|].
  destruct (negb _); [apply extends_refl|].
  destruct (RateLimiter.checkLimit _ _) as [[|] c1]; [|apply extends_refl].
  destruct (BudgetManager.checkBudget _ _ _) as [[|] c2]; [|apply extends_refl].
  cbn [negb].
  pose proof (dispatch_extends (ProtocolRouter.with_cache this1 cache') env r c2
                (NamespaceManager.new (namespace connection))) as Hd.
  rewrite (new_namespace _ Hns) in Hd.
  destruct (ProtocolRouter.dispatch _ _ _ _ _) as [response redis'].
  destruct Hd as [cmds [Hi Hc]]. exists cmds. rewrite finish_issued.
  split; assumption.
Qed.

Lemma backend_keys_in_namespace_witness :
  exists cmds,
    Redis.issued (ProtocolRouter.kvAdapter
                    (ProtocolRouter.handleRequest Examples.router0 (Examples.at_ 1000)
                       Examples.setRequest Examples.alice).1.2)
    = Redis.issued (ProtocolRouter.kvAdapter Examples.router0) ++ cmds
    /\ Forall (fun c => forall k', In k' (Redis.keysOf c) ->
                 startsWith k' (namespace Examples.alice) = true
                 /\ exists k, In k (Spec.requestKeys Examples.setRequest)
                              /\ k' = if startsWith k (namespace Examples.alice)
                                      then k else namespace Examples.alice ++ k)
              cmds.
Proof.
  apply (backend_keys_in_namespace Examples.router0 (Examples.at_ 1000)
           Examples.setRequest Examples.alice).
  - exact (managersOk_new _).
  - reflexivity.
Defined.

(** ** The gate checks, in the specification's terms *)

Section Gates.

Import ProtocolRouter.

Lemma allowed_iff m (l : list jsstring) :
  existsb (str_eqb m) l = bool_decide (m ∈ l).
Proof.
  induction l as [|x l IH]; cbn [existsb].
  - symmetry. apply bool_decide_eq_false_2. apply not_elem_of_nil.
  - rewrite IH. unfold str_eqb.
    destruct (decide (m = x)) as [->|Hne].
    + rewrite bool_decide_eq_true_2 by reflexivity. simpl. symmetry.
      apply bool_decide_eq_true. left.
    + rewrite (bool_decide_eq_false_2 _ Hne). simpl.
      apply bool_decide_ext. rewrite elem_of_cons. tauto.
Qed.

Lemma cache_get_cachedFor this now p i :
  fst (IdempotencyCache.get (idempotencyCache this) now p i)
  = Spec.cachedFor this now p i.
Proof.
  unfold IdempotencyCache.get, Spec.cachedFor, IdempotencyCache.getCacheKey.
  destruct (IdempotencyCache.cache _ !! _) as [c|]; [|reflexivity].
  destruct (Z.ltb_spec (IdempotencyCache.windowMs (idempotencyCache this))
              (now - IdempotencyCache.cachedAt c)).
  - rewrite bool_decide_eq_false_2 by lia. reflexivity.
  - rewrite bool_decide_eq_true_2 by lia. reflexivity.
Qed.

Lemma filter_recent now l :
  List.filter (fun timestamp => now - timestamp <? RateLimiter.windowMs) l
  = Spec.recent now l.
Proof.
  unfold Spec.recent. apply List.filter_ext. intros ts.
  unfold RateLimiter.windowMs.
  destruct (Z.ltb_spec (now - ts) 60000).
  - rewrite bool_decide_eq_true_2 by lia. reflexivity.
  - rewrite bool_decide_eq_false_2 by lia. reflexivity.
Qed.

(** [checkLimit] purges the window, then admits and stamps the request
    iff fewer than [mps] timestamps remain. *)
Lemma checkLimit_spec c now :
  let kept := Spec.recent now (requests (initState c)) in
  let ok := negb (bool_decide (mps (limits c) <= Z.of_nat (length kept))) in
  RateLimiter.checkLimit c now
  = (ok, set_rateLimitState c
           {| requests := if ok then kept ++ [now] else kept;
              byteRecords := byteRecords (initState c) |}).
Proof.
  unfold RateLimiter.checkLimit. rewrite filter_recent. cbn zeta.
  destruct (Z.leb_spec (mps (limits c))
              (Z.of_nat (length (Spec.recent now (requests (initState c)))))).
  - rewrite bool_decide_eq_true_2 by lia. reflexivity.
  - rewrite bool_decide_eq_false_2 by lia. reflexivity.
Qed.

Lemma usage_sum l acc :
  fold_left (fun sum record => sum + bytes record) l acc
  = acc + fold_right Z.add 0 (List.map bytes l).
Proof.
  revert acc. induction l as [|r l IH]; intros acc; simpl; [lia|].
  rewrite IH. lia.
Qed.

Lemma usage_windowBytes now l :
  BudgetManager.usage (List.filter (BudgetManager.inWindow now) l)
  = Spec.windowBytes now l.
Proof.
  unfold BudgetManager.usage, Spec.windowBytes. rewrite usage_sum.
  rewrite Z.add_0_l. do 2 f_equal. apply List.filter_ext. intros r.
  unfold BudgetManager.inWindow, BudgetManager.windowMs.
  destruct (Z.ltb_spec (now - timestamp r) 60000).
  - rewrite bool_decide_eq_true_2 by lia. reflexivity.
  - rewrite bool_decide_eq_false_2 by lia. reflexivity.
Qed.

(** [checkBudget] purges the byte window and admits a request of [n]
    bytes iff the bytes recorded in the window plus [n] are at most [bps];
    it records nothing. *)
Lemma checkBudget_spec c now n :
  BudgetManager.checkBudget c now n
  = (bool_decide (Spec.windowBytes now (byteRecords (initState c)) + n
                  <= bps (limits c)),
     set_rateLimitState c
       {| requests := requests (initState c);
          byteRecords := List.filter (BudgetManager.inWindow now)
                           (byteRecords (initState c)) |}).
Proof.
  unfold BudgetManager.checkBudget. cbn zeta. rewrite usage_windowBytes.
  destruct (Z.ltb_spec (bps (limits c))
              (Spec.windowBytes now (byteRecords (initState c)) + n)).
  - rewrite bool_decide_eq_false_2 by lia. reflexivity.
  - rewrite bool_decide_eq_true_2 by lia. reflexivity.
Qed.

(** [consumeBudget] appends one record and purges the byte window; the
    request window is not touched. *)
Lemma consumeBudget_spec c now now' n :
  BudgetManager.consumeBudget c now now' n
  = set_rateLimitState c
      {| requests := requests (initState c);
         byteRecords :=
           List.filter (BudgetManager.inWindow now')
             (byteRecords (initState c) ++ [ {| timestamp := now; bytes := n |} ]) |}.
Proof. reflexivity. Qed.

End Gates.

(** ** The pipeline, stage by stage *)

Section Pipeline.

Import ProtocolRouter.

Lemma getNamespaceManager_cache this c :
  idempotencyCache (snd (getNamespaceManager this c)) = idempotencyCache this
  /\ auditLogger (snd (getNamespaceManager this c)) = auditLogger this
  /\ kvAdapter (snd (getNamespaceManager this c)) = kvAdapter this.
Proof. unfold getNamespaceManager. case_match; auto. Qed.

Lemma with_cache_same this : with_cache this (idempotencyCache this) = this.
Proof. destruct this; reflexivity. Qed.

(** What [handleRequest] returns, by the stage at which the pipeline of
    section 4.6 leaves the request. *)
Lemma handleRequest_by_stage this env request c :
  let m := fst (getNamespaceManager this c) in
  let this1 := snd (getNamespaceManager this c) in
  match Schema.baseRequestSchema request with
  | None =>
      Spec.stageOf this env request c = Spec.Malformed
      /\ handleRequest this env request c = (caught request, this1, c)
  | Some r =>
      let this2 :=
        with_cache this1
          (snd (IdempotencyCache.get (idempotencyCache this) (t_idem env)
                  (pubkey c) (id r))) in
      let c1 := snd (RateLimiter.checkLimit c (t_rate env)) in
      let c2 := snd (BudgetManager.checkBudget c1 (t_budget env)
                       (len (JSON.stringify request))) in
      match Spec.stageOf this env request c with
      | Spec.Malformed => False
      | Spec.Cached =>
          exists resp,
            Spec.cachedFor this (t_idem env) (pubkey c) (id r) = Some resp
            /\ handleRequest this env request c = (Some resp, this1, c)
      | Spec.NotAllowed =>
          handleRequest this env request c
          = (Some (errorResponse (rid r) ErrorCodes.RESTRICTED
                     (lit "Method " ++ method r ++ lit " not allowed")),
             this2, c)
      | Spec.RateLimited =>
          handleRequest this env request c
          = (Some (errorResponse (rid r) ErrorCodes.RATE_LIMITED
                     (lit "Rate limit exceeded")), this2, c1)
      | Spec.OverBudget =>
          handleRequest this env request c
          = (Some (errorResponse (rid r) ErrorCodes.RATE_LIMITED
                     (lit "Byte budget exceeded")), this2, c2)
      | Spec.Dispatched =>
          handleRequest this env request c
          = finish (with_kv this2 (snd (dispatch this2 env r c2 m))) env request
              r c2 (fst (dispatch this2 env r c2 m))
      end
  end.
Proof.
  unfold handleRequest, Spec.stageOf.
  destruct (getNamespaceManager_cache this c) as [Hc _].
  destruct (getNamespaceManager this c) as [m this1]. cbn [fst snd] in *.
  destruct (Schema.baseRequestSchema request) as [r|]; [|auto].
  rewrite <- cache_get_cachedFor, Hc.
  destruct (IdempotencyCache.get (idempotencyCache this) (t_idem env)
              (pubkey c) (id r)) as [[resp|] cache'] eqn:Hget; cbn [fst snd].
  { exists resp. split; [reflexivity|].
    unfold IdempotencyCache.get in Hget. repeat case_match; simplify_eq.
    rewrite <- Hc, with_cache_same. reflexivity. }
  rewrite allowed_iff.
  destruct (bool_decide (method r ∈ allowedMethods c)); cbn [negb];
    [|reflexivity].
  pose proof (checkLimit_spec c (t_rate env)) as HL. cbn zeta in HL.
  destruct (RateLimiter.checkLimit c (t_rate env)) as [ok c1].
  injection HL as -> ->.
  destruct (bool_decide (mps (limits c) <= _)); cbn [negb fst snd];
    [reflexivity|].
  match goal with
  | |- context [BudgetManager.checkBudget ?c1 ?now ?n] =>
      pose proof (checkBudget_spec c1 now n) as HB;
      destruct (BudgetManager.checkBudget c1 now n) as [ok c2]
  end.
  injection HB as -> ->.
  cbn [initState set_rateLimitState rateLimitState byteRecords limits requests].
  destruct (bool_decide (_ <= bps (limits c))); cbn [negb fst snd];
    [|reflexivity].
  destruct (dispatch _ _ _ _ _) as [response redis']. reflexivity.
Qed.

Lemma finish_connection this env request r c response :
  (finish this env request r c response).2
  = BudgetManager.consumeBudget c (t_consume env) (t_usage env)
      (len (JSON.stringify (response_json response))).
Proof. unfold finish. case_match; reflexivity. Qed.

(** The request window after a request, by stage: untouched before the
    rate check, purged by a rate-limited request, purged and stamped by
    every request that passes the rate check. *)
Lemma handleRequest_window this env request c :
  let c' := (handleRequest this env request c).2 in
  limits c' = limits c /\ pubkey c' = pubkey c /\ namespace c' = namespace c
  /\ allowedMethods c' = allowedMethods c
  /\ requests (initState c')
     = match Spec.stageOf this env request c with
       | Spec.Malformed | Spec.Cached | Spec.NotAllowed => requests (initState c)
       | Spec.RateLimited => Spec.recent (t_rate env) (requests (initState c))
       | Spec.OverBudget | Spec.Dispatched =>
           Spec.recent (t_rate env) (requests (initState c)) ++ [t_rate env]
       end.
Proof.
  pose proof (handleRequest_by_stage this env request c) as H. cbn zeta in H.
  pose proof (checkLimit_spec c (t_rate env)) as HL. cbn zeta in HL.
  assert (forall c0 now n, limits (BudgetManager.checkBudget c0 now n).2 = limits c0
            /\ pubkey (BudgetManager.checkBudget c0 now n).2 = pubkey c0
            /\ namespace (BudgetManager.checkBudget c0 now n).2 = namespace c0
            /\ allowedMethods (BudgetManager.checkBudget c0 now n).2
               = allowedMethods c0
            /\ requests (initState (BudgetManager.checkBudget c0 now n).2)
               = requests (initState c0)) as HB.
  { intros. rewrite checkBudget_spec. auto. }
  destruct (Schema.baseRequestSchema request) as [r|].
  2:{ destruct H as [-> ->]. auto. }
  unfold Spec.stageOf in *.
  destruct (Schema.baseRequestSchema request) as [r'|] eqn:Hp.
  2:{ destruct H. }
  destruct (Spec.cachedFor this (t_idem env) (pubkey c) (id r')).
  { destruct H as [resp [_ ->]]. auto. }
  destruct (negb _).
  { rewrite H. auto. }
  rewrite HL in H. cbn [fst snd] in H.
  destruct (bool_decide (mps (limits c) <= _)); cbn [negb] in H.
  { rewrite H. auto. }
  match type of H with
  | context [BudgetManager.checkBudget ?c1 ?now ?n] =>
      specialize (HB c1 now n)
  end.
  destruct (bool_decide (_ <= bps (limits c))).
  - rewrite H, finish_connection, consumeBudget_spec.
    cbn [initState set_rateLimitState rateLimitState requests limits pubkey
         namespace allowedMethods].
    destruct HB as (-> & -> & -> & -> & ->). auto.
  - rewrite H. cbn [snd]. destruct HB as (-> & -> & -> & -> & ->). auto.
Qed.

End Pipeline.

(** C10: a request that passes the idempotency lookup and the allowlist
    and is admitted by the rate check leaves its timestamp in the request
    window, whatever happens to it afterwards (byte budget, key or value
    validation, namespace, backend): the window is the purged old window
    plus this one timestamp. *)
Theorem rate_checked_request_is_stamped
    (this : ProtocolRouter.t) (env : Env) (request : JSON.t)
    (c : ClientConnection) (r : KVRequest) :
  Schema.baseRequestSchema request = Some r ->
  Spec.cachedFor this (t_idem env) (pubkey c) (id r) = None ->
  method r ∈ allowedMethods c ->
  Z.of_nat (length (Spec.recent (t_rate env) (requests (initState c))))
  < mps (limits c) ->
  requests (initState (ProtocolRouter.handleRequest this env request c).2)
  = Spec.recent (t_rate env) (requests (initState c)) ++ [t_rate env].
Proof.
  intros Hp Hc Ha Hr.
  destruct (handleRequest_window this env request c) as (_ & _ & _ & _ & ->).
  unfold Spec.stageOf. rewrite Hp, Hc.
  rewrite (bool_decide_eq_true_2 _ Ha). cbn [negb].
  rewrite bool_decide_eq_false_2 by lia.
  destruct (bool_decide _); reflexivity.
Qed.

Lemma rate_checked_request_is_stamped_witness :
  requests (initState
              (ProtocolRouter.handleRequest Examples.router0 (Examples.at_ 1000)
                 (Examples.request "get" "r-9" [ (lit "key", JStr (lit "../x")) ])
                 Examples.alice).2)
  = Spec.recent 1000 (requests (initState Examples.alice)) ++ [1000].
Proof.
  apply (rate_checked_request_is_stamped Examples.router0 (Examples.at_ 1000)
           (Examples.request "get" "r-9" [ (lit "key", JStr (lit "../x")) ])
           Examples.alice
           {| method := lit "get";
              params := [ (lit "key", JStr (lit "../x")) ];
              id := lit "r-9" |}).
  - reflexivity.
  - reflexivity.
  - apply (bool_decide_unpack _). vm_compute. exact I.
  - vm_compute. reflexivity.
Defined.

(** ** What a request sends to the backend *)

Lemma validateValue_size value maxSize :
  0 <= maxSize ->
  Validator.validateValue value maxSize
  = negb (bool_decide (maxSize < Z.of_nat (length (Buffer.from_base64 value)))).
Proof.
  intros Hm. unfold Validator.validateValue.
  destruct value as [|c v]; cbn [falsy].
  - rewrite bool_decide_eq_false_2; [reflexivity|]. cbn. lia.
  - destruct (Z.ltb_spec maxSize
                (Z.of_nat (length (Buffer.from_base64 (c :: v))))).
    + rewrite bool_decide_eq_true_2 by lia. reflexivity.
    + rewrite bool_decide_eq_false_2 by lia. reflexivity.
Qed.

Section BackendCommands.

Import ProtocolRouter.

Lemma atMostOne_refl lim redis : Spec.atMostOne lim redis redis.
Proof. exists []. rewrite app_nil_r. repeat split; [cbn; lia | constructor]. Qed.

Lemma atMostOne_one lim redis redis' c :
  Redis.history redis' = Redis.history redis ++ [c] ->
  Redis.isData c = true -> (0 <= maxVal lim -> Spec.sized lim c) ->
  Spec.atMostOne lim redis redis'.
Proof.
  intros H Hd Hc. exists [c]. repeat split; [exact H | cbn; lia | auto].
Qed.

Lemma withKey_atMostOne redis request connection m key fail call :
  (forall fk, exists c, Redis.history (snd (call fk)) = Redis.history redis ++ [c]
                        /\ Redis.isData c = true
                        /\ Spec.sized (limits connection) c) ->
  Spec.atMostOne (limits connection) redis
    (snd (withKey redis request connection m key fail call)).
Proof.
  intros Hcall. unfold withKey.
  destruct key as [key|]; [|apply atMostOne_refl].
  destruct (negb _); [apply atMostOne_refl|].
  destruct (fullKeyOf m key) as [fullKey|]; [|apply atMostOne_refl].
  destruct (Hcall fullKey) as [c [Hi [Hd Hc]]].
  destruct (call fullKey) as [[r|] redis']; cbn [snd] in *;
    eapply atMostOne_one; eauto.
Qed.

Lemma mgetKeys_length request connection m keys fullKeys :
  mgetKeys request connection m keys = inr fullKeys ->
  length fullKeys = length keys.
Proof.
  revert fullKeys. induction keys as [|k keys IH]; intros fullKeys;
    cbn [mgetKeys]; [intros [= <-]; reflexivity|].
  destruct (negb _); [discriminate|].
  destruct (fullKeyOf m k); [|discriminate].
  destruct (mgetKeys request connection m keys) as [e|fks]; [discriminate|].
  intros [= <-]. cbn [length]. rewrite (IH fks); reflexivity.
Qed.

(** Each method handler sends at most one command, a string command. *)
Lemma dispatch_atMostOne this env r connection m :
  Spec.atMostOne (limits connection) (kvAdapter this)
    (snd (dispatch this env r connection m)).
Proof.
  unfold dispatch.
  repeat (case_match; [try apply atMostOne_refl|]); try apply atMostOne_refl.
  - unfold handleGet. apply withKey_atMostOne.
    intros fk. eexists. unfold reply. cbn [snd]. rewrite history_get.
    repeat split.
  - unfold handleSet.
    destruct (Schema.setParams (params r)) as [[[key value] ttl]|];
      [|apply atMostOne_refl].
    destruct (negb _); [apply atMostOne_refl|].
    destruct (negb (Validator.validateValue _ _)) eqn:Hv; [apply atMostOne_refl|].
    destruct (fullKeyOf m key) as [fullKey|]; [|apply atMostOne_refl].
    assert (Spec.atMostOne (limits connection) (kvAdapter this)
              (snd (KVAdapter.set (kvAdapter this) (redis_up env) (t_redis env)
                      fullKey value ttl))) as Hext.
    { destruct (history_set (kvAdapter this) (redis_up env) (t_redis env)
                  fullKey value ttl) as [ex Hi].
      eapply atMostOne_one; [exact Hi | reflexivity |].
      intros Hmax. cbn [Spec.sized].
      rewrite validateValue_size in Hv by exact Hmax.
      apply negb_false_iff, negb_true_iff, bool_decide_eq_false_1 in Hv. lia. }
    destruct (KVAdapter.set _ _ _ _ _ _) as [[u|] redis']; exact Hext.
  - unfold handleDel. apply withKey_atMostOne.
    intros fk. eexists. unfold reply. cbn [snd]. rewrite history_del.
    repeat split.
  - unfold handleExists. apply withKey_atMostOne.
    intros fk. eexists. unfold reply. cbn [snd]. rewrite history_exists.
    repeat split.
  - unfold handleMget.
    destruct (Schema.mgetParams (params r)) as [keys|]; [|apply atMostOne_refl].
    destruct (negb (Validator.validateMgetCount _ _)) eqn:Hc;
      [apply atMostOne_refl|].
    destruct (mgetKeys r connection m keys) as [e|fullKeys] eqn:Hm;
      [apply atMostOne_refl|].
    apply mgetKeys_length in Hm.
    assert (Spec.atMostOne (limits connection) (kvAdapter this)
              (snd (KVAdapter.mget (kvAdapter this) (redis_up env) (t_redis env)
                      fullKeys))) as Hext.
    { eapply atMostOne_one; [apply history_mget | reflexivity |].
      intros _. cbn [Spec.sized]. rewrite Hm. apply negb_false_iff in Hc.
      unfold Validator.validateMgetCount in Hc.
      destruct (Z.leb_spec (Z.of_nat (length keys)) 0); [discriminate|].
      destruct (Z.ltb_spec (mgetMax (limits connection))
                  (Z.of_nat (length keys))); [discriminate|]. lia. }
    destruct (KVAdapter.mget _ _ _ _) as [[u|] redis']; exact Hext.
  - unfold handleExpire.
    destruct (Schema.expireParams (params r)) as [[key ttl]|];
      [|apply atMostOne_refl].
    apply withKey_atMostOne.
    intros fk. eexists. unfold reply. cbn [snd]. rewrite history_expire.
    repeat split.
  - unfold handleTtl. apply withKey_atMostOne.
    intros fk. eexists. unfold reply. cbn [snd]. rewrite history_ttl.
    repeat split.
Qed.

Lemma checkLimit_limits c now :
  limits (RateLimiter.checkLimit c now).2 = limits c.
Proof. rewrite checkLimit_spec. reflexivity. Qed.

Lemma checkBudget_limits c now n :
  limits (BudgetManager.checkBudget c now n).2 = limits c.
Proof. rewrite checkBudget_spec. reflexivity. Qed.

Lemma afterHandler_atMostOne this env request r c :
  Spec.atMostOne (limits c) (kvAdapter this)
    (Spec.afterHandler this env request r c).
Proof.
  unfold Spec.afterHandler.
  match goal with
  | |- context [dispatch ?t env r ?c2 ?m] =>
      pose proof (dispatch_atMostOne t env r c2 m) as Hd
  end.
  rewrite checkBudget_limits, checkLimit_limits in Hd.
  cbn [with_cache kvAdapter] in Hd.
  destruct (getNamespaceManager_cache this c) as (_ & _ & Hk).
  rewrite Hk in Hd. exact Hd.
Qed.

Lemma afterHandler_extends this env request r c :
  Spec.extends (NamespaceManager.namespace (fst (getNamespaceManager this c)))
    (Spec.paramKeys (params r)) (kvAdapter this)
    (Spec.afterHandler this env request r c).
Proof.
  unfold Spec.afterHandler.
  match goal with
  | |- context [dispatch ?t env r ?c2 ?m] =>
      pose proof (dispatch_extends t env r c2 m) as Hd
  end.
  cbn [with_cache kvAdapter] in Hd.
  destruct (getNamespaceManager_cache this c) as (_ & _ & Hk).
  rewrite Hk in Hd. exact Hd.
Qed.

End BackendCommands.

(** ** The audit log *)

Section Audit.

Import ProtocolRouter.

Lemma hashKey_hashable env request r :
  Schema.baseRequestSchema request = Some r ->
  Spec.keyHashable env request
  = match hashKey env (params r) with Some _ => true | None => false end.
Proof.
  intros Hp. unfold Spec.keyHashable, hashKey. rewrite Hp.
  destruct (JSON.lookup (params r) (lit "key")) as [k|]; [|reflexivity].
  destruct k as [|[|]|[|n|n]|[|x s]|l|o]; cbn; try reflexivity;
    destruct (bufferFromObject env _); reflexivity.
Qed.

Lemma finish_audit this env request r c response :
  Schema.baseRequestSchema request = Some r ->
  if Spec.keyHashable env request
  then exists entry,
         kvAdapter (finish this env request r c response).1.2
         = AuditLogger.log (auditLogger this) (kvAdapter this) env entry
         /\ AuditLogger.a_method entry = method r
         /\ AuditLogger.latency entry = t_end env - t_start env
  else kvAdapter (finish this env request r c response).1.2 = kvAdapter this.
Proof.
  intros Hp. rewrite (hashKey_hashable env request r Hp). unfold finish.
  destruct (hashKey env (params r)); [eexists; repeat split|]; reflexivity.
Qed.

Lemma finish_auditLogger this env request r c response :
  auditLogger (finish this env request r c response).1.2 = auditLogger this.
Proof. unfold finish. case_match; reflexivity. Qed.

(** The audit logger of a router never changes. *)
Lemma handleRequest_auditLogger this env request c :
  auditLogger (handleRequest this env request c).1.2 = auditLogger this.
Proof.
  pose proof (handleRequest_by_stage this env request c) as H. cbn zeta in H.
  destruct (getNamespaceManager_cache this c) as (_ & Ha & _).
  destruct (Schema.baseRequestSchema request) as [r|] eqn:Hp.
  2:{ destruct H as [_ ->]. exact Ha. }
  destruct (Spec.stageOf this env request c); try (rewrite H; exact Ha).
  - destruct H.
  - destruct H as [resp [_ ->]]. exact Ha.
  - rewrite H, finish_auditLogger. exact Ha.
Qed.

(** The backend after a request: untouched unless the request is
    dispatched; then what the method handler left, passed once through
    the audit logger when the key can be hashed. *)
Lemma handleRequest_backend this env request c :
  let after := kvAdapter (handleRequest this env request c).1.2 in
  match Spec.stageOf this env request c with
  | Spec.Dispatched =>
      exists r,
        Schema.baseRequestSchema request = Some r
        /\ if Spec.keyHashable env request
           then exists entry,
                  after = AuditLogger.log (auditLogger this)
                            (Spec.afterHandler this env request r c) env entry
                  /\ AuditLogger.a_method entry = method r
                  /\ AuditLogger.latency entry = t_end env - t_start env
           else after = Spec.afterHandler this env request r c
  | _ => after = kvAdapter this
  end.
Proof.
  pose proof (handleRequest_by_stage this env request c) as H. cbn zeta in H.
  destruct (getNamespaceManager_cache this c) as (_ & Ha & Hk).
  destruct (Schema.baseRequestSchema request) as [r|] eqn:Hp.
  2:{ destruct H as [-> ->]. exact Hk. }
  destruct (Spec.stageOf this env request c); cbn zeta.
  - destruct H.
  - destruct H as [resp [_ ->]]. exact Hk.
  - rewrite H. exact Hk.
  - rewrite H. exact Hk.
  - rewrite H. exact Hk.
  - exists r. split; [reflexivity|]. rewrite H.
    match goal with
    | |- context [finish ?t env request r ?c2 ?resp] =>
        pose proof (finish_audit t env request r c2 resp Hp) as Hf
    end.
    cbn [with_kv with_cache auditLogger kvAdapter] in Hf. rewrite Ha in Hf.
    exact Hf.
Qed.

End Audit.



(** The audit list is a key of the clients' keyspace.  [alice], whose
    namespace is the configured one, reaches it as ["__audit"]: after a
    [set] of key ["a"] the list holds one record; a [del] of ["__audit"]
    then removes the list before its own record is pushed, so one record
    remains, not two; a [set] of ["__audit"] puts a string there, the
    LPUSH of its record is refused and no LTRIM follows. *)
Example client_reaches_the_audit_list :
  let key := lit "appA:__audit" in
  let audit this := Redis.listAt (ProtocolRouter.kvAdapter this.1.2) 9000 key in
  let first :=
    ProtocolRouter.handleRequest Examples.router0 (Examples.at_ 1000)
      Examples.setRequest Examples.alice in
  let deleted :=
    ProtocolRouter.handleRequest first.1.2 (Examples.at_ 2000)
      (Examples.request "del" "r-2" [ (lit "key", JStr (lit "__audit")) ])
      Examples.alice in
  let overwritten :=
    ProtocolRouter.handleRequest first.1.2 (Examples.at_ 2000)
      (Examples.request "set" "r-2"
         [ (lit "key", JStr (lit "__audit"));
           (lit "value", JStr (lit "dGVzdA==")) ])
      Examples.alice in
  length (audit first) = 1%nat
  /\ Spec.errorCodeOf deleted.1.1 = None
  /\ length (audit deleted) = 1%nat
  /\ Spec.errorCodeOf overwritten.1.1 = None
  /\ audit overwritten = []
  /\ List.map Redis.keysOf
       (Redis.history (ProtocolRouter.kvAdapter overwritten.1.2))
     = [ [lit "appA:a"]; [key]; [key]; [key]; [key] ]
  /\ List.map Redis.isData
       (Redis.history (ProtocolRouter.kvAdapter overwritten.1.2))
     = [ true; false; false; true; false ].
Proof. repeat split; vm_compute; reflexivity. Qed.

(** ** Value validation in [set] *)

(** C9 (amended): for a [set] request whose parameters parse and whose
    key passes key validation, INVALID_VALUE is returned iff what the
    runtime's lenient base-64 decoder makes of the value is longer than
    [maxVal].  The decoder reads the low byte of each code unit, skips
    what is no base-64 digit of either alphabet and stops at the first
    [=]; malformed base-64 is never refused as such, and the empty value
    is accepted. *)
Theorem set_invalid_value_iff_too_long
    (env : Env) (redis : Redis.t) (r : KVRequest) (c : ClientConnection)
    (m : NamespaceManager.t) (key value : jsstring) (ttl : option Z) :
  Schema.setParams (params r) = Some (key, value, ttl) ->
  Validator.validateKey key (maxKey (limits c)) = true ->
  0 <= maxVal (limits c) ->
  Spec.errorCodeOf (Some (fst (ProtocolRouter.handleSet env redis r c m)))
  = Some ErrorCodes.INVALID_VALUE
  <-> maxVal (limits c) < Z.of_nat (length (Buffer.from_base64 value)).
Proof.
  intros Hp Hk Hm. unfold ProtocolRouter.handleSet. rewrite Hp, Hk.
  rewrite (validateValue_size _ _ Hm). cbn [negb].
  destruct (decide (maxVal (limits c)
                    < Z.of_nat (length (Buffer.from_base64 value)))) as [Hlt|Hge].
  - rewrite (bool_decide_eq_true_2 _ Hlt). cbn. tauto.
  - rewrite (bool_decide_eq_false_2 _ Hge). cbn [negb].
    split; [|tauto]. intros H. exfalso.
    destruct (ProtocolRouter.fullKeyOf m key);
      [destruct (KVAdapter.set _ _ _ _ _ _) as [[u|] redis']|];
      vm_compute in H; discriminate.
Qed.

Lemma set_invalid_value_iff_too_long_witness :
  Spec.errorCodeOf
    (Some (fst (ProtocolRouter.handleSet (Examples.at_ 1000) Redis.empty
                  Examples.malformedSet Examples.dave
                  (NamespaceManager.new (lit "d:")))))
  = Some ErrorCodes.INVALID_VALUE
  <-> maxVal (limits Examples.dave)
      < Z.of_nat (length (Buffer.from_base64 (lit "!!Z~g??"))).
Proof.
  apply (set_invalid_value_iff_too_long (Examples.at_ 1000) Redis.empty
           Examples.malformedSet Examples.dave (NamespaceManager.new (lit "d:"))
           (lit "k") (lit "!!Z~g??") None).
  - reflexivity.
  - reflexivity.
  - vm_compute. discriminate.
Defined.

(** The decoder reads the low byte of each code unit: four times U+0141
    decode as [AAAA], three bytes, and are refused under a limit of two;
    U+013D reads as [=] and ends the input, so what follows it is not
    counted. *)
Example low_bytes_are_decoded :
  Buffer.from_base64 [321; 321; 321; 321]%N = [0; 0; 0]%N
  /\ Validator.validateValue [321; 321; 321; 321]%N 2 = false
  /\ Buffer.from_base64 (317%N :: lit "dGVz") = []
  /\ Validator.validateValue (317%N :: lit "dGVz") 2 = true.
Proof. repeat split; vm_compute; reflexivity. Qed.

(** C9, as stated, fails: a [set] whose value decodes to 4 bytes under a
    limit of 2, but whose key is too long, is answered INVALID_KEY. *)
Lemma oversized_value_with_bad_key :
  maxVal (limits Examples.dave)
  < Z.of_nat (length (Buffer.from_base64 (lit "dGVzdA==")))
  /\ Spec.errorCodeOf
       (Some (fst (ProtocolRouter.handleSet (Examples.at_ 1000) Redis.empty
                     Examples.longKeySet Examples.dave
                     (NamespaceManager.new (lit "d:")))))
     = Some ErrorCodes.INVALID_KEY
  /\ ErrorCodes.INVALID_KEY <> ErrorCodes.INVALID_VALUE.
Proof. repeat split; vm_compute; (reflexivity || discriminate). Qed.

(** ** Round trip of values *)

(** What [get] returns for a key just [set] without expiry: the stored
    bytes read as text, passed through [encodeReply], which leaves text
    that looks like base-64 as it is. *)
Lemma get_after_set redis now now' key value :
  fst (KVAdapter.get (snd (KVAdapter.set redis true now key value None))
         true now' key)
  = Some (Some (KVAdapter.encodeReply
                  (Buffer.to_utf8_string (Buffer.from_base64 value)))).
Proof.
  unfold KVAdapter.get, KVAdapter.set, Redis.get, Redis.read, Redis.set,
    Redis.issue, Redis.store. cbn [fst snd Redis.slots].
  rewrite lookup_insert_eq. reflexivity.
Qed.

(** C7 fails on the code: after [set] of ["dGVzdA=="] (the base-64 of the
    four bytes ["test"]) the store holds ["test"]; [get] finds that this
    text is itself well-formed base-64 and returns it as it is, instead of
    encoding it.  Seen at the adapter and through the whole server. *)
Theorem get_after_set_returns_stored_text :
  let stored := snd (KVAdapter.set Redis.empty true 1000 (lit "appA:a")
                       (lit "dGVzdA==") None) in
  Redis.data stored !! lit "appA:a"
  = Some {| Redis.value := lit "test"; Redis.expireAt := None |}
  /\ KVAdapter.isBase64 (lit "test") = true
  /\ fst (KVAdapter.get stored true 2000 (lit "appA:a")) = Some (Some (lit "test"))
  /\ fst (NostrKVServer.run Examples.server0
            [ (Examples.at_ 1000,
               Examples.event Examples.alicePubkey 1 Examples.setRequest);
              (Examples.at_ 2000,
               Examples.event Examples.alicePubkey 2 (Examples.getRequest "r-2")) ])
     = [ Some (ProtocolRouter.okResponse (Some (JStr (lit "r-1")))
                 (JObj [ (lit "ok", JBool true) ]));
         Some (ProtocolRouter.okResponse (Some (JStr (lit "r-2")))
                 (JObj [ (lit "value", JStr (lit "test")) ])) ].
Proof. repeat split; vm_compute; reflexivity. Qed.

(** ** The byte budget *)

(** The byte window after a dispatched request: the old window, purged,
    and one record that carries the size of the response.  The size of
    the request is compared by [checkBudget] and recorded nowhere. *)
Lemma dispatched_request_records_response this env request c :
  Spec.stageOf this env request c = Spec.Dispatched ->
  exists response,
    byteRecords (initState (ProtocolRouter.handleRequest this env request c).2)
    = List.filter (BudgetManager.inWindow (t_usage env))
        (List.filter (BudgetManager.inWindow (t_budget env))
           (byteRecords (initState c))
         ++ [ {| timestamp := t_consume env;
                 bytes := len (JSON.stringify (response_json response)) |} ]).
Proof.
  intros Hs.
  pose proof (handleRequest_by_stage this env request c) as H. cbn zeta in H.
  rewrite Hs in H.
  destruct (Schema.baseRequestSchema request) as [r|];
    [|destruct H; discriminate].
  rewrite H, finish_connection, consumeBudget_spec, checkBudget_spec,
    checkLimit_spec.
  eexists. reflexivity.
Qed.

(** C4 fails on the code: with [bps = 100], a [get_info] request of 42
    bytes is admitted (0 + 42 <= 100) and answered; afterwards the byte
    window holds one record, the 229 bytes of the response, which alone
    exceed [bps], and the 42 bytes of the request are recorded nowhere. *)
Theorem byte_window_records_response_only :
  let out := ProtocolRouter.handleRequest Examples.router0 (Examples.at_ 1000)
               Examples.infoRequest Examples.erin in
  len (JSON.stringify Examples.infoRequest) = 42
  /\ Spec.stageOf Examples.router0 (Examples.at_ 1000) Examples.infoRequest
       Examples.erin = Spec.Dispatched
  /\ Spec.errorCodeOf out.1.1 = None
  /\ byteRecords (initState out.2) = [ {| timestamp := 1000; bytes := 229 |} ]
  /\ bps (limits out.2) = 100
  /\ bps (limits out.2) < Spec.windowBytes 1000 (byteRecords (initState out.2)).
Proof. repeat split; vm_compute; reflexivity. Qed.

(** ** The idempotency cache *)

Section Idempotency.

Import ProtocolRouter NostrKVServer.

Lemma cache_get_other ic now p i k :
  k <> IdempotencyCache.getCacheKey p i ->
  IdempotencyCache.cache (IdempotencyCache.get ic now p i).2 !! k
  = IdempotencyCache.cache ic !! k.
Proof.
  intros Hk. unfold IdempotencyCache.get.
  repeat case_match; simplify_eq; cbn; try reflexivity.
  apply lookup_delete_ne. congruence.
Qed.

Lemma cache_get_window ic now p i :
  IdempotencyCache.windowMs (IdempotencyCache.get ic now p i).2
  = IdempotencyCache.windowMs ic.
Proof. unfold IdempotencyCache.get. repeat case_match; reflexivity. Qed.

Lemma finish_cache this env request r c response :
  idempotencyCache (finish this env request r c response).1.2
  = IdempotencyCache.set (idempotencyCache this) (t_cache env) (pubkey c) (id r)
      response.
Proof. unfold finish. case_match; reflexivity. Qed.

Lemma finish_response this env request r c response :
  Schema.baseRequestSchema request = Some r ->
  (finish this env request r c response).1.1
  = if Spec.keyHashable env request then Some response else caught request.
Proof.
  intros Hp. rewrite (hashKey_hashable env request r Hp). unfold finish.
  case_match; reflexivity.
Qed.

(** The cache after a request: entries under other keys are kept; a
    request answered from the cache changes nothing; a dispatched request
    files its response under its own key, stamped [t_cache]. *)
Lemma handleRequest_cache this env request c :
  let ic := idempotencyCache this in
  let out := handleRequest this env request c in
  let ic' := idempotencyCache out.1.2 in
  IdempotencyCache.windowMs ic' = IdempotencyCache.windowMs ic
  /\ match Schema.baseRequestSchema request with
     | None => IdempotencyCache.cache ic' = IdempotencyCache.cache ic
     | Some r =>
         let key := IdempotencyCache.getCacheKey (pubkey c) (id r) in
         (forall k, k <> key ->
                    IdempotencyCache.cache ic' !! k = IdempotencyCache.cache ic !! k)
         /\ match Spec.stageOf this env request c with
            | Spec.Cached =>
                IdempotencyCache.cache ic' = IdempotencyCache.cache ic
                /\ out.1.1 = Spec.cachedFor this (t_idem env) (pubkey c) (id r)
                /\ is_Some out.1.1
            | Spec.Dispatched =>
                exists response,
                  IdempotencyCache.cache ic' !! key
                  = Some {| IdempotencyCache.response := response;
                            IdempotencyCache.cachedAt := t_cache env |}
                  /\ out.1.1 = if Spec.keyHashable env request
                               then Some response else caught request
            | _ => True
            end
     end.
Proof.
  cbn zeta.
  pose proof (handleRequest_by_stage this env request c) as H. cbn zeta in H.
  destruct (getNamespaceManager_cache this c) as (Hc & _ & _).
  pose proof (handleRequest_window this env request c) as (_ & Hpk & _).
  cbn zeta in Hpk.
  destruct (Schema.baseRequestSchema request) as [r|] eqn:Hp.
  2:{ destruct H as [_ ->]. cbn [fst snd]. rewrite Hc. auto. }
  destruct (Spec.stageOf this env request c).
  - destruct H.
  - destruct H as [resp [Hcf ->]]. cbn [fst snd].
    split; [rewrite Hc; reflexivity|].
    split; [intros k _; rewrite Hc; reflexivity|].
    split; [rewrite Hc; reflexivity|]. rewrite Hcf. eauto.
  - rewrite H. cbn [fst snd with_cache idempotencyCache].
    split; [apply cache_get_window|].
    split; [intros k Hk; apply cache_get_other; exact Hk | exact I].
  - rewrite H. cbn [fst snd with_cache idempotencyCache].
    split; [apply cache_get_window|].
    split; [intros k Hk; apply cache_get_other; exact Hk | exact I].
  - rewrite H. cbn [fst snd with_cache idempotencyCache].
    split; [apply cache_get_window|].
    split; [intros k Hk; apply cache_get_other; exact Hk | exact I].
  - rewrite H in *. rewrite finish_cache, (finish_response _ _ _ _ _ _ Hp).
    unfold IdempotencyCache.set. cbn [IdempotencyCache.windowMs
      IdempotencyCache.cache with_kv with_cache idempotencyCache].
    rewrite cache_get_window. split; [reflexivity|].
    assert (pubkey (BudgetManager.checkBudget
                      (RateLimiter.checkLimit c (t_rate env)).2 (t_budget env)
                      (len (JSON.stringify request))).2 = pubkey c) as ->.
    { rewrite checkBudget_spec, checkLimit_spec. reflexivity. }
    split.
    + intros k Hk. rewrite lookup_insert_ne by congruence.
      apply cache_get_other. exact Hk.
    + eexists. split; [apply lookup_insert_eq | reflexivity].
Qed.

Lemma handleIncomingEvent_request this env event :
  handleIncomingEvent this env event
  = match Spec.requestOf event with
    | Some request =>
        let out := handleRequest (router this) env request
                     (connectionOf this (ev_pubkey event)) in
        (out.1.1, update this (ev_pubkey event) out.2 out.1.2)
    | None => (None, this)
    end.
Proof.
  unfold handleIncomingEvent, Spec.requestOf, Spec.payloadOf.
  destruct (validDate (created_at event)); cbn [negb]; [|reflexivity].
  destruct (sig event) as [[|x s]|]; try reflexivity.
  destruct (content event) as [| |request]; try reflexivity.
  destruct request; try reflexivity;
    destruct (handleRequest _ _ _ _) as [[resp router'] c']; reflexivity.
Qed.

Lemma connectionOf_pubkey this p :
  Spec.serverOk this -> pubkey (connectionOf this p) = p.
Proof.
  intros (_ & _ & Hc). unfold connectionOf, loadConnectionFromRegistry.
  destruct (connections this !! p) as [c|] eqn:E; [exact (Hc p c E)|].
  destruct (registryFile this !! p); reflexivity.
Qed.

(** The server invariant is kept by every event. *)
Lemma serverOk_step this env event :
  Spec.serverOk this -> Spec.serverOk (handleIncomingEvent this env event).2.
Proof.
  intros Hok. rewrite handleIncomingEvent_request.
  destruct (Spec.requestOf event) as [request|]; [|exact Hok].
  cbn zeta. cbn [snd]. pose proof Hok as (Hm & Hw & Hc).
  set (c := connectionOf this (ev_pubkey event)).
  destruct (handleRequest_cache (router this) env request c) as [Hw' _].
  destruct (handleRequest_window (router this) env request c)
    as (_ & Hpk & _).
  cbn zeta in Hw', Hpk.
  split; [|split].
  - apply managersOk_handleRequest. exact Hm.
  - cbn [router update]. rewrite Hw'. exact Hw.
  - intros p c0. cbn [connections update].
    destruct (decide (ev_pubkey event = p)) as [<-|Hne].
    + rewrite lookup_insert_eq. intros [= <-]. rewrite Hpk.
      apply connectionOf_pubkey. exact Hok.
    + rewrite lookup_insert_ne by assumption. apply Hc.
Qed.

Lemma serverOk_run this events :
  Spec.serverOk this -> Spec.serverOk (run this events).2.
Proof.
  revert this. induction events as [|[env event] events IH]; intros this Hok;
    [exact Hok|].
  cbn [run]. pose proof (serverOk_step this env event Hok) as Hstep.
  destruct (handleIncomingEvent this env event) as [response this'].
  specialize (IH this' Hstep).
  destruct (run this' events) as [responses final]. exact IH.
Qed.




End Idempotency.




(** ** The rate limit *)

Section RateLimit.

Import ProtocolRouter NostrKVServer.

Lemma withKey_code redis r c m key fail call :
  Spec.errorCodeOf (Some (withKey redis r c m key fail call).1)
  <> Some ErrorCodes.RATE_LIMITED.
Proof.
  unfold withKey.
  repeat case_match; simplify_eq; cbn [fst]; not_rate_limited.
Qed.

Lemma mgetKeys_code r c m keys e :
  mgetKeys r c m keys = inl e ->
  Spec.errorCodeOf (Some e) <> Some ErrorCodes.RATE_LIMITED.
Proof.
  revert e. induction keys as [|k keys IH]; intros e; cbn [mgetKeys];
    [discriminate|].
  destruct (negb _); [intros [= <-]; not_rate_limited|].
  destruct (fullKeyOf m k); [|intros [= <-]; not_rate_limited].
  destruct (mgetKeys r c m keys) as [e'|]; [|discriminate].
  intros [= <-]. apply IH. reflexivity.
Qed.

(** No method handler answers RATE_LIMITED. *)
Lemma dispatch_code this env r c m :
  Spec.errorCodeOf (Some (dispatch this env r c m).1)
  <> Some ErrorCodes.RATE_LIMITED.
Proof.
  unfold dispatch.
  destruct (str_eqb (method r) (lit "get_info")); [not_rate_limited|].
  destruct (str_eqb (method r) (lit "get")); [apply withKey_code|].
  destruct (str_eqb (method r) (lit "set")).
  { unfold handleSet. repeat case_match; simplify_eq; not_rate_limited. }
  destruct (str_eqb (method r) (lit "del")); [apply withKey_code|].
  destruct (str_eqb (method r) (lit "exists")); [apply withKey_code|].
  destruct (str_eqb (method r) (lit "mget")).
  { unfold handleMget. repeat case_match; simplify_eq; try not_rate_limited.
    eapply mgetKeys_code. eassumption. }
  destruct (str_eqb (method r) (lit "expire")).
  { unfold handleExpire. case_match; [|not_rate_limited].
    case_match. apply withKey_code. }
  destruct (str_eqb (method r) (lit "ttl")); [apply withKey_code|].
  not_rate_limited.
Qed.

Lemma caught_code request :
  Spec.errorCodeOf (caught request) <> Some ErrorCodes.RATE_LIMITED.
Proof. destruct request; not_rate_limited. Qed.

(** The answer to a request, by stage: RATE_LIMITED exactly for the
    requests the rate check or the byte budget refuses. *)
Lemma handleRequest_code this env request c :
  let out := (handleRequest this env request c).1.1 in
  match Spec.stageOf this env request c with
  | Spec.RateLimited | Spec.OverBudget =>
      Spec.errorCodeOf out = Some ErrorCodes.RATE_LIMITED
  | Spec.NotAllowed => Spec.errorCodeOf out = Some ErrorCodes.RESTRICTED
  | Spec.Dispatched | Spec.Malformed =>
      Spec.errorCodeOf out <> Some ErrorCodes.RATE_LIMITED
  | Spec.Cached => is_Some out
  end.
Proof.
  cbn zeta.
  pose proof (handleRequest_by_stage this env request c) as H. cbn zeta in H.
  pose proof (handleRequest_cache this env request c) as [_ Hc]. cbn zeta in Hc.
  destruct (Schema.baseRequestSchema request) as [r|] eqn:Hp.
  2:{ destruct H as [-> ->]. apply caught_code. }
  destruct (Spec.stageOf this env request c); try (rewrite H; reflexivity).
  - destruct H.
  - apply Hc.
  - rewrite H, (finish_response _ _ _ _ _ _ Hp).
    destruct (Spec.keyHashable env request);
      [apply dispatch_code | apply caught_code].
Qed.

Lemma connectionOf_update this p c router' :
  connectionOf (update this p c router') p = c.
Proof.
  unfold connectionOf, update. cbn [connections]. rewrite lookup_insert_eq.
  reflexivity.
Qed.

Lemma stagesOf_cons this env event rest :
  Spec.stagesOf this ((env, event) :: rest)
  = match Spec.requestOf event with
    | Some request =>
        Some (Spec.stageOf (router this) env request
                (connectionOf this (ev_pubkey event)))
    | None => None
    end :: Spec.stagesOf (handleIncomingEvent this env event).2 rest.
Proof. reflexivity. Qed.

Lemma recent_all now t0 (w : list Z) :
  t0 <= now < t0 + 60000 ->
  Forall (fun ts => t0 <= ts < t0 + 60000) w ->
  Spec.recent now w = w.
Proof.
  intros Hn Hw. unfold Spec.recent. induction Hw as [|ts w Hts Hw IH];
    [reflexivity|].
  cbn [List.filter]. rewrite bool_decide_eq_true_2 by lia. rewrite IH.
  reflexivity.
Qed.

(** A burst inside one window, seen from a window that already holds
    [w]: as long as fewer than [mps] timestamps are held each request is
    dispatched and stamped, and the request that finds [mps] of them is
    refused. *)
Lemma burst_from p t0 last events : forall this,
  Spec.serverOk this ->
  Forall (fun ts => t0 <= ts < t0 + 60000)
         (requests (initState (connectionOf this p))) ->
  Z.of_nat (length (requests (initState (connectionOf this p))))
  + Z.of_nat (length events) = mps (limits (connectionOf this p)) ->
  Forall (fun ee => ev_pubkey ee.2 = p /\ t0 <= t_rate ee.1 < t0 + 60000)
         (events ++ [last]) ->
  Forall (fun s => s = Some Spec.Dispatched \/ s = Some Spec.RateLimited)
         (Spec.stagesOf this (events ++ [last])) ->
  Spec.stagesOf this (events ++ [last])
  = repeat (Some Spec.Dispatched) (length events) ++ [Some Spec.RateLimited]
  /\ exists accepted rejected,
       (run this (events ++ [last])).1 = accepted ++ [rejected]
       /\ length accepted = length events
       /\ Forall (fun out => Spec.errorCodeOf out <> Some ErrorCodes.RATE_LIMITED)
                 accepted
       /\ Spec.errorCodeOf rejected = Some ErrorCodes.RATE_LIMITED.
Proof.
  induction events as [|[env event] events IH]; intros this Hok Hw Hlen Hev Hst.
  - destruct last as [env event]. cbn [app] in *.
    rewrite stagesOf_cons in *. cbn [run].
    apply Forall_cons in Hev as [[Hp Ht] _]. cbn [fst snd] in Hp, Ht.
    apply Forall_cons in Hst as [Hs _].
    rewrite handleIncomingEvent_request.
    destruct (Spec.requestOf event) as [request|];
      [|destruct Hs; discriminate].
    subst p. set (c := connectionOf this (ev_pubkey event)) in *.
    pose proof (handleRequest_code (router this) env request c) as Hcode.
    cbn zeta in Hcode. cbn zeta. cbn [fst snd length repeat app].
    assert (Spec.stageOf (router this) env request c = Spec.RateLimited) as Hrl.
    { destruct Hs as [[= Hs]|[= Hs]]; [|exact Hs]. exfalso.
      unfold Spec.stageOf in Hs. rewrite (recent_all _ t0 _ Ht Hw) in Hs.
      cbn [length] in Hlen.
      repeat case_match; simplify_eq;
      match goal with
      | E : bool_decide (mps _ <= _) = false |- _ =>
          apply bool_decide_eq_false_1 in E; lia
      end. }
    rewrite Hrl in *. split; [reflexivity|].
    exists [], ((handleRequest (router this) env request c).1.1).
    repeat split; auto.
  - cbn [app length] in *. rewrite stagesOf_cons in *. cbn [run].
    apply Forall_cons in Hev as [[Hp Ht] Hev]. cbn [fst snd] in Hp, Ht.
    apply Forall_cons in Hst as [Hs Hst].
    pose proof (serverOk_step this env event Hok) as Hok'.
    rewrite handleIncomingEvent_request in *.
    destruct (Spec.requestOf event) as [request|];
      [|destruct Hs; discriminate].
    subst p. set (c := connectionOf this (ev_pubkey event)) in *.
    pose proof (handleRequest_code (router this) env request c) as Hcode.
    pose proof (handleRequest_window (router this) env request c)
      as (Hlim & _ & _ & _ & Hreq).
    cbn zeta in Hcode, Hlim, Hreq, Hok', Hst. cbn [fst snd] in Hok', Hst.
    assert (Spec.stageOf (router this) env request c = Spec.Dispatched) as Hd.
    { destruct Hs as [[= Hs]|[= Hs]]; [exact Hs|]. exfalso.
      unfold Spec.stageOf in Hs. rewrite (recent_all _ t0 _ Ht Hw) in Hs.
      repeat case_match; simplify_eq;
      match goal with
      | E : bool_decide (mps _ <= _) = true |- _ =>
          apply bool_decide_eq_true_1 in E; lia
      end. }
    rewrite Hd in *. rewrite (recent_all _ t0 _ Ht Hw) in Hreq.
    set (out := handleRequest (router this) env request c) in *.
    cbn zeta. cbn [fst snd].
    specialize (IH (update this (ev_pubkey event) out.2 out.1.2) Hok').
    rewrite connectionOf_update, Hreq, Hlim in IH.
    destruct IH as [IHs (accepted & rejected & Hrun & Hlen' & Hacc & Hrej)].
    + apply Forall_app. split; [exact Hw|]. constructor; [exact Ht|constructor].
    + rewrite length_app. cbn [length]. lia.
    + exact Hev.
    + exact Hst.
    + split.
      * cbn [repeat app]. rewrite IHs. reflexivity.
      * destruct (run _ (events ++ [last])) as [responses final].
        cbn [fst] in *. subst responses.
        exists (out.1.1 :: accepted), rejected. cbn [app length].
        repeat split; auto.
Qed.

End RateLimit.

(** C8: a client whose request window is empty sends [mps] requests and
    one more, all within one 60-second window and all passing every check
    other than the rate check (each is either dispatched or refused by the
    rate check, never stopped elsewhere).  Then the first [mps] are
    dispatched, none of their answers is RATE_LIMITED, and the one after
    them is refused with RATE_LIMITED. *)
Theorem burst_is_cut_at_mps
    (this : NostrKVServer.t) (p : jsstring) (t0 : Z)
    (events : list (Env * NostrKVServer.Event))
    (last : Env * NostrKVServer.Event) :
  Spec.serverOk this ->
  requests (initState (NostrKVServer.connectionOf this p)) = [] ->
  Z.of_nat (length events) = mps (limits (NostrKVServer.connectionOf this p)) ->
  Forall (fun ee => NostrKVServer.ev_pubkey ee.2 = p
                    /\ t0 <= t_rate ee.1 < t0 + 60000)
         (events ++ [last]) ->
  Forall (fun s => s = Some Spec.Dispatched \/ s = Some Spec.RateLimited)
         (Spec.stagesOf this (events ++ [last])) ->
  Spec.stagesOf this (events ++ [last])
  = repeat (Some Spec.Dispatched) (length events) ++ [Some Spec.RateLimited]
  /\ exists accepted rejected,
       (NostrKVServer.run this (events ++ [last])).1 = accepted ++ [rejected]
       /\ length accepted = length events
       /\ Forall (fun out => Spec.errorCodeOf out <> Some ErrorCodes.RATE_LIMITED)
                 accepted
       /\ Spec.errorCodeOf rejected = Some ErrorCodes.RATE_LIMITED.
Proof.
  intros Hok Hw Hlen Hev Hst.
  apply (burst_from p t0 last events this Hok); try assumption.
  - rewrite Hw. constructor.
  - rewrite Hw. cbn [length]. lia.
Qed.

Lemma burst_is_cut_at_mps_witness :
  let events := [ Examples.aliceSet; Examples.aliceGet 2000 "r-2" ] in
  let last := Examples.aliceGet 3000 "r-3" in
  Spec.stagesOf Examples.server0 (events ++ [last])
  = repeat (Some Spec.Dispatched) (length events) ++ [Some Spec.RateLimited]
  /\ exists accepted rejected,
       (NostrKVServer.run Examples.server0 (events ++ [last])).1
       = accepted ++ [rejected]
       /\ length accepted = length events
       /\ Forall (fun out => Spec.errorCodeOf out <> Some ErrorCodes.RATE_LIMITED)
                 accepted
       /\ Spec.errorCodeOf rejected = Some ErrorCodes.RATE_LIMITED.
Proof.
  apply (burst_is_cut_at_mps Examples.server0 Examples.alicePubkey 1000
           [ Examples.aliceSet; Examples.aliceGet 2000 "r-2" ]
           (Examples.aliceGet 3000 "r-3")).
  - split; [exact (managersOk_new _)|]. split; [reflexivity|].
    intros p c H. discriminate.
  - reflexivity.
  - reflexivity.
  - repeat constructor; cbn [fst snd]; vm_compute; discriminate.
  - vm_compute.
    repeat (constructor; [first [left; reflexivity | right; reflexivity]|]).
    constructor.
Defined.

(** ** Event freshness *)

Lemma caught_answers request :
  request <> JNull -> is_Some (ProtocolRouter.caught request).
Proof. destruct request; intros H; try (eexists; reflexivity). destruct H; reflexivity. Qed.

(** Every request other than [null] is answered by the router. *)
Lemma handleRequest_answers this env request c :
  request <> JNull ->
  is_Some (ProtocolRouter.handleRequest this env request c).1.1.
Proof.
  intros Hn.
  pose proof (handleRequest_by_stage this env request c) as H. cbn zeta in H.
  destruct (Schema.baseRequestSchema request) as [r|] eqn:Hp.
  2:{ destruct H as [_ ->]. apply caught_answers. exact Hn. }
  destruct (Spec.stageOf this env request c); try (rewrite H; eexists; reflexivity).
  - destruct H.
  - destruct H as [resp [_ ->]]. eexists. reflexivity.
  - rewrite H. unfold ProtocolRouter.finish.
    destruct (ProtocolRouter.hashKey env (params r));
      [eexists; reflexivity | apply caught_answers; exact Hn].
Qed.

Lemma payloadOf_not_null event request :
  Spec.payloadOf event = Some request -> request <> JNull.
Proof.
  unfold Spec.payloadOf. intros H ->.
  destruct (NostrKVServer.sig event) as [[|x s]|]; try discriminate.
  destruct (NostrKVServer.content event) as [| |[]]; discriminate.
Qed.

Lemma validDate_range t :
  NostrKVServer.validDate t = true <-> Z.abs t <= 8640000000000.
Proof.
  unfold NostrKVServer.validDate.
  rewrite andb_true_iff, !Z.leb_le. lia.
Qed.

(** [created_at] is read once, by the log line that prints it as a date
    before the [try]: an event whose date cannot be printed is dropped,
    and among the others the handler does not tell one [created_at] from
    another. *)
Lemma created_at_only_as_date
    (this : NostrKVServer.t) (env : Env) (event : NostrKVServer.Event) (t : Z) :
  NostrKVServer.handleIncomingEvent this env (Spec.createdAt t event)
  = if NostrKVServer.validDate t
    then match Spec.payloadOf event with
         | Some request =>
             let out := ProtocolRouter.handleRequest (NostrKVServer.router this)
                          env request
                          (NostrKVServer.connectionOf this
                             (NostrKVServer.ev_pubkey event)) in
             (out.1.1,
              NostrKVServer.update this (NostrKVServer.ev_pubkey event)
                out.2 out.1.2)
         | None => (None, this)
         end
    else (None, this).
Proof.
  rewrite handleIncomingEvent_request. unfold Spec.requestOf.
  cbn [Spec.createdAt NostrKVServer.created_at NostrKVServer.ev_pubkey].
  destruct (NostrKVServer.validDate t); reflexivity.
Qed.

(** C6 (amended): the event handler applies no freshness check.  An
    event handed to it that carries a signature, decrypts and parses to a
    JSON value other than [null] is answered whenever its [created_at] can
    be printed as a date (at most 8 640 000 000 000 s from the epoch
    either way), with the same answer and the same effect as under any
    other such [created_at], however that compares with the server clock;
    outside that range the log line that opens the handler throws and the
    event gets no answer.  (The only bound on [created_at] elsewhere is
    the [since] of the subscription, the second the server started, which
    is no age limit.) *)
Theorem events_are_answered_whatever_their_age
    (this : NostrKVServer.t) (env : Env) (event : NostrKVServer.Event)
    (request : JSON.t) (t : Z) :
  Spec.payloadOf event = Some request ->
  (Z.abs t <= 8640000000000 ->
   is_Some (NostrKVServer.handleIncomingEvent this env
              (Spec.createdAt t event)).1
   /\ forall t', Z.abs t' <= 8640000000000 ->
        NostrKVServer.handleIncomingEvent this env (Spec.createdAt t' event)
        = NostrKVServer.handleIncomingEvent this env (Spec.createdAt t event))
  /\ (8640000000000 < Z.abs t ->
      NostrKVServer.handleIncomingEvent this env (Spec.createdAt t event)
      = (None, this)).
Proof.
  intros Hreq. split.
  - intros Ht. apply validDate_range in Ht. split.
    + rewrite created_at_only_as_date, Ht, Hreq. cbn zeta. cbn [fst].
      apply handleRequest_answers. eapply payloadOf_not_null. exact Hreq.
    + intros t' Ht'. apply validDate_range in Ht'.
      rewrite !created_at_only_as_date, Ht, Ht'. reflexivity.
  - intros Ht. rewrite created_at_only_as_date.
    destruct (NostrKVServer.validDate t) eqn:E; [|reflexivity].
    apply validDate_range in E. lia.
Qed.

Lemma events_are_answered_whatever_their_age_witness :
  is_Some (NostrKVServer.handleIncomingEvent Examples.server0
             (Examples.at_ 1700000000000)
             (Spec.createdAt 1
                (Examples.event Examples.alicePubkey 1700000000
                   Examples.infoRequest))).1
  /\ NostrKVServer.handleIncomingEvent Examples.server0
       (Examples.at_ 1700000000000)
       (Spec.createdAt 8640000000001
          (Examples.event Examples.alicePubkey 1700000000
             Examples.infoRequest))
     = (None, Examples.server0).
Proof.
  split.
  - apply (proj1 (events_are_answered_whatever_their_age Examples.server0
                    (Examples.at_ 1700000000000)
                    (Examples.event Examples.alicePubkey 1700000000
                       Examples.infoRequest)
                    Examples.infoRequest 1 eq_refl)).
    cbn. lia.
  - apply (proj2 (events_are_answered_whatever_their_age Examples.server0
                    (Examples.at_ 1700000000000)
                    (Examples.event Examples.alicePubkey 1700000000
                       Examples.infoRequest)
                    Examples.infoRequest 8640000000001 eq_refl)).
    cbn. lia.
Defined.

(** C6, as stated, fails: on a server started at second 1 699 990 000,
    with the server clock at 1 700 000 000 s, an event created one second
    after the start (far older than five minutes) and an event created at
    second 4 000 000 000 (far more than 60 s ahead) both pass the filter
    of the subscription and both are answered. *)
Lemma stale_and_future_events_are_answered :
  let started := 1699990000 in
  let now := 1700000000 in
  let stale :=
    Examples.event Examples.alicePubkey (started + 1) Examples.infoRequest in
  let early :=
    Examples.event Examples.alicePubkey 4000000000 Examples.infoRequest in
  NostrKVServer.matchFilter (started * 1000) stale = true
  /\ NostrKVServer.matchFilter (started * 1000) early = true
  /\ now - NostrKVServer.created_at stale > 300
  /\ NostrKVServer.created_at early - now > 60
  /\ Spec.errorCodeOf
       (fst (NostrKVServer.handleIncomingEvent Examples.server0
               (Examples.at_ (now * 1000)) stale)) = None
  /\ is_Some (fst (NostrKVServer.handleIncomingEvent Examples.server0
                     (Examples.at_ (now * 1000)) stale))
  /\ is_Some (fst (NostrKVServer.handleIncomingEvent Examples.server0
                     (Examples.at_ (now * 1000)) early)).
Proof.
  repeat split; try (vm_compute; reflexivity); vm_compute; eauto.
Qed.

(** * Further properties of the code *)

(** ** The namespace guard: stripping, idempotence, key lists *)

Section GuardFacts.

Import NamespaceManager.

Lemma ensureNamespace_cases m k fullKey :
  ensureNamespace m k = Some fullKey ->
  k <> [] /\ hasEscapeAttempt k = false
  /\ startsWith fullKey (namespace m) = true
  /\ (startsWith k (namespace m) = true /\ fullKey = k
      \/ startsWith k (namespace m) = false /\ fullKey = namespace m ++ k).
Proof.
  unfold ensureNamespace. intros H.
  destruct k as [|c k]; [discriminate|]. cbn [falsy] in H.
  destruct (hasEscapeAttempt (c :: k)); [discriminate|].
  destruct (startsWith (c :: k) (namespace m)) eqn:Hs.
  - injection H as <-. repeat split; auto; discriminate.
  - destruct (hasWrongNamespace m (c :: k)); [discriminate|].
    injection H as <-. repeat split; auto using startsWith_app; discriminate.
Qed.

Lemma ensureNamespace_nonempty m k : ensureNamespace m k <> Some [].
Proof.
  intros H. apply ensureNamespace_cases in H as (Hk & _ & _ & [[_ E]|[_ E]]).
  - congruence.
  - symmetry in E. apply app_eq_nil in E as [_ E]. congruence.
Qed.

Lemma skip_prefix (p r : jsstring) : substringFrom (p ++ r) (len p) = r.
Proof.
  unfold substringFrom, len. rewrite Nat2Z.id. apply drop_app_length.
Qed.

End GuardFacts.

(** X1: [stripNamespace] undoes the prefixing of [ensureNamespace]: the
    namespace put back in front of the stripped key gives the full key, and
    for a key that did not carry the prefix the stripped full key is the
    key itself. *)
Theorem stripNamespace_after_ensureNamespace
    (m : NamespaceManager.t) (k fullKey : jsstring) :
  NamespaceManager.ensureNamespace m k = Some fullKey ->
  NamespaceManager.namespace m ++ NamespaceManager.stripNamespace m fullKey
  = fullKey
  /\ (startsWith k (NamespaceManager.namespace m) = false ->
      NamespaceManager.stripNamespace m fullKey = k).
Proof.
  intros H. apply ensureNamespace_cases in H as (_ & _ & Hs & Hc).
  unfold NamespaceManager.stripNamespace. rewrite Hs.
  apply startsWith_iff in Hs as [r ->]. rewrite skip_prefix.
  split; [reflexivity|]. intros Hk.
  destruct Hc as [[Hk' _]|[_ E]]; [congruence|].
  apply app_inv_head in E. exact E.
Qed.

Lemma stripNamespace_after_ensureNamespace_witness :
  NamespaceManager.namespace (NamespaceManager.new (lit "appA"))
  ++ NamespaceManager.stripNamespace (NamespaceManager.new (lit "appA"))
       (lit "appA:user")
  = lit "appA:user"
  /\ (startsWith (lit "user")
        (NamespaceManager.namespace (NamespaceManager.new (lit "appA"))) = false ->
      NamespaceManager.stripNamespace (NamespaceManager.new (lit "appA"))
        (lit "appA:user") = lit "user").
Proof.
  apply (stripNamespace_after_ensureNamespace (NamespaceManager.new (lit "appA"))
           (lit "user") (lit "appA:user")).
  reflexivity.
Defined.

Section GuardIdempotence.

Import NamespaceManager.

Lemma endsWith_colon ns :
  endsWith ns (lit ":") = true <-> exists body, ns = body ++ [58%N].
Proof.
  unfold endsWith. rewrite startsWith_iff. change (rev (lit ":")) with [58%N].
  split.
  - intros [r Hr]. exists (rev r). rewrite <- (rev_involutive ns), Hr.
    reflexivity.
  - intros [body ->]. exists (rev body). rewrite rev_app_distr. reflexivity.
Qed.

(** A pattern without a colon cannot begin inside a string that ends
    with a colon and run past its end. *)
Lemma startsWith_past_colon body b p :
  existsb (N.eqb 58) p = false ->
  startsWith ((body ++ [58%N]) ++ b) p = startsWith (body ++ [58%N]) p.
Proof.
  revert p. induction body as [|c body IH]; intros p Hp.
  - destruct p as [|x p]; [reflexivity|]. cbn [existsb] in Hp.
    apply orb_false_iff in Hp as [Hx _]. rewrite N.eqb_sym in Hx.
    cbn [app startsWith]. rewrite Hx. reflexivity.
  - destruct p as [|x p]; [reflexivity|]. cbn [existsb] in Hp.
    apply orb_false_iff in Hp as [_ Hp]. cbn [app startsWith].
    rewrite <- (IH p Hp). rewrite <- app_assoc. reflexivity.
Qed.

Lemma includes_past_colon body b p :
  existsb (N.eqb 58) p = false ->
  includes ((body ++ [58%N]) ++ b) p
  = includes (body ++ [58%N]) p || includes b p.
Proof.
  intros Hp. induction body as [|c body IH].
  - change (([] ++ [58%N]) ++ b) with (58%N :: b). change ([] ++ [58%N]) with [58%N].
    rewrite !includes_cons, includes_nil.
    pose proof (startsWith_past_colon [] b p Hp) as H. cbn [app] in H. rewrite H.
    destruct p as [|x p]; [reflexivity|].
    cbn [startsWith]. rewrite orb_false_r. reflexivity.
  - change (((c :: body) ++ [58%N]) ++ b) with (c :: (body ++ [58%N]) ++ b).
    change ((c :: body) ++ [58%N]) with (c :: body ++ [58%N]).
    rewrite !includes_cons, IH.
    pose proof (startsWith_past_colon (c :: body) b p Hp) as H.
    cbn [app] in H. rewrite H. rewrite orb_assoc. reflexivity.
Qed.

Lemma escapePatterns_no_colon :
  Forall (fun p => existsb (N.eqb 58) p = false) escapePatterns.
Proof. repeat constructor. Qed.

(** Prefixing a clean key with a clean namespace that ends in a colon
    gives a clean key. *)
Lemma hasEscapeAttempt_prefixed ns k :
  endsWith ns (lit ":") = true ->
  hasEscapeAttempt ns = false -> hasEscapeAttempt k = false ->
  hasEscapeAttempt (ns ++ k) = false.
Proof.
  intros He Hn Hk. apply endsWith_colon in He as [body ->].
  unfold hasEscapeAttempt in *.
  apply orb_false_iff in Hn as [Hn1 Hn2]. apply orb_false_iff in Hk as [Hk1 Hk2].
  apply orb_false_iff. split.
  - apply not_true_is_false. intros H. apply existsb_exists in H as [p [Hin Hp]].
    pose proof escapePatterns_no_colon as Hall.
    rewrite Forall_forall in Hall.
    rewrite (includes_past_colon body k p) in Hp
      by (apply Hall, list_elem_of_In, Hin).
    apply orb_true_iff in Hp as [Hp|Hp].
    + assert (existsb (fun pattern => includes (body ++ [58%N]) pattern)
                escapePatterns = true) as E
        by (apply existsb_exists; eauto).
      congruence.
    + assert (existsb (fun pattern => includes k pattern) escapePatterns = true)
        as E by (apply existsb_exists; eauto).
      congruence.
  - unfold suspiciousPatterns in *. cbn [existsb] in *.
    rewrite !orb_false_r in *.
    apply orb_false_iff in Hn2 as [Hn2 Hn3]. apply orb_false_iff in Hn3 as [_ Hn3].
    apply orb_false_iff in Hk2 as [Hk2 Hk3]. apply orb_false_iff in Hk3 as [_ Hk3].
    rewrite existsb_app, Hn2, Hk2.
    rewrite (includes_past_colon body k (lit "...") eq_refl), Hn3, Hk3.
    rewrite !forallb_app. cbn. rewrite andb_false_r. reflexivity.
Qed.

End GuardIdempotence.

(** X2: under a well-formed namespace the guard is idempotent: a key it
    has accepted and qualified is accepted again and returned unchanged. *)
Theorem ensureNamespace_idempotent
    (m : NamespaceManager.t) (k fullKey : jsstring) :
  NamespaceManager.validateNamespaceFormat m = true ->
  NamespaceManager.ensureNamespace m k = Some fullKey ->
  NamespaceManager.ensureNamespace m fullKey = Some fullKey.
Proof.
  unfold NamespaceManager.validateNamespaceFormat. intros Hv H.
  destruct (endsWith _ _) eqn:He; [|discriminate]. cbn [negb] in Hv.
  destruct (len _ <=? 1); [discriminate|].
  destruct (NamespaceManager.hasEscapeAttempt (NamespaceManager.namespace m))
    eqn:Hn; [discriminate|].
  apply ensureNamespace_cases in H as (Hne & Hk & Hs & Hc).
  destruct Hc as [[_ ->]|[_ ->]].
  - unfold NamespaceManager.ensureNamespace. rewrite Hk, Hs.
    destruct k; [congruence | reflexivity].
  - unfold NamespaceManager.ensureNamespace.
    rewrite (hasEscapeAttempt_prefixed _ _ He Hn Hk), Hs.
    destruct (NamespaceManager.namespace m ++ k) eqn:E; [|reflexivity].
    apply app_eq_nil in E as [_ ->]. congruence.
Qed.

Lemma ensureNamespace_idempotent_witness :
  NamespaceManager.ensureNamespace (NamespaceManager.new (lit "appA"))
    (lit "appA:user")
  = Some (lit "appA:user").
Proof.
  apply (ensureNamespace_idempotent (NamespaceManager.new (lit "appA"))
           (lit "user") (lit "appA:user")); reflexivity.
Defined.

Section KeyLists.

Import NamespaceManager.

Lemma validateKeysFrom_spec m keys : forall valid invalid,
  validateKeysFrom m keys valid invalid
  = (valid ++ omap (ensureNamespace m) keys,
     invalid ++ List.filter
                  (fun k => match ensureNamespace m k with
                            | None => true
                            | Some _ => false
                            end) keys).
Proof.
  induction keys as [|k keys IH]; intros valid invalid; cbn [validateKeysFrom].
  - cbn. rewrite !app_nil_r. reflexivity.
  - cbn [omap list_omap List.filter].
    destruct (ensureNamespace m k) as [[|c fk]|] eqn:E.
    + destruct (ensureNamespace_nonempty m k E).
    + rewrite IH, <- app_assoc. reflexivity.
    + rewrite IH, <- app_assoc. reflexivity.
Qed.

End KeyLists.

(** X3: [validateKeys] splits a key list without losing a key: [valid]
    holds the qualified forms of the accepted keys, in order, every one of
    them inside the namespace; [invalid] holds the rejected keys, in order;
    the two lengths add up to the number of keys. *)
Theorem validateKeys_partition (m : NamespaceManager.t) (keys : list jsstring) :
  let out := NamespaceManager.validateKeys m keys in
  out.1 = omap (NamespaceManager.ensureNamespace m) keys
  /\ Forall (fun fullKey => NamespaceManager.isKeyInNamespace m fullKey = true)
            out.1
  /\ Forall (fun k => In k keys /\ NamespaceManager.ensureNamespace m k = None)
            out.2
  /\ (length out.1 + length out.2 = length keys)%nat.
Proof.
  cbn zeta. unfold NamespaceManager.validateKeys.
  rewrite validateKeysFrom_spec. cbn [fst snd app].
  split; [reflexivity|].
  induction keys as [|k keys (IH1 & IH2 & IH3)].
  - repeat split; constructor.
  - cbn [omap list_omap List.filter].
    destruct (NamespaceManager.ensureNamespace m k) as [fk|] eqn:E.
    + split; [|split].
      * constructor; [|exact IH1].
        apply ensureNamespace_cases in E as (_ & _ & Hs & _). exact Hs.
      * eapply Forall_impl; [exact IH2|]. intros k' [Hin Hk']. split; [right|]; auto.
      * cbn [length]. lia.
    + split; [|split].
      * exact IH1.
      * constructor; [split; [left; reflexivity | exact E]|].
        eapply Forall_impl; [exact IH2|]. intros k' [Hin Hk']. split; [right|]; auto.
      * cbn [length]. lia.
Qed.

(** ** Namespaces the validator accepts *)

Section NamespaceFormat.

Import NamespaceManager.

Lemma validPattern_shape s :
  Validator.validPattern s = true ->
  exists body, s = body ++ [58%N] /\ body <> []
               /\ forallb Validator.isNameChar body = true.
Proof.
  unfold Validator.validPattern. destruct (rev s) as [|last body] eqn:E;
    [discriminate|].
  intros H. apply andb_true_iff in H as [H Hb]. apply andb_true_iff in H as [Hl Hn].
  apply N.eqb_eq in Hl. subst last.
  exists (rev body). rewrite <- (rev_involutive s), E. cbn [rev].
  split; [reflexivity|]. split.
  - destruct body; [discriminate|]. cbn [rev]. intros H.
    apply app_eq_nil in H as [_ H]. discriminate.
  - rewrite forallb_forall in *. intros c Hc. apply Hb, in_rev. exact Hc.
Qed.

Lemma includes_chars s p c :
  includes s p = true -> In c p -> In c s.
Proof.
  rewrite includes_iff. intros (a & b & ->) Hin.
  apply in_or_app. right. apply in_or_app. left. exact Hin.
Qed.

Lemma escapePatterns_unclean :
  Forall (fun p => existsb (fun c => negb (Spec.cleanChar c)) p = true) escapePatterns.
Proof. repeat constructor. Qed.

Lemma cleanChar_not_control c : Spec.cleanChar c = true -> isControl c = false.
Proof.
  unfold Spec.cleanChar, Validator.isNameChar, isControl. intros H.
  apply not_true_is_false. intros Hc.
  repeat first [ rewrite orb_true_iff in H | rewrite andb_true_iff in H
               | rewrite N.leb_le in H | rewrite N.eqb_eq in H ].
  repeat first [ rewrite orb_true_iff in Hc | rewrite andb_true_iff in Hc
               | rewrite N.leb_le in Hc | rewrite N.eqb_eq in Hc ].
  lia.
Qed.

(** A string of clean characters that ends in a colon is no escape
    attempt. *)
Lemma clean_no_escape s :
  forallb Spec.cleanChar s = true -> In 58%N s -> hasEscapeAttempt s = false.
Proof.
  intros Hall Hcolon. rewrite forallb_forall in Hall.
  unfold hasEscapeAttempt. apply orb_false_iff. split.
  - apply not_true_is_false. intros H. apply existsb_exists in H as [p [Hin Hp]].
    pose proof escapePatterns_unclean as Hu. rewrite Forall_forall in Hu.
    specialize (Hu p (proj2 (list_elem_of_In _ _) Hin)).
    apply existsb_exists in Hu as [c [Hc Hbad]].
    rewrite (Hall c (includes_chars _ _ _ Hp Hc)) in Hbad. discriminate.
  - unfold suspiciousPatterns. cbn [existsb]. rewrite orb_false_r.
    apply orb_false_iff. split; [|apply orb_false_iff; split].
    + apply not_true_is_false. intros H. apply existsb_exists in H as [c [Hc Hctl]].
      rewrite (cleanChar_not_control c (Hall c Hc)) in Hctl. discriminate.
    + apply not_true_is_false. intros H. rewrite forallb_forall in H.
      specialize (H _ Hcolon). discriminate.
    + apply not_true_is_false. intros H.
      assert (In 46%N s) as Hdot by (eapply includes_chars; [exact H|left; reflexivity]).
      specialize (Hall _ Hdot). discriminate.
Qed.

End NamespaceFormat.

(** X4: a namespace that [Validator.validateNamespace] accepts and that
    has at most 128 units is kept as it is by the guard's constructor and
    passes the guard's own [validateNamespaceFormat]: in particular the
    guard never takes it for an escape attempt. *)
Theorem validated_namespace_is_well_formed (ns : jsstring) :
  Validator.validateNamespace ns = true ->
  len ns <= 128 ->
  NamespaceManager.namespace (NamespaceManager.new ns) = ns
  /\ NamespaceManager.validateNamespaceFormat (NamespaceManager.new ns) = true.
Proof.
  unfold Validator.validateNamespace. intros Hv Hlen.
  destruct (falsy ns); [discriminate|].
  destruct (endsWith ns (lit ":")) eqn:He; [|discriminate]. cbn [negb] in Hv.
  destruct (Validator.validPattern ns) eqn:Hp; [|discriminate].
  pose proof (new_namespace ns He) as Hnew. split; [exact Hnew|].
  unfold NamespaceManager.validateNamespaceFormat. rewrite Hnew, He. cbn [negb].
  apply validPattern_shape in Hp as (body & -> & Hb & Hall).
  assert ((len (body ++ [58%N]) <=? 1) = false) as ->.
  { apply Z.leb_gt. unfold len. rewrite length_app. cbn [length].
    destruct body; [congruence|]. cbn [length]. lia. }
  rewrite clean_no_escape.
  - destruct (Z.ltb_spec 128 (len (body ++ [58%N]))); [lia | reflexivity].
  - rewrite forallb_app. apply andb_true_iff. split; [|reflexivity].
    rewrite forallb_forall in *. intros c Hc. unfold Spec.cleanChar.
    rewrite (Hall c Hc). reflexivity.
  - apply in_or_app. right. left. reflexivity.
Qed.

Lemma validated_namespace_is_well_formed_witness :
  NamespaceManager.namespace (NamespaceManager.new (lit "my-app_1:"))
  = lit "my-app_1:"
  /\ NamespaceManager.validateNamespaceFormat
       (NamespaceManager.new (lit "my-app_1:")) = true.
Proof.
  apply (validated_namespace_is_well_formed (lit "my-app_1:")).
  - reflexivity.
  - vm_compute. discriminate.
Defined.

(** ** The rate limiter: remaining requests, the window bound, the reset
    time *)

Section RateFacts.

Lemma recent_recent now l : Spec.recent now (Spec.recent now l) = Spec.recent now l.
Proof.
  unfold Spec.recent. induction l as [|x l IH]; [reflexivity|].
  cbn [List.filter]. destruct (bool_decide (now - x < 60000)) eqn:E;
    [|exact IH].
  cbn [List.filter]. rewrite E, IH. reflexivity.
Qed.

Lemma recent_app now l l' :
  Spec.recent now (l ++ l') = Spec.recent now l ++ Spec.recent now l'.
Proof. apply List.filter_app. Qed.

Lemma recent_now now : Spec.recent now [now] = [now].
Proof.
  unfold Spec.recent. cbn [List.filter].
  rewrite bool_decide_eq_true_2 by lia. reflexivity.
Qed.

Lemma recent_length now l : (length (Spec.recent now l) <= length l)%nat.
Proof. apply List.filter_length_le. Qed.

Lemma recent_shorter now l x :
  In x l -> 60000 <= now - x -> (length (Spec.recent now l) < length l)%nat.
Proof.
  intros Hin Hx. unfold Spec.recent. induction l as [|y l IH]; [destruct Hin|].
  cbn [List.filter length].
  pose proof (recent_length now l) as Hl. unfold Spec.recent in Hl.
  destruct Hin as [->|Hin].
  - rewrite bool_decide_eq_false_2 by lia. lia.
  - specialize (IH Hin). destruct (bool_decide _); cbn [length]; lia.
Qed.

Lemma minimum_in x l : In (RateLimiter.minimum x l) (x :: l).
Proof.
  unfold RateLimiter.minimum. revert x.
  induction l as [|y l IH]; intros x; [left; reflexivity|].
  cbn [fold_left]. destruct (IH (Z.min x y)) as [E|Hin].
  - rewrite <- E. destruct (Z.min_spec x y) as [[_ ->]|[_ ->]];
      [left | right; left]; reflexivity.
  - right. right. exact Hin.
Qed.

End RateFacts.

(** X5: [checkLimit] admits a request exactly when [getRemainingRequests]
    read at the same instant is positive, and a request it admits lowers
    the remaining count by one. *)
Theorem checkLimit_agrees_with_remaining (c : ClientConnection) (now : Z) :
  fst (RateLimiter.checkLimit c now)
  = (0 <? fst (RateLimiter.getRemainingRequests c now))
  /\ (fst (RateLimiter.checkLimit c now) = true ->
      fst (RateLimiter.getRemainingRequests (RateLimiter.checkLimit c now).2 now)
      = fst (RateLimiter.getRemainingRequests c now) - 1).
Proof.
  rewrite checkLimit_spec. cbn zeta. cbn [fst snd].
  unfold RateLimiter.getRemainingRequests, initState.
  cbn [rateLimitState set_rateLimitState requests limits].
  destruct (rateLimitState c) as [st|]; cbn [fst requests].
  - rewrite !filter_recent.
    set (n := Z.of_nat (length (Spec.recent now (requests st)))).
    destruct (decide (mps (limits c) <= n)) as [Hle|Hgt].
    + rewrite (bool_decide_eq_true_2 _ Hle). cbn [negb].
      split; [symmetry; apply Z.ltb_ge; lia | discriminate].
    + rewrite (bool_decide_eq_false_2 _ Hgt). cbn [negb].
      split; [symmetry; apply Z.ltb_lt; lia|]. intros _.
      rewrite recent_app, recent_recent, recent_now, length_app.
      cbn [length]. fold n. lia.
  - cbn [length Spec.recent List.filter].
    destruct (decide (mps (limits c) <= 0)) as [Hle|Hgt].
    + rewrite (bool_decide_eq_true_2 _ Hle). cbn [negb].
      split; [symmetry; apply Z.ltb_ge; lia | discriminate].
    + rewrite (bool_decide_eq_false_2 _ Hgt). cbn [negb].
      split; [symmetry; apply Z.ltb_lt; lia|]. intros _.
      rewrite filter_recent. cbn [app]. rewrite recent_now. cbn [length]. lia.
Qed.

Lemma checkLimit_agrees_with_remaining_witness :
  fst (RateLimiter.getRemainingRequests
         (RateLimiter.checkLimit Examples.alice 1000).2 1000)
  = fst (RateLimiter.getRemainingRequests Examples.alice 1000) - 1.
Proof.
  apply (proj2 (checkLimit_agrees_with_remaining Examples.alice 1000)).
  vm_compute. reflexivity.
Defined.

(** X7: [getResetTime] is long enough: for a connection with a positive
    [mps] whose window holds at most [mps] timestamps, the request made
    [getResetTime] milliseconds later is admitted. *)
Theorem request_after_reset_time_is_admitted (c : ClientConnection) (now : Z) :
  0 < mps (limits c) ->
  Z.of_nat (length (requests (initState c))) <= mps (limits c) ->
  fst (RateLimiter.checkLimit c (now + RateLimiter.getResetTime c now)) = true.
Proof.
  intros Hmps Hlen. rewrite checkLimit_spec. cbn zeta. cbn [fst].
  apply negb_true_iff, bool_decide_eq_false_2.
  unfold RateLimiter.getResetTime, initState in *.
  destruct (rateLimitState c) as [st|]; [|cbn; lia].
  destruct (requests st) as [|x l] eqn:E; [cbn; lia|].
  cbn zeta.
  pose proof (minimum_in x l) as Hin.
  set (oldest := RateLimiter.minimum x l) in *.
  pose proof (recent_shorter
                (now + Z.max 0 (oldest + RateLimiter.windowMs - now))
                (x :: l) oldest Hin) as Hs.
  unfold RateLimiter.windowMs in *.
  specialize (Hs ltac:(lia)). lia.
Qed.

Lemma request_after_reset_time_is_admitted_witness :
  fst (RateLimiter.checkLimit Examples.busy
         (61000 + RateLimiter.getResetTime Examples.busy 61000)) = true.
Proof.
  apply (request_after_reset_time_is_admitted Examples.busy 61000).
  - reflexivity.
  - vm_compute. discriminate.
Defined.

Section WindowBound.

Import ProtocolRouter NostrKVServer.

Lemma handleRequest_bounded this env request c :
  Z.of_nat (length (requests (initState c))) <= Z.max 0 (mps (limits c)) ->
  let c' := (handleRequest this env request c).2 in
  Z.of_nat (length (requests (initState c'))) <= Z.max 0 (mps (limits c')).
Proof.
  intros Hb. cbn zeta.
  destruct (handleRequest_window this env request c) as (-> & _ & _ & _ & ->).
  pose proof (recent_length (t_rate env) (requests (initState c))) as Hr.
  unfold Spec.stageOf.
  destruct (Schema.baseRequestSchema request) as [r|]; [|exact Hb].
  destruct (Spec.cachedFor _ _ _ _); [exact Hb|].
  destruct (negb _); [exact Hb|].
  destruct (bool_decide (mps (limits c) <= _)) eqn:E; [lia|].
  apply bool_decide_eq_false_1 in E.
  destruct (bool_decide _); rewrite length_app; cbn [length]; lia.
Qed.

Lemma connectionOf_bounded this p :
  Spec.windowsBounded this ->
  Z.of_nat (length (requests (initState (connectionOf this p))))
  <= Z.max 0 (mps (limits (connectionOf this p))).
Proof.
  intros Hb. unfold connectionOf, loadConnectionFromRegistry.
  destruct (connections this !! p) as [c|] eqn:E; [exact (Hb p c E)|].
  destruct (registryFile this !! p); cbn; lia.
Qed.

Lemma windowsBounded_step this env event :
  Spec.windowsBounded this ->
  Spec.windowsBounded (handleIncomingEvent this env event).2.
Proof.
  intros Hb. rewrite handleIncomingEvent_request.
  destruct (Spec.requestOf event) as [request|]; [|exact Hb].
  cbn zeta. cbn [snd]. intros p c. cbn [connections update].
  destruct (decide (ev_pubkey event = p)) as [<-|Hne].
  - rewrite lookup_insert_eq. intros [= <-].
    apply handleRequest_bounded, connectionOf_bounded, Hb.
  - rewrite lookup_insert_ne by assumption. apply Hb.
Qed.

End WindowBound.

(** X6: the request window of a connection never holds more timestamps
    than its [mps]: the bound holds for a server without connections and
    is kept by every run of events, whatever the clocks read. *)
Theorem request_windows_stay_bounded
    (this : NostrKVServer.t) (events : list (Env * NostrKVServer.Event)) :
  Spec.windowsBounded this ->
  Spec.windowsBounded (NostrKVServer.run this events).2.
Proof.
  revert this. induction events as [|[env event] events IH]; intros this Hb;
    [exact Hb|].
  cbn [NostrKVServer.run].
  pose proof (windowsBounded_step this env event Hb) as Hstep.
  destruct (NostrKVServer.handleIncomingEvent this env event) as [response this'].
  specialize (IH this' Hstep).
  destruct (NostrKVServer.run this' events) as [responses final]. exact IH.
Qed.

Lemma request_windows_stay_bounded_witness :
  Spec.windowsBounded (NostrKVServer.run Examples.server0 Examples.burst).2.
Proof.
  apply (request_windows_stay_bounded Examples.server0 Examples.burst).
  intros p c H. discriminate.
Defined.

(** ** The byte budget: remaining budget and consumption *)

(** X8: [checkBudget] admits a request of [n > 0] bytes exactly when [n]
    is at most what [getRemainingBudget] reports at the same instant. *)
Theorem checkBudget_agrees_with_remaining
    (c : ClientConnection) (now n : Z) :
  0 < n ->
  fst (BudgetManager.checkBudget c now n)
  = (n <=? fst (BudgetManager.getRemainingBudget c now)).
Proof.
  intros Hn. rewrite checkBudget_spec. cbn [fst].
  unfold BudgetManager.getRemainingBudget, BudgetManager.getCurrentUsage, initState.
  destruct (rateLimitState c) as [st|]; cbn [fst byteRecords].
  - rewrite usage_windowBytes.
    set (u := Spec.windowBytes now (byteRecords st)).
    destruct (decide (u + n <= bps (limits c))) as [Hle|Hgt].
    + rewrite (bool_decide_eq_true_2 _ Hle). symmetry. apply Z.leb_le. lia.
    + rewrite (bool_decide_eq_false_2 _ Hgt). symmetry. apply Z.leb_gt. lia.
  - change (Spec.windowBytes now []) with 0.
    destruct (decide (0 + n <= bps (limits c))) as [Hle|Hgt].
    + rewrite (bool_decide_eq_true_2 _ Hle). symmetry. apply Z.leb_le. lia.
    + rewrite (bool_decide_eq_false_2 _ Hgt). symmetry. apply Z.leb_gt. lia.
Qed.

Lemma checkBudget_agrees_with_remaining_witness :
  fst (BudgetManager.checkBudget Examples.erin 1000 101)
  = (101 <=? fst (BudgetManager.getRemainingBudget Examples.erin 1000)).
Proof.
  apply (checkBudget_agrees_with_remaining Examples.erin 1000 101).
  reflexivity.
Defined.

Lemma inWindow_filter_idem now l :
  List.filter (BudgetManager.inWindow now) (List.filter (BudgetManager.inWindow now) l)
  = List.filter (BudgetManager.inWindow now) l.
Proof.
  induction l as [|x l IH]; [reflexivity|]. cbn [List.filter].
  destruct (BudgetManager.inWindow now x) eqn:E; [|exact IH].
  cbn [List.filter]. rewrite E, IH. reflexivity.
Qed.

Lemma usage_app l l' :
  BudgetManager.usage (l ++ l') = BudgetManager.usage l + BudgetManager.usage l'.
Proof.
  unfold BudgetManager.usage. rewrite fold_left_app, !usage_sum. lia.
Qed.

(** X9: bytes consumed are counted at once: the usage read at the instant
    of a [consumeBudget] of [n] bytes is the usage before it plus [n]. *)
Theorem consumed_bytes_are_counted (c : ClientConnection) (now n : Z) :
  fst (BudgetManager.getCurrentUsage (BudgetManager.consumeBudget c now now n) now)
  = fst (BudgetManager.getCurrentUsage c now) + n.
Proof.
  rewrite consumeBudget_spec.
  unfold BudgetManager.getCurrentUsage at 1.
  cbn [rateLimitState set_rateLimitState fst byteRecords].
  rewrite inWindow_filter_idem, List.filter_app, usage_app.
  cbn [List.filter]. unfold BudgetManager.inWindow at 2.
  cbn [timestamp]. unfold BudgetManager.windowMs.
  replace (now - now <? 60000) with true by (symmetry; apply Z.ltb_lt; lia).
  unfold BudgetManager.getCurrentUsage, initState.
  destruct (rateLimitState c) as [st|]; cbn [fst byteRecords List.filter].
  - unfold BudgetManager.usage at 2. cbn. lia.
  - unfold BudgetManager.usage. cbn. lia.
Qed.

(** ** The idempotency cache: lookup after insertion, the sweep *)

Section CacheFacts.

Lemma cache_get_result ic now p i :
  fst (IdempotencyCache.get ic now p i)
  = match IdempotencyCache.cache ic !! IdempotencyCache.getCacheKey p i with
    | Some c =>
        if bool_decide (now - IdempotencyCache.cachedAt c
                        <= IdempotencyCache.windowMs ic)
        then Some (IdempotencyCache.response c) else None
    | None => None
    end.
Proof.
  unfold IdempotencyCache.get.
  destruct (IdempotencyCache.cache ic !! _) as [c|]; [|reflexivity].
  destruct (Z.ltb_spec (IdempotencyCache.windowMs ic)
              (now - IdempotencyCache.cachedAt c)).
  - rewrite bool_decide_eq_false_2 by lia. reflexivity.
  - rewrite bool_decide_eq_true_2 by lia. reflexivity.
Qed.

End CacheFacts.

(** X10: a response filed with [set] at time [t] is what [get] returns
    for the same client and id as long as the lookup is at most [windowMs]
    later; a later lookup returns nothing and evicts the entry. *)
Theorem cache_get_after_set
    (ic : IdempotencyCache.t) (t t' : Z) (p i : jsstring) (r : KVResponse) :
  let filed := IdempotencyCache.set ic t p i r in
  (t' - t <= IdempotencyCache.windowMs ic ->
   IdempotencyCache.get filed t' p i = (Some r, filed))
  /\ (IdempotencyCache.windowMs ic < t' - t ->
      fst (IdempotencyCache.get filed t' p i) = None
      /\ IdempotencyCache.cache (IdempotencyCache.get filed t' p i).2
         !! IdempotencyCache.getCacheKey p i = None).
Proof.
  cbn zeta. unfold IdempotencyCache.get, IdempotencyCache.set.
  cbn [IdempotencyCache.cache IdempotencyCache.windowMs].
  rewrite lookup_insert_eq. cbn [IdempotencyCache.cachedAt IdempotencyCache.response].
  split; intros H.
  - destruct (Z.ltb_spec (IdempotencyCache.windowMs ic) (t' - t)); [lia|].
    reflexivity.
  - destruct (Z.ltb_spec (IdempotencyCache.windowMs ic) (t' - t)); [|lia].
    cbn [fst snd IdempotencyCache.cache]. split; [reflexivity|].
    apply lookup_delete_eq.
Qed.

Lemma cache_get_after_set_witness :
  let filed := IdempotencyCache.set IdempotencyCache.new 1000 (lit "p") (lit "i")
                 (ProtocolRouter.okResponse None JNull) in
  IdempotencyCache.get filed 61000 (lit "p") (lit "i")
  = (Some (ProtocolRouter.okResponse None JNull), filed)
  /\ fst (IdempotencyCache.get filed 61001 (lit "p") (lit "i")) = None.
Proof.
  split.
  - apply (proj1 (cache_get_after_set IdempotencyCache.new 1000 61000 (lit "p")
                    (lit "i") (ProtocolRouter.okResponse None JNull))).
    cbn. lia.
  - apply (proj2 (cache_get_after_set IdempotencyCache.new 1000 61001 (lit "p")
                    (lit "i") (ProtocolRouter.okResponse None JNull))).
    cbn. lia.
Defined.

(** X11: the periodic sweep removes exactly the expired entries, and it
    never changes the answer of a lookup made at the time of the sweep or
    later. *)
Theorem cleanup_keeps_lookups
    (ic : IdempotencyCache.t) (now now' : Z) (p i : jsstring) :
  (forall k c,
      IdempotencyCache.cache (IdempotencyCache.cleanup ic now) !! k = Some c
      <-> IdempotencyCache.cache ic !! k = Some c
          /\ now - IdempotencyCache.cachedAt c <= IdempotencyCache.windowMs ic)
  /\ (now <= now' ->
      fst (IdempotencyCache.get (IdempotencyCache.cleanup ic now) now' p i)
      = fst (IdempotencyCache.get ic now' p i)).
Proof.
  assert (forall k c,
      IdempotencyCache.cache (IdempotencyCache.cleanup ic now) !! k = Some c
      <-> IdempotencyCache.cache ic !! k = Some c
          /\ now - IdempotencyCache.cachedAt c <= IdempotencyCache.windowMs ic)
    as Hsweep.
  { intros k c. unfold IdempotencyCache.cleanup. cbn [IdempotencyCache.cache].
    rewrite map_lookup_filter_Some. cbn [snd]. split; intros [H1 H2]; split; auto; lia. }
  split; [exact Hsweep|]. intros Hle.
  rewrite !cache_get_result.
  change (IdempotencyCache.windowMs (IdempotencyCache.cleanup ic now))
    with (IdempotencyCache.windowMs ic).
  destruct (IdempotencyCache.cache (IdempotencyCache.cleanup ic now)
            !! IdempotencyCache.getCacheKey p i) as [c|] eqn:E.
  - apply Hsweep in E as [-> _]. reflexivity.
  - destruct (IdempotencyCache.cache ic !! IdempotencyCache.getCacheKey p i)
      as [c|] eqn:E'; [|reflexivity].
    destruct (decide (now - IdempotencyCache.cachedAt c
                      <= IdempotencyCache.windowMs ic)) as [Hin|Hout].
    + rewrite (proj2 (Hsweep _ c) (conj E' Hin)) in E. discriminate.
    + rewrite bool_decide_eq_false_2 by lia. reflexivity.
Qed.

Lemma cleanup_keeps_lookups_witness :
  let filed := IdempotencyCache.set IdempotencyCache.new 1000 (lit "p") (lit "i")
                 (ProtocolRouter.okResponse None JNull) in
  fst (IdempotencyCache.get (IdempotencyCache.cleanup filed 30000) 61000
         (lit "p") (lit "i"))
  = fst (IdempotencyCache.get filed 61000 (lit "p") (lit "i")).
Proof.
  apply (proj2 (cleanup_keeps_lookups
                  (IdempotencyCache.set IdempotencyCache.new 1000 (lit "p")
                     (lit "i") (ProtocolRouter.okResponse None JNull))
                  30000 61000 (lit "p") (lit "i"))).
  lia.
Defined.

(** ** The backend adapter: what [get] returns *)

Section Base64.

Lemma unbase64_digit64 v :
  (v < 64)%N -> Buffer.unbase64 (Buffer.digit64 v) = Some v.
Proof.
  intros H.
  assert (In v (List.map N.of_nat (seq 0 64))) as Hin.
  { apply in_map_iff. exists (N.to_nat v). split; [lia|]. apply in_seq. lia. }
  assert (forallb (fun v => match Buffer.unbase64 (Buffer.digit64 v) with
                            | Some v' => N.eqb v' v
                            | None => false
                            end)
            (List.map N.of_nat (seq 0 64)) = true) as HF
    by (vm_compute; reflexivity).
  rewrite forallb_forall in HF. specialize (HF v Hin).
  destruct (Buffer.unbase64 (Buffer.digit64 v)) as [v'|]; [|discriminate].
  apply N.eqb_eq in HF. congruence.
Qed.

Lemma bytes_ind3 (P : list N -> Prop) :
  P [] -> (forall x, P [x]) -> (forall x y, P [x; y]) ->
  (forall x y z b, P b -> P (x :: y :: z :: b)) ->
  forall b, P b.
Proof.
  intros H0 H1 H2 H3 b.
  assert (forall n b, (length b <= n)%nat -> P b) as Hn.
  { clear b. induction n as [|n IH]; intros [|x [|y [|z b]]] Hl; auto;
      cbn [length] in Hl; try lia.
    apply H3, IH. lia. }
  apply (Hn (length b)). lia.
Qed.

Lemma lowByte_digit64 v :
  (v < 64)%N -> Buffer.lowByte (Buffer.digit64 v) = Buffer.digit64 v.
Proof.
  intros H. apply N.mod_small. unfold Buffer.digit64.
  destruct (N.ltb_spec v 26); [lia|].
  destruct (N.ltb_spec v 52); [lia|].
  destruct (N.ltb_spec v 62); [lia|].
  destruct (N.eqb_spec v 62); lia.
Qed.

Lemma sextets_digit v s :
  (v < 64)%N ->
  Buffer.sextets (Buffer.digit64 v :: s) = v :: Buffer.sextets s.
Proof.
  intros H. cbn [Buffer.sextets].
  rewrite lowByte_digit64, unbase64_digit64 by exact H. reflexivity.
Qed.

Lemma sextets_pad s : Buffer.sextets (61%N :: s) = [].
Proof. reflexivity. Qed.

Lemma unpack_to_base64 b :
  Forall (fun x => (x < 256)%N) b ->
  forall fuel, (length (Buffer.sextets (Buffer.to_base64 b)) <= fuel)%nat ->
  Buffer.unpack fuel (Buffer.sextets (Buffer.to_base64 b)) = b.
Proof.
  induction b as [|x|x y|x y z b IH] using bytes_ind3; intros Hb fuel Hf.
  - destruct fuel; reflexivity.
  - apply list.Forall_cons in Hb as [Hx _].
    cbn [Buffer.to_base64] in Hf |- *.
    rewrite !sextets_digit, !sextets_pad in Hf |- * by div_mod_lia.
    destruct fuel; [cbn in Hf; lia|]. cbn [Buffer.unpack].
    f_equal. div_mod_lia.
  - apply list.Forall_cons in Hb as [Hx Hb].
    apply list.Forall_cons in Hb as [Hy _].
    cbn [Buffer.to_base64] in Hf |- *.
    rewrite !sextets_digit, !sextets_pad in Hf |- * by div_mod_lia.
    destruct fuel; [cbn in Hf; lia|]. cbn [Buffer.unpack].
    f_equal; [|f_equal]; div_mod_lia.
  - apply list.Forall_cons in Hb as [Hx Hb].
    apply list.Forall_cons in Hb as [Hy Hb].
    apply list.Forall_cons in Hb as [Hz Hb].
    cbn [Buffer.to_base64] in Hf |- *.
    rewrite !sextets_digit in Hf |- * by div_mod_lia.
    destruct fuel; [cbn in Hf; lia|]. cbn [Buffer.unpack].
    rewrite IH by (auto; cbn [length] in Hf; lia).
    f_equal; [|f_equal; [|f_equal]]; div_mod_lia.
Qed.

Lemma from_base64_to_base64 b :
  Forall (fun x => (x < 256)%N) b ->
  Buffer.from_base64 (Buffer.to_base64 b) = b.
Proof.
  intros Hb. unfold Buffer.from_base64. apply unpack_to_base64; auto.
Qed.

End Base64.

Section Utf8.

Lemma decInv0 : Buffer.decInv Buffer.dec0.
Proof. split; [vm_compute; discriminate | exact I]. Qed.

Lemma lead_bound b :
  Forall Buffer.small (Buffer.lead b).1 /\ Buffer.decInv (Buffer.lead b).2.
Proof.
  unfold Buffer.lead, Buffer.small.
  repeat match goal with
         | |- context [(?a <? ?c)%N] => destruct (N.ltb_spec a c)
         | |- context [(?a <=? ?c)%N] => destruct (N.leb_spec a c)
         | |- context [(?a =? ?c)%N] => destruct (N.eqb_spec a c)
         end;
    cbn [andb fst snd]; (split; [repeat constructor; lia | try apply decInv0]);
    split; cbn [Buffer.d_hi Buffer.d_need Buffer.d_cp]; lia.
Qed.

Lemma feed_bound st b :
  Buffer.decInv st ->
  Forall Buffer.small (Buffer.feed st b).1
  /\ Buffer.decInv (Buffer.feed st b).2.
Proof.
  intros [Hhi Hcp]. unfold Buffer.feed.
  destruct (Buffer.d_need st) as [|[|[|[|n]]]]; try contradiction.
  - apply lead_bound.
  - destruct (N.leb_spec (Buffer.d_lo st) b), (N.leb_spec b (Buffer.d_hi st));
      cbn [andb];
      try (pose proof (lead_bound b) as [? ?]; destruct (Buffer.lead b);
           cbn [fst snd] in *;
           split; [constructor; [unfold Buffer.small; lia|]|]; assumption).
    cbn [fst snd]. split; [|apply decInv0].
    repeat constructor. unfold Buffer.small. lia.
  - destruct (N.leb_spec (Buffer.d_lo st) b), (N.leb_spec b (Buffer.d_hi st));
      cbn [andb];
      try (pose proof (lead_bound b) as [? ?]; destruct (Buffer.lead b);
           cbn [fst snd] in *;
           split; [constructor; [unfold Buffer.small; lia|]|]; assumption).
    cbn [fst snd]. split; [constructor|].
    split; cbn [Buffer.d_hi Buffer.d_need Buffer.d_cp]; lia.
  - destruct (N.leb_spec (Buffer.d_lo st) b), (N.leb_spec b (Buffer.d_hi st));
      cbn [andb];
      try (pose proof (lead_bound b) as [? ?]; destruct (Buffer.lead b);
           cbn [fst snd] in *;
           split; [constructor; [unfold Buffer.small; lia|]|]; assumption).
    cbn [fst snd]. split; [constructor|].
    split; cbn [Buffer.d_hi Buffer.d_need Buffer.d_cp]; lia.
Qed.

Lemma decode_points_bound b :
  forall st, Buffer.decInv st -> Forall Buffer.small (Buffer.decode_points st b).
Proof.
  induction b as [|x b IH]; intros st Hst; cbn [Buffer.decode_points].
  - destruct (Buffer.d_need st); repeat constructor.
  - pose proof (feed_bound st x Hst) as [Hout Hst'].
    destruct (Buffer.feed st x) as [out st']. cbn [fst snd] in *.
    apply Forall_app. split; [exact Hout | apply IH, Hst'].
Qed.

Lemma Forall_concat_map {A B} (P : B -> Prop) (Q : A -> Prop) (f : A -> list B) l :
  (forall a, Q a -> Forall P (f a)) -> Forall Q l ->
  Forall P (List.concat (List.map f l)).
Proof.
  intros Hf. induction 1 as [|a l Ha _ IH]; cbn [List.map List.concat].
  - constructor.
  - apply Forall_app. split; auto.
Qed.

Lemma to_utf8_string_units b : Forall Buffer.unit16 (Buffer.to_utf8_string b).
Proof.
  unfold Buffer.to_utf8_string.
  apply Forall_concat_map with (Q := Buffer.small);
    [|apply decode_points_bound, decInv0].
  intros p Hp. unfold Buffer.units_of_point, Buffer.small, Buffer.unit16 in *.
  destruct (N.ltb_spec p 65536); repeat constructor; try lia;
    zify; Z.to_euclidean_division_equations; lia.
Qed.

Lemma points_bound s :
  Forall Buffer.unit16 s -> Forall (fun p => (p < 1114112)%N) (Buffer.points s).
Proof.
  assert (forall n s, (length s <= n)%nat -> Forall Buffer.unit16 s ->
                      Forall (fun p => (p < 1114112)%N) (Buffer.points s)) as Hn.
  { clear s. induction n as [|n IH]; intros [|c s] Hl Hs;
      cbn [length] in Hl; try lia; try constructor.
    apply list.Forall_cons in Hs as [Hc Hs]. unfold Buffer.unit16 in Hc.
    cbn [Buffer.points].
    destruct (Buffer.isHigh c) eqn:Eh.
    - destruct s as [|d s]; [repeat constructor|].
      pose proof Hs as Hs'.
      apply list.Forall_cons in Hs' as [Hd Hs']. unfold Buffer.unit16 in Hd.
      cbn [length] in Hl.
      destruct (Buffer.isLow d) eqn:El.
      + constructor; [|apply IH; [lia | exact Hs']].
        unfold Buffer.isHigh, Buffer.isLow in Eh, El.
        apply andb_true_iff in Eh as [_ Eh%N.leb_le].
        apply andb_true_iff in El as [_ El%N.leb_le]. lia.
      + constructor; [reflexivity | apply IH; [cbn [length]; lia | exact Hs]].
    - destruct (Buffer.isLow c);
        (constructor; [cbv beta; lia | apply IH; [lia | exact Hs]]). }
  apply (Hn (length s)). lia.
Qed.

Lemma from_utf8_octets s :
  Forall Buffer.unit16 s -> Forall Buffer.octet (Buffer.from_utf8 s).
Proof.
  intros Hs. unfold Buffer.from_utf8.
  apply Forall_concat_map with (Q := fun p => (p < 1114112)%N);
    [|apply points_bound, Hs].
  intros p Hp. unfold Buffer.utf8_of_point, Buffer.octet.
  destruct (N.ltb_spec p 128); [repeat constructor; lia|].
  destruct (N.ltb_spec p 2048);
    [repeat constructor; zify; Z.to_euclidean_division_equations; lia|].
  destruct (N.ltb_spec p 65536);
    repeat constructor; zify; Z.to_euclidean_division_equations; lia.
Qed.

End Utf8.

Section Adapter.

Lemma isBase64_to_base64 b :
  Forall Buffer.octet b -> KVAdapter.isBase64 (Buffer.to_base64 b) = true.
Proof.
  intros Hb. unfold KVAdapter.isBase64.
  rewrite from_base64_to_base64 by exact Hb. apply str_eqb_eq. reflexivity.
Qed.

Lemma encodeReply_isBase64 value :
  Forall Buffer.unit16 value ->
  KVAdapter.isBase64 (KVAdapter.encodeReply value) = true.
Proof.
  intros Hv. unfold KVAdapter.encodeReply.
  destruct (KVAdapter.isBase64 value) eqn:E; [exact E|].
  apply isBase64_to_base64, from_utf8_octets, Hv.
Qed.

Lemma redis_get_units redis now key value :
  Redis.get redis now key = Some (Some value) -> Forall Buffer.unit16 value.
Proof.
  unfold Redis.get.
  destruct (Redis.read redis now key) as [[e|l d]|]; try discriminate.
  intros [= <-]. apply to_utf8_string_units.
Qed.

Lemma to_utf8_string_ascii b :
  Forall Buffer.ascii7 b -> Buffer.to_utf8_string b = b.
Proof.
  unfold Buffer.to_utf8_string. induction 1 as [|x b Hx _ IH]; [reflexivity|].
  unfold Buffer.ascii7 in Hx.
  cbn [Buffer.decode_points Buffer.feed Buffer.dec0 Buffer.d_need].
  unfold Buffer.lead. destruct (N.ltb_spec x 128); [|lia].
  cbn [app List.map List.concat]. fold Buffer.dec0. rewrite IH.
  unfold Buffer.units_of_point. destruct (N.ltb_spec x 65536); [|lia]. reflexivity.
Qed.

Lemma from_utf8_ascii s : Forall Buffer.ascii7 s -> Buffer.from_utf8 s = s.
Proof.
  unfold Buffer.from_utf8. induction 1 as [|c s Hc _ IH]; [reflexivity|].
  unfold Buffer.ascii7 in Hc. cbn [Buffer.points]. unfold Buffer.isHigh, Buffer.isLow.
  destruct (N.leb_spec 55296 c); [lia|]. destruct (N.leb_spec 56320 c); [lia|].
  cbn [andb List.map List.concat]. rewrite IH.
  unfold Buffer.utf8_of_point. destruct (N.ltb_spec c 128); [|lia]. reflexivity.
Qed.

End Adapter.

(** X12: whatever the store holds, a value returned by [get], and every
    value in the list returned by [mget], is well-formed base-64: decoding
    and re-encoding it gives the same text. *)
Theorem get_returns_base64
    (redis : Redis.t) (up : bool) (now : Z) :
  (forall key v,
      fst (KVAdapter.get redis up now key) = Some (Some v) ->
      KVAdapter.isBase64 v = true)
  /\ (forall keys vs,
         fst (KVAdapter.mget redis up now keys) = Some vs ->
         length vs = length keys
         /\ Forall (fun o => forall v, o = Some v -> KVAdapter.isBase64 v = true) vs).
Proof.
  split.
  - intros key v. unfold KVAdapter.get. destruct up; [|discriminate].
    destruct (Redis.get _ now key) as [[value|]|] eqn:E; try discriminate.
    intros [= <-]. apply encodeReply_isBase64. eapply redis_get_units, E.
  - intros keys vs. unfold KVAdapter.mget. destruct up; [|discriminate].
    intros [= <-]. unfold Redis.mget. rewrite !length_map. split; [reflexivity|].
    rewrite List.map_map. apply List.Forall_map, List.Forall_forall.
    intros key _ v.
    destruct (Redis.read _ now key) as [[e|l d]|]; try discriminate.
    intros [= <-]. apply encodeReply_isBase64, to_utf8_string_units.
Qed.

(** X13: the round trip that does hold.  A value that is the base-64 of
    7-bit text which is not itself well-formed base-64 is returned by
    [get] exactly as it was given to [set], as long as the key has not
    expired. *)
Theorem get_after_set_of_plain_text
    (redis : Redis.t) (now now' : Z) (key value : jsstring) (ttl : option Z) :
  KVAdapter.isBase64 value = true ->
  Forall Buffer.ascii7 (Buffer.from_base64 value) ->
  KVAdapter.isBase64 (Buffer.to_utf8_string (Buffer.from_base64 value)) = false ->
  (forall n, ttl = Some n -> 0 < n -> now' < now + n * 1000) ->
  fst (KVAdapter.get (snd (KVAdapter.set redis true now key value ttl))
         true now' key)
  = Some (Some value).
Proof.
  intros Hv Hascii Hplain Hlive.
  unfold KVAdapter.set, KVAdapter.get. cbn [snd fst].
  set (ex := match ttl with
             | Some n => if negb (n =? 0) && (0 <? n) then Some n else None
             | None => None
             end).
  unfold Redis.get, Redis.read, Redis.issue, Redis.set, Redis.store.
  cbn [Redis.slots]. rewrite lookup_insert_eq.
  assert (Redis.live now'
            (Redis.String
               {| Redis.value := Buffer.from_base64 value;
                  Redis.expireAt := match ex with
                                    | Some ttl0 => Some (now + ttl0 * 1000)
                                    | None => None
                                    end |}) = true) as ->.
  { unfold Redis.live. cbn [Redis.deadlineOf Redis.expireAt]. subst ex.
    destruct ttl as [n|]; [|reflexivity].
    destruct (Z.eqb_spec n 0); cbn [negb andb]; [reflexivity|].
    destruct (Z.ltb_spec 0 n); [|reflexivity].
    apply Z.ltb_lt, (Hlive n); [reflexivity | lia]. }
  cbn [Redis.value]. rewrite to_utf8_string_ascii by exact Hascii.
  unfold KVAdapter.encodeReply.
  rewrite to_utf8_string_ascii in Hplain by exact Hascii. rewrite Hplain.
  rewrite from_utf8_ascii by exact Hascii.
  unfold KVAdapter.isBase64 in Hv. apply str_eqb_eq in Hv. rewrite Hv.
  reflexivity.
Qed.

Lemma get_returns_base64_witness :
  KVAdapter.isBase64 (lit "aGkh") = true.
Proof.
  apply (proj1 (get_returns_base64
                  (snd (KVAdapter.set Redis.empty true 1000 (lit "appA:a")
                          (lit "aGkh") None)) true 2000) (lit "appA:a")).
  vm_compute. reflexivity.
Defined.

Lemma get_after_set_of_plain_text_witness :
  fst (KVAdapter.get
         (snd (KVAdapter.set Redis.empty true 1000 (lit "appA:a")
                 (lit "aGVsbG8gd29ybGQ=") (Some 60)))
         true 2000 (lit "appA:a"))
  = Some (Some (lit "aGVsbG8gd29ybGQ=")).
Proof.
  apply (get_after_set_of_plain_text Redis.empty 1000 2000 (lit "appA:a")
           (lit "aGVsbG8gd29ybGQ=") (Some 60)).
  - vm_compute. reflexivity.
  - set (decoded := Buffer.from_base64 _). vm_compute in decoded. subst decoded.
    repeat (constructor; [reflexivity|]). constructor.
  - vm_compute. reflexivity.
  - intros n [= <-] _. lia.
Defined.

(** ** The server: what traffic leaves alone *)

Section Permissions.

Import ProtocolRouter NostrKVServer.

Lemma policy_step this env event p :
  let this' := (handleIncomingEvent this env event).2 in
  Spec.policy (connectionOf this' p) = Spec.policy (connectionOf this p)
  /\ config_namespace this' = config_namespace this
  /\ config_limits this' = config_limits this
  /\ registryFile this' = registryFile this
  /\ (ev_pubkey event <> p -> connections this' !! p = connections this !! p).
Proof.
  cbn zeta. rewrite handleIncomingEvent_request.
  destruct (Spec.requestOf event) as [request|]; [|auto].
  cbn zeta. cbn [snd config_namespace config_limits registryFile update].
  split; [|repeat split; intros Hne; cbn [connections update];
           apply lookup_insert_ne, Hne].
  unfold connectionOf at 1, loadConnectionFromRegistry, createDefaultConnection.
  cbn [connections update registryFile config_namespace config_limits].
  destruct (decide (ev_pubkey event = p)) as [<-|Hne].
  - rewrite lookup_insert_eq.
    destruct (handleRequest_window (router this) env request
                (connectionOf this (ev_pubkey event))) as (Hl & _ & Hn & Ha & _).
    cbn zeta in Hl, Hn, Ha. unfold Spec.policy. rewrite Hl, Hn, Ha. reflexivity.
  - rewrite lookup_insert_ne by assumption. reflexivity.
Qed.

End Permissions.

(** X14: requests never change what a client is allowed.  Over any run of
    events every client keeps its namespace, its methods and its limits (as
    stored, or as the registry or the defaults give them), the
    configuration and the registry stay as they are, and the connection
    of a client that sent nothing is untouched. *)
Theorem traffic_keeps_permissions
    (this : NostrKVServer.t) (events : list (Env * NostrKVServer.Event))
    (p : jsstring) :
  let final := (NostrKVServer.run this events).2 in
  Spec.policy (NostrKVServer.connectionOf final p)
  = Spec.policy (NostrKVServer.connectionOf this p)
  /\ NostrKVServer.config_namespace final = NostrKVServer.config_namespace this
  /\ NostrKVServer.config_limits final = NostrKVServer.config_limits this
  /\ NostrKVServer.registryFile final = NostrKVServer.registryFile this
  /\ (Forall (fun e => NostrKVServer.ev_pubkey e.2 <> p) events ->
      NostrKVServer.connections final !! p = NostrKVServer.connections this !! p).
Proof.
  cbn zeta. revert this.
  induction events as [|[env event] events IH]; intros this; [auto|].
  cbn [NostrKVServer.run].
  pose proof (policy_step this env event p) as Hstep. cbn zeta in Hstep.
  destruct (NostrKVServer.handleIncomingEvent this env event) as [response this'].
  specialize (IH this').
  destruct (NostrKVServer.run this' events) as [responses final].
  cbn [snd] in *.
  destruct Hstep as (H1 & H2 & H3 & H4 & H5), IH as (I1 & I2 & I3 & I4 & I5).
  rewrite I1, I2, I3, I4. repeat split; try assumption.
  intros Hall. apply list.Forall_cons in Hall as [Hp Hall].
  rewrite (I5 Hall). apply H5, Hp.
Qed.

Lemma traffic_keeps_permissions_witness :
  NostrKVServer.connections (NostrKVServer.run Examples.server0 Examples.burst).2
    !! Examples.carolPubkey
  = NostrKVServer.connections Examples.server0 !! Examples.carolPubkey.
Proof.
  apply (traffic_keeps_permissions Examples.server0 Examples.burst
           Examples.carolPubkey).
  repeat (constructor; [vm_compute; discriminate|]). constructor.
Defined.

(** ** The router: what reaches the backend *)

(** X15: a request that is malformed, replayed from the cache, not
    allowed, rate-limited or over budget never reaches the backend: no
    command is issued and the stored data stay as they are. *)
Theorem refused_request_leaves_backend
    (this : ProtocolRouter.t) (env : Env) (request : JSON.t)
    (c : ClientConnection) :
  Spec.stageOf this env request c <> Spec.Dispatched ->
  ProtocolRouter.kvAdapter (ProtocolRouter.handleRequest this env request c).1.2
  = ProtocolRouter.kvAdapter this.
Proof.
  intros Hs. pose proof (handleRequest_backend this env request c) as H.
  cbn zeta in H.
  destruct (Spec.stageOf this env request c); try exact H.
  contradiction.
Qed.


Lemma refused_request_leaves_backend_witness :
  ProtocolRouter.kvAdapter
    (ProtocolRouter.handleRequest Examples.router0 (Examples.at_ 60000)
       Examples.setRequest Examples.busy).1.2
  = ProtocolRouter.kvAdapter Examples.router0.
Proof.
  apply (refused_request_leaves_backend Examples.router0 (Examples.at_ 60000)
           Examples.setRequest Examples.busy).
  vm_compute. discriminate.
Defined.


(** ** The router: the shape of an answer *)

Section Answers.

Import ProtocolRouter.

Lemma oneOf_error i code message : Spec.oneOf (errorResponse i code message).
Proof. reflexivity. Qed.

Lemma oneOf_ok i props : Spec.oneOf (okResponse i (JObj props)).
Proof. unfold Spec.oneOf. cbn. discriminate. Qed.

Lemma shaped_error r code message : Spec.shaped r (errorResponse (rid r) code message).
Proof. split; reflexivity. Qed.

Lemma shaped_ok r props : Spec.shaped r (okResponse (rid r) (JObj props)).
Proof. split; [reflexivity | apply oneOf_ok]. Qed.

Lemma withKey_shaped redis r c m key fail {A} (f : A -> list (jsstring * JSON.t))
    (call : jsstring -> option A * Redis.t) :
  Spec.shaped r (withKey redis r c m key fail
              (fun fk => reply (fun a => JObj (f a)) (call fk))).1.
Proof.
  unfold withKey, reply.
  destruct key as [key|]; [|apply shaped_error].
  destruct (negb _); [apply shaped_error|].
  destruct (fullKeyOf m key) as [fullKey|]; [|apply shaped_error].
  destruct (call fullKey) as [[a|] redis']; cbn [fst snd];
    [apply shaped_ok | apply shaped_error].
Qed.

Lemma mgetKeys_shaped r c m keys e :
  mgetKeys r c m keys = inl e -> Spec.shaped r e.
Proof.
  revert e. induction keys as [|k keys IH]; intros e; cbn [mgetKeys];
    [discriminate|].
  destruct (negb _); [intros [= <-]; apply shaped_error|].
  destruct (fullKeyOf m k); [|intros [= <-]; apply shaped_error].
  destruct (mgetKeys r c m keys) as [e'|]; [|discriminate].
  intros [= <-]. apply IH. reflexivity.
Qed.

Lemma dispatch_shaped this env r c m : Spec.shaped r (dispatch this env r c m).1.
Proof.
  unfold dispatch.
  destruct (str_eqb (method r) (lit "get_info")); [apply shaped_ok|].
  destruct (str_eqb (method r) (lit "get")).
  { exact (withKey_shaped _ r c m _ _
             (fun value => [ (lit "value", jsonOfValue value) ]) _). }
  destruct (str_eqb (method r) (lit "set")).
  { unfold handleSet. repeat case_match; simplify_eq; cbn [fst];
      first [apply shaped_error | apply shaped_ok]. }
  destruct (str_eqb (method r) (lit "del")).
  { exact (withKey_shaped _ r c m _ _
             (fun deleted => [ (lit "deleted", JNum deleted) ]) _). }
  destruct (str_eqb (method r) (lit "exists")).
  { exact (withKey_shaped _ r c m _ _
             (fun e => [ (lit "exists", JBool e) ]) _). }
  destruct (str_eqb (method r) (lit "mget")).
  { unfold handleMget. repeat case_match; simplify_eq; cbn [fst];
      first [apply shaped_error | apply shaped_ok
            | eapply mgetKeys_shaped; eassumption]. }
  destruct (str_eqb (method r) (lit "expire")).
  { unfold handleExpire. case_match; [|apply shaped_error]. case_match.
    exact (withKey_shaped _ r c m _ _ (fun ok => [ (lit "ok", JBool ok) ]) _). }
  destruct (str_eqb (method r) (lit "ttl")).
  { exact (withKey_shaped _ r c m _ _ (fun ttl => [ (lit "ttl", JNum ttl) ]) _). }
  apply shaped_error.
Qed.

Lemma caught_shaped request r :
  Schema.baseRequestSchema request = Some r ->
  exists resp, caught request = Some resp /\ Spec.shaped r resp.
Proof.
  unfold Schema.baseRequestSchema.
  destruct request as [| | | | |props]; try discriminate.
  destruct (JSON.lookup props (lit "method")) as [[| | |m| |]|]; try discriminate.
  destruct (JSON.lookup props (lit "params")) as [[| | | | |ps]|]; try discriminate.
  destruct (JSON.lookup props (lit "id")) as [[| | |i| |]|] eqn:Hi; try discriminate.
  intros [= <-]. eexists. split; [reflexivity|].
  split; [|reflexivity]. cbn [caught errorResponse resp_id JSON.prop rid id].
  exact Hi.
Qed.

End Answers.

(** X17: every well-formed request that is not replayed from the cache is
    answered, the answer carries the id of the request, and it carries
    either an error with a null result or a result that is not null. *)
Theorem answer_echoes_the_request_id
    (this : ProtocolRouter.t) (env : Env) (request : JSON.t)
    (c : ClientConnection) (r : KVRequest) :
  Schema.baseRequestSchema request = Some r ->
  Spec.stageOf this env request c <> Spec.Cached ->
  exists resp,
    (ProtocolRouter.handleRequest this env request c).1.1 = Some resp
    /\ resp_id resp = Some (JStr (id r))
    /\ Spec.oneOf resp.
Proof.
  intros Hp Hs.
  pose proof (handleRequest_by_stage this env request c) as H. cbn zeta in H.
  rewrite Hp in H.
  destruct (Spec.stageOf this env request c); try contradiction;
    try (rewrite H; eexists; split; [reflexivity|]; split; reflexivity).
  rewrite H, (finish_response _ _ _ _ _ _ Hp).
  destruct (Spec.keyHashable env request).
  - eexists. split; [reflexivity|]. apply dispatch_shaped.
  - apply caught_shaped, Hp.
Qed.

Lemma answer_echoes_the_request_id_witness :
  exists resp,
    (ProtocolRouter.handleRequest Examples.router0 (Examples.at_ 60000)
       Examples.setRequest Examples.busy).1.1 = Some resp
    /\ resp_id resp = Some (JStr (lit "r-1"))
    /\ Spec.oneOf resp.
Proof.
  apply (answer_echoes_the_request_id Examples.router0 (Examples.at_ 60000)
           Examples.setRequest Examples.busy
           {| method := lit "set";
              params := [ (lit "key", JStr (lit "a"));
                          (lit "value", JStr (lit "dGVzdA==")) ];
              id := lit "r-1" |}).
  - vm_compute. reflexivity.
  - vm_compute. discriminate.
Defined.

(** ** The audit list *)

Section AuditList.




End AuditList.



(** ** The audit key hash *)

Section KeyHash.

Lemma base64_prefix b :
  firstn 8 (Buffer.to_base64 b) = Buffer.to_base64 (firstn 6 b).
Proof.
  destruct b as [|x1 [|x2 [|x3 [|x4 [|x5 [|x6 b]]]]]]; reflexivity.
Qed.

End KeyHash.

(** X19: the [keyHash] written to the audit list is no hash: for a string
    key it is base-64 text that decodes to the first six bytes of the
    key's UTF-8 encoding (to the whole key when it is shorter). *)
Theorem key_hash_decodes_to_key_prefix
    (env : Env) (ps : list (jsstring * JSON.t)) (k : jsstring) :
  JSON.lookup ps (lit "key") = Some (JStr k) ->
  k <> [] ->
  Forall Buffer.unit16 k ->
  exists h,
    ProtocolRouter.hashKey env ps = Some h
    /\ Buffer.from_base64 h = firstn 6 (Buffer.from_utf8 k).
Proof.
  intros Hk Hne Hu. unfold ProtocolRouter.hashKey. rewrite Hk.
  destruct k as [|c k]; [contradiction|].
  cbn [JSON.truthy negb]. eexists. split; [reflexivity|].
  unfold substring0. change (Z.to_nat 8) with 8%nat.
  rewrite base64_prefix. apply from_base64_to_base64.
  apply Forall_take, from_utf8_octets, Hu.
Qed.

Lemma key_hash_decodes_to_key_prefix_witness :
  exists h,
    ProtocolRouter.hashKey (Examples.at_ 1000)
      [ (lit "key", JStr (lit "user:42:email")) ] = Some h
    /\ Buffer.from_base64 h
       = firstn 6 (Buffer.from_utf8 (lit "user:42:email")).
Proof.
  apply (key_hash_decodes_to_key_prefix (Examples.at_ 1000)
           [ (lit "key", JStr (lit "user:42:email")) ] (lit "user:42:email")).
  - reflexivity.
  - discriminate.
  - repeat (constructor; [reflexivity|]). constructor.
Defined.

(** ** Resetting a window, adding and removing a connection *)

(** X20: a reset gives back the whole allowance of its own window and
    leaves the other window alone. *)
Theorem reset_restores_allowance (c : ClientConnection) (now : Z) :
  0 <= mps (limits c) -> 0 <= bps (limits c) ->
  fst (RateLimiter.getRemainingRequests (RateLimiter.reset c) now)
  = mps (limits c)
  /\ fst (BudgetManager.getRemainingBudget (BudgetManager.reset c) now)
     = bps (limits c)
  /\ fst (BudgetManager.getRemainingBudget (RateLimiter.reset c) now)
     = fst (BudgetManager.getRemainingBudget c now)
  /\ fst (RateLimiter.getRemainingRequests (BudgetManager.reset c) now)
     = fst (RateLimiter.getRemainingRequests c now).
Proof.
  intros Hm Hb.
  unfold RateLimiter.getRemainingRequests, BudgetManager.getRemainingBudget,
    BudgetManager.getCurrentUsage, RateLimiter.reset, BudgetManager.reset.
  destruct (rateLimitState c) as [st|] eqn:E;
    cbn [rateLimitState set_rateLimitState limits fst requests byteRecords
         List.filter length];
    rewrite ?E; cbn [fst]; repeat split; try reflexivity;
    unfold BudgetManager.usage; cbn [fold_left List.filter]; lia.
Qed.

Lemma reset_restores_allowance_witness :
  fst (RateLimiter.getRemainingRequests (RateLimiter.reset Examples.busy) 60000)
  = mps (limits Examples.busy).
Proof.
  apply (reset_restores_allowance Examples.busy 60000); cbn; lia.
Defined.

(** X21: removing a connection does not lock the client out: its next
    event is served under what the registry, or else the defaults, give
    it, with an empty window.  Adding a connection replaces the stored one,
    window included.  Neither touches another client. *)
Theorem removed_connection_falls_back
    (this : NostrKVServer.t) (p q ns : jsstring) (methods : list jsstring)
    (lim : Limits) :
  NostrKVServer.connectionOf (NostrKVServer.removeConnection this p) p
  = match NostrKVServer.loadConnectionFromRegistry this p with
    | Some c => c
    | None => NostrKVServer.createDefaultConnection this p
    end
  /\ NostrKVServer.connectionOf (NostrKVServer.addConnection this p ns methods lim) p
     = {| pubkey := p; namespace := ns; allowedMethods := methods;
          limits := lim; rateLimitState := None |}
  /\ (q <> p ->
      NostrKVServer.connectionOf (NostrKVServer.removeConnection this p) q
      = NostrKVServer.connectionOf this q
      /\ NostrKVServer.connectionOf
           (NostrKVServer.addConnection this p ns methods lim) q
         = NostrKVServer.connectionOf this q).
Proof.
  unfold NostrKVServer.connectionOf, NostrKVServer.removeConnection,
    NostrKVServer.addConnection, NostrKVServer.loadConnectionFromRegistry,
    NostrKVServer.createDefaultConnection.
  cbn [NostrKVServer.connections NostrKVServer.registryFile
       NostrKVServer.config_namespace NostrKVServer.config_limits].
  rewrite lookup_delete_eq, lookup_insert_eq.
  repeat split; try reflexivity.
  - rewrite lookup_delete_ne by congruence. reflexivity.
  - rewrite lookup_insert_ne by congruence. reflexivity.
Qed.

Lemma removed_connection_falls_back_witness :
  NostrKVServer.connectionOf
    (NostrKVServer.removeConnection Examples.server0 Examples.alicePubkey)
    Examples.carolPubkey
  = NostrKVServer.connectionOf Examples.server0 Examples.carolPubkey.
Proof.
  apply (proj2 (proj2 (removed_connection_falls_back Examples.server0
                         Examples.alicePubkey Examples.carolPubkey (lit "appA:")
                         Examples.allMethods Examples.limits0))).
  vm_compute. discriminate.
Defined.

(** ** Tenants *)

Section Tenants.

Import ProtocolRouter.

Lemma first_colon (b1 b2 r1 r2 : jsstring) :
  forallb Validator.isNameChar b1 = true ->
  forallb Validator.isNameChar b2 = true ->
  b1 ++ 58%N :: r1 = b2 ++ 58%N :: r2 -> b1 = b2.
Proof.
  revert b2. induction b1 as [|x b1 IH]; intros [|y b2] H1 H2 E;
    cbn [app forallb] in *; try reflexivity.
  - injection E as <- _. apply andb_true_iff in H2 as [H2 _]. discriminate.
  - injection E as -> _. apply andb_true_iff in H1 as [H1 _]. discriminate.
  - injection E as -> E.
    apply andb_true_iff in H1 as [_ H1]. apply andb_true_iff in H2 as [_ H2].
    f_equal. exact (IH b2 H1 H2 E).
Qed.

Lemma validateNamespace_shape ns :
  Validator.validateNamespace ns = true ->
  endsWith ns (lit ":") = true
  /\ exists body, ns = body ++ [58%N]
                  /\ forallb Validator.isNameChar body = true.
Proof.
  unfold Validator.validateNamespace.
  destruct (falsy ns); [discriminate|].
  destruct (endsWith ns (lit ":")); cbn [negb]; [|discriminate].
  destruct (Validator.validPattern ns) eqn:E; cbn [negb]; [|discriminate].
  intros _. split; [reflexivity|].
  destruct (validPattern_shape ns E) as (body & -> & _ & Hb). eauto.
Qed.

Lemma namespaces_disjoint ns ns' k :
  Validator.validateNamespace ns = true ->
  Validator.validateNamespace ns' = true ->
  ns' <> ns ->
  startsWith k ns = true -> startsWith k ns' = false.
Proof.
  intros [_ (b & -> & Hb)]%validateNamespace_shape
         [_ (b' & -> & Hb')]%validateNamespace_shape Hne Hk.
  destruct (startsWith k (b' ++ [58%N])) eqn:Hk'; [|reflexivity].
  apply startsWith_iff in Hk as [r ->]. apply startsWith_iff in Hk' as [r' E].
  rewrite <- !app_assoc in E. cbn [app] in E.
  apply first_colon in E; [|assumption..]. congruence.
Qed.

Lemma filter_all {A} (f : A -> bool) (l : list A) :
  Forall (fun x => f x = true) l -> List.filter f l = l.
Proof.
  induction 1 as [|x l Hx _ IH]; [reflexivity|].
  cbn [List.filter]. rewrite Hx, IH. reflexivity.
Qed.

(** The commands of a method handler address keys of the namespace of the
    connection only. *)
Lemma afterHandler_confined this env request r c :
  exists handler,
    Redis.history (Spec.afterHandler this env request r c)
    = Redis.history (kvAdapter this) ++ handler
    /\ Forall (Spec.confined
                 (NamespaceManager.namespace (fst (getNamespaceManager this c)))
                 (Spec.paramKeys (params r))) handler.
Proof.
  destruct (afterHandler_atMostOne this env request r c)
    as (handler & Hh & _ & Hd).
  destruct (afterHandler_extends this env request r c) as (cmds & Hi & Hc).
  exists handler. split; [exact Hh|].
  rewrite (issued_app _ _ _ Hh) in Hi. apply app_inv_head in Hi.
  rewrite filter_all in Hi.
  - rewrite Hi. exact Hc.
  - eapply Forall_impl; [exact Hd|]. intros cmd [H _]. exact H.
Qed.

Lemma auditOf_keys a record cmds :
  Spec.auditOf a record cmds ->
  Forall (fun cmd => Redis.keysOf cmd = [AuditLogger.auditKey a]) cmds.
Proof. intros [->| ->]; repeat constructor. Qed.

End Tenants.

(** X22: tenants are kept apart by the method handlers, not by the audit
    logger.  When the namespace of a connection and another namespace both
    pass [validateNamespace] and differ, every command a method handler
    sends for a request of that connection addresses keys of the
    connection's namespace and none of the other namespace.  The commands
    the audit logger sends after it address one key, the audit key of the
    server, whatever the namespace of the connection. *)
Theorem tenants_never_share_a_key
    (this : ProtocolRouter.t) (env : Env) (request : JSON.t)
    (c : ClientConnection) (other : jsstring) :
  Spec.managersOk this ->
  Validator.validateNamespace (namespace c) = true ->
  Validator.validateNamespace other = true ->
  other <> namespace c ->
  exists handler audit,
    Redis.history
      (ProtocolRouter.kvAdapter (ProtocolRouter.handleRequest this env request c).1.2)
    = Redis.history (ProtocolRouter.kvAdapter this) ++ handler ++ audit
    /\ Forall (fun cmd => Redis.isData cmd = true
                          /\ forall k, In k (Redis.keysOf cmd) ->
                               startsWith k (namespace c) = true
                               /\ startsWith k other = false) handler
    /\ Forall (fun cmd =>
                 Redis.isData cmd = false
                 /\ Redis.keysOf cmd
                    = [AuditLogger.auditKey (ProtocolRouter.auditLogger this)])
              audit.
Proof.
  intros Hok Hns Hother Hne.
  pose proof (handleRequest_backend this env request c) as H. cbn zeta in H.
  destruct (Spec.stageOf this env request c);
    try (exists [], []; rewrite H, !app_nil_r;
         repeat split; constructor).
  destruct H as [r [Hp H]].
  destruct (afterHandler_confined this env request r c) as (handler & Hh & Hc).
  destruct (afterHandler_atMostOne this env request r c)
    as (handler' & Hh' & _ & Hd).
  rewrite Hh in Hh'. apply app_inv_head in Hh'. subst handler'.
  destruct (getNamespaceManager_ok this c Hok) as [Hm _].
  rewrite Hm, new_namespace in Hc
    by (apply validateNamespace_shape in Hns as [Hns _]; exact Hns).
  assert (Forall (fun cmd => Redis.isData cmd = true
                             /\ forall k, In k (Redis.keysOf cmd) ->
                                  startsWith k (namespace c) = true
                                  /\ startsWith k other = false) handler)
    as Hhandler.
  { apply List.Forall_forall. intros cmd Hin.
    pose proof (proj1 (List.Forall_forall _ _) Hc cmd Hin) as Hconf.
    pose proof (proj1 (List.Forall_forall _ _) Hd cmd Hin) as [Hdata _].
    split; [exact Hdata|]. intros k Hk. destruct (Hconf k Hk) as [Hs _].
    split; [exact Hs|].
    exact (namespaces_disjoint (namespace c) other k Hns Hother Hne Hs). }
  destruct (Spec.keyHashable env request).
  - destruct H as [entry [H _]].
    destruct (history_log (ProtocolRouter.auditLogger this)
                (Spec.afterHandler this env request r c) env entry)
      as [audit [Ha Hof]].
    exists handler, audit. rewrite H, Ha, Hh, app_assoc.
    split; [reflexivity|]. split; [exact Hhandler|].
    destruct Hof as [->| ->]; repeat constructor.
  - exists handler, []. rewrite H, Hh, app_nil_r.
    split; [reflexivity|]. split; [exact Hhandler|]. constructor.
Qed.

Lemma tenants_never_share_a_key_witness :
  exists handler audit,
    Redis.history
      (ProtocolRouter.kvAdapter
         (ProtocolRouter.handleRequest Examples.router0 (Examples.at_ 1000)
            (Examples.getRequest "r-1") Examples.dave).1.2)
    = Redis.history (ProtocolRouter.kvAdapter Examples.router0)
      ++ handler ++ audit
    /\ Forall (fun cmd => Redis.isData cmd = true
                          /\ forall k, In k (Redis.keysOf cmd) ->
                               startsWith k (namespace Examples.dave) = true
                               /\ startsWith k (lit "appA:") = false) handler
    /\ Forall (fun cmd =>
                 Redis.isData cmd = false
                 /\ Redis.keysOf cmd
                    = [AuditLogger.auditKey
                         (ProtocolRouter.auditLogger Examples.router0)])
              audit.
Proof.
  apply (tenants_never_share_a_key Examples.router0 (Examples.at_ 1000)
           (Examples.getRequest "r-1") Examples.dave (lit "appA:")).
  - exact (managersOk_new _).
  - vm_compute. reflexivity.
  - vm_compute. reflexivity.
  - vm_compute. discriminate.
Defined.

(** The audit key lies in the keyspace of the clients: a request of a
    connection with namespace ["d:"] on a server configured with ["appA:"]
    ends with an LPUSH and an LTRIM on ["appA:__audit"], a key a client of
    namespace ["appA:"] reaches as ["__audit"]. *)
Example audit_key_in_configured_namespace :
  List.map Redis.keysOf
    (Redis.history
       (ProtocolRouter.kvAdapter
          (ProtocolRouter.handleRequest Examples.router0 (Examples.at_ 1000)
             (Examples.getRequest "r-1") Examples.dave).1.2))
  = [ [lit "d:a"]; [lit "appA:__audit"]; [lit "appA:__audit"] ]
  /\ NamespaceManager.ensureNamespace (NamespaceManager.new (lit "appA:"))
       (lit "__audit")
     = Some (lit "appA:__audit").
Proof. split; vm_compute; reflexivity. Qed.

(** ** Cache keys *)

Section CacheKeys.

Lemma colon_free_prefix (p p' i i' : jsstring) :
  existsb (N.eqb 58) p = false -> existsb (N.eqb 58) p' = false ->
  p ++ 58%N :: i = p' ++ 58%N :: i' -> p = p' /\ i = i'.
Proof.
  revert p'. induction p as [|x p IH]; intros [|y p'] H H' E;
    cbn [app existsb] in *.
  - injection E as ->. auto.
  - injection E as <- _. apply orb_false_iff in H' as [H' _]. discriminate.
  - injection E as -> _. apply orb_false_iff in H as [H _]. discriminate.
  - injection E as -> E.
    apply orb_false_iff in H as [_ H]. apply orb_false_iff in H' as [_ H'].
    destruct (IH p' H H' E) as [-> ->]. auto.
Qed.

End CacheKeys.

(** X23: for client keys without a colon (hex keys have none) the cache
    key tells clients and request ids apart, so filing a response for one
    client never changes what another client, or another request id, is
    answered from the cache. *)
Theorem cache_separates_clients
    (ic : IdempotencyCache.t) (t t' : Z) (p i p' i' : jsstring)
    (r : KVResponse) :
  existsb (N.eqb 58) p = false ->
  existsb (N.eqb 58) p' = false ->
  (p, i) <> (p', i') ->
  IdempotencyCache.getCacheKey p i <> IdempotencyCache.getCacheKey p' i'
  /\ fst (IdempotencyCache.get (IdempotencyCache.set ic t p i r) t' p' i')
     = fst (IdempotencyCache.get ic t' p' i').
Proof.
  intros Hp Hp' Hne.
  assert (IdempotencyCache.getCacheKey p i <> IdempotencyCache.getCacheKey p' i')
    as Hk.
  { unfold IdempotencyCache.getCacheKey. intros E.
    change (lit ":") with [58%N] in E. cbn [app] in E.
    apply colon_free_prefix in E as [-> ->]; auto. }
  split; [exact Hk|].
  rewrite !cache_get_result. unfold IdempotencyCache.set.
  cbn [IdempotencyCache.cache IdempotencyCache.windowMs].
  rewrite lookup_insert_ne by exact Hk. reflexivity.
Qed.

Lemma cache_separates_clients_witness :
  IdempotencyCache.getCacheKey Examples.alicePubkey (lit "r-1")
  <> IdempotencyCache.getCacheKey Examples.carolPubkey (lit "r-1")
  /\ fst (IdempotencyCache.get
            (IdempotencyCache.set IdempotencyCache.new 1000 Examples.alicePubkey
               (lit "r-1") (ProtocolRouter.okResponse None JNull))
            2000 Examples.carolPubkey (lit "r-1"))
     = fst (IdempotencyCache.get IdempotencyCache.new 2000 Examples.carolPubkey
              (lit "r-1")).
Proof.
  apply (cache_separates_clients IdempotencyCache.new 1000 2000
           Examples.alicePubkey (lit "r-1") Examples.carolPubkey (lit "r-1")
           (ProtocolRouter.okResponse None JNull)).
  - vm_compute. reflexivity.
  - vm_compute. reflexivity.
  - vm_compute. discriminate.
Defined.

(** ** Reading an allowance *)

Section Observers.

Lemma recent_later now now' l :
  now <= now' -> Spec.recent now' (Spec.recent now l) = Spec.recent now' l.
Proof.
  intros Hle. unfold Spec.recent. induction l as [|x l IH]; [reflexivity|].
  cbn [List.filter].
  destruct (decide (now - x < 60000)) as [Hin|Hout].
  - rewrite (bool_decide_eq_true_2 _ Hin). cbn [List.filter]. rewrite IH.
    reflexivity.
  - rewrite (bool_decide_eq_false_2 _ Hout), IH.
    rewrite bool_decide_eq_false_2 by lia. reflexivity.
Qed.

Lemma inWindow_later now now' l :
  now <= now' ->
  List.filter (BudgetManager.inWindow now')
    (List.filter (BudgetManager.inWindow now) l)
  = List.filter (BudgetManager.inWindow now') l.
Proof.
  intros Hle. induction l as [|x l IH]; [reflexivity|].
  cbn [List.filter]. destruct (BudgetManager.inWindow now x) eqn:E.
  - cbn [List.filter]. rewrite IH. reflexivity.
  - rewrite IH.
    assert (BudgetManager.inWindow now' x = false) as ->; [|reflexivity].
    unfold BudgetManager.inWindow, BudgetManager.windowMs in *.
    apply Z.ltb_ge. apply Z.ltb_ge in E. lia.
Qed.

End Observers.

(** X24: reading an allowance purges the window in place, and that never
    changes a later decision: after [getRemainingRequests] or
    [getCurrentUsage] at some time, a check made at that time or later
    gives the verdict it would have given without the reading. *)
Theorem reading_never_changes_a_verdict
    (c : ClientConnection) (now now' n : Z) :
  now <= now' ->
  fst (RateLimiter.checkLimit (RateLimiter.getRemainingRequests c now).2 now')
  = fst (RateLimiter.checkLimit c now')
  /\ fst (BudgetManager.checkBudget (BudgetManager.getCurrentUsage c now).2 now' n)
     = fst (BudgetManager.checkBudget c now' n).
Proof.
  intros Hle. rewrite !checkLimit_spec, !checkBudget_spec. cbn [fst].
  unfold RateLimiter.getRemainingRequests, BudgetManager.getCurrentUsage.
  destruct (rateLimitState c) as [st|] eqn:E; cbn [snd]; [|auto].
  unfold initState. rewrite E.
  cbn [rateLimitState set_rateLimitState limits requests byteRecords].
  rewrite filter_recent, recent_later by exact Hle.
  rewrite <- !usage_windowBytes, inWindow_later by exact Hle. auto.
Qed.

Lemma reading_never_changes_a_verdict_witness :
  fst (RateLimiter.checkLimit
         (RateLimiter.getRemainingRequests Examples.busy 60000).2 62000)
  = fst (RateLimiter.checkLimit Examples.busy 62000)
  /\ fst (BudgetManager.checkBudget
            (BudgetManager.getCurrentUsage Examples.busy 60000).2 62000 10)
     = fst (BudgetManager.checkBudget Examples.busy 62000 10).
Proof.
  apply (reading_never_changes_a_verdict Examples.busy 60000 62000 10). lia.
Defined.
